(** * Empirion: task scheduler (agent pool) and broadcast hub

    A shallow embedding of [src/agents/hyperagent.py], [src/agents/pool.py]
    and [src/websockets/server.py].

    Conventions of the embedding:
    - Python [float] values (capability levels, success rates) are taken as
      rationals [Q]; Python [int] values as [Z] or [nat] (for lengths and
      counters that start at 0 and only grow).
    - A Python [dict] whose iteration order is observed (the agent map, a
      message) is an association list in insertion order; dictionaries and
      sets that are only looked up are [gmap] and [gset].
    - [uuid.uuid4()] and [datetime.utcnow()] are inputs of the operation that
      calls them; timestamps are integers (microseconds).
    - The persistence layer ([get_db]) and console output have no effect on
      the state modelled here and are left out. *)

From Stdlib Require Import QArith Lqa.
From stdpp Require Import gmap gmultiset strings list pretty.

Set Warnings "-clear-no-such-hyp".

Open Scope string_scope.
Open Scope list_scope.
Open Scope nat_scope.

(** ** Python dictionaries in insertion order *)

Module PyDict.
Section dict.
Context {V : Type}.

Definition keys (d : list (string * V)) : list string := d.*1.
Definition values (d : list (string * V)) : list V := d.*2.

(** [d.get(k)] *)
Fixpoint get (d : list (string * V)) (k : string) : option V :=
  match d with
  | [] => None
  | (k', v) :: d' => if decide (k' = k) then Some v else get d' k
  end.

(** [d[k] = v]: an existing key keeps its position, a new key goes last. *)
Fixpoint set (d : list (string * V)) (k : string) (v : V) : list (string * V) :=
  match d with
  | [] => [(k, v)]
  | (k', v') :: d' =>
      if decide (k' = k) then (k', v) :: d' else (k', v') :: set d' k v
  end.

(** [del d[k]] (on a present key) and [d.pop(k, None)]. *)
Fixpoint del (d : list (string * V)) (k : string) : list (string * V) :=
  match d with
  | [] => []
  | (k', v') :: d' => if decide (k' = k) then d' else (k', v') :: del d' k
  end.
End dict.
End PyDict.

(** ** hyperagent.py *)

Inductive Status := initializing | active | shutting_down | inactive.

#[global] Instance Status_eq_dec : EqDecision Status.
Proof. solve_decision. Defined.

Record AgentCapability := {
  name : string;
  level : Q;
}.

(** The attributes of a [HyperAgent] that the scheduler reads; [agent_id]
    and [agent_name] are its [id] and [name]. *)
Record HyperAgent := {
  agent_id : string;
  agent_name : string;
  status : Status;
  capabilities : list AgentCapability;
  tasks_completed : Z;
  success_rate : Q;
  learning_rate : Q;
}.

Definition _initialize_capabilities : list AgentCapability :=
  [ {| name := "quantum_processing"; level := 1 |};
    {| name := "pattern_recognition"; level := 1 |};
    {| name := "adaptive_learning"; level := 1 |};
    {| name := "memory_optimization"; level := 1 |};
    {| name := "task_execution"; level := 1 |};
    {| name := "communication"; level := 1 |};
    {| name := "self_modification"; level := 5 # 10 |};
    {| name := "predictive_analysis"; level := 8 # 10 |} ].

(** [HyperAgent(name, agent_type)] followed by [await agent.initialize()],
    which leaves the status at ["active"]. *)
Definition new_agent (id nm : string) : HyperAgent :=
  {| agent_id := id; agent_name := nm; status := active;
     capabilities := _initialize_capabilities;
     tasks_completed := 0; success_rate := 1; learning_rate := 1 # 100 |}.

Definition relevance_map : list (string * list string) :=
  [ ("data_analysis", ["pattern_recognition"; "adaptive_learning"; "quantum_processing"]);
    ("pattern_recognition", ["pattern_recognition"; "memory_optimization"]);
    ("optimization", ["quantum_processing"; "adaptive_learning"; "predictive_analysis"]);
    ("communication", ["communication"; "memory_optimization"]);
    ("learning", ["adaptive_learning"; "memory_optimization"; "self_modification"]) ].

(** [relevance_map.get(task_type, ["task_execution"])] *)
Definition relevant_names (task_type : string) : list string :=
  default ["task_execution"] (PyDict.get relevance_map task_type).

Definition _get_relevant_capabilities (self : HyperAgent) (task_type : string)
    : list AgentCapability :=
  filter (λ cap, name cap ∈ relevant_names task_type) (capabilities self).

(** [sum(cap.level for cap in caps)]: a left fold from 0. *)
Definition sum_levels (caps : list AgentCapability) : Q :=
  fold_left (λ acc cap, acc + level cap)%Q caps 0%Q.

(** The bounds the source maintains: every update of a level ends with
    [max(0.1, min(10.0, level))], and the success rate is a running mean of
    0/1 outcomes. *)
Definition level_in_bounds (cap : AgentCapability) : Prop :=
  (1 # 10 <= level cap)%Q ∧ (level cap <= 10)%Q.


(** ** pool.py: executor selection *)

Record Task := {
  task_type : string;
  priority : Z;
}.

(** The score of [_select_best_agent]. *)
Definition score (agent : HyperAgent) (task_type : string) : Q :=
  (sum_levels (_get_relevant_capabilities agent task_type) * success_rate agent)%Q.

(** The [for] loop of [_select_best_agent], with its two loop variables. *)
Fixpoint best_loop (agents : list HyperAgent) (task_type : string)
    (best_agent : option HyperAgent) (best_score : Q) : option HyperAgent :=
  match agents with
  | [] => best_agent
  | agent :: rest =>
      if Qlt_le_dec best_score (score agent task_type)
      then best_loop rest task_type (Some agent) (score agent task_type)
      else best_loop rest task_type best_agent best_score
  end.

(** [best_agent or agents[0]]; [None] stands for the [IndexError] of
    [agents[0]] on an empty list. *)
Definition _select_best_agent (agents : list HyperAgent) (task_type : string)
    : option HyperAgent :=
  match best_loop agents task_type None 0%Q with
  | Some a => Some a
  | None => head agents
  end.

(** [sum(...) / len(relevant_caps) if relevant_caps else 0.5] *)
Definition avg_capability (agent : HyperAgent) (task_type : string) : Q :=
  match _get_relevant_capabilities agent task_type with
  | [] => 5 # 10
  | caps => (sum_levels caps / inject_Z (Z.of_nat (length caps)))%Q
  end.

(** [avg_capability >= 0.7] *)
Definition is_capable (agent : HyperAgent) (task_type : string) : bool :=
  Qle_bool (7 # 10) (avg_capability agent task_type).

(** [list.sort(key=...)] is stable; it is modelled by the stable insertion
    sort on an integer key. *)
Section stable_sort.
Context {A : Type} (key : A → Z).

Fixpoint insert_sorted (x : A) (l : list A) : list A :=
  match l with
  | [] => [x]
  | y :: l' => if (key x <=? key y)%Z then x :: y :: l' else y :: insert_sorted x l'
  end.

Fixpoint sort_by_key (l : list A) : list A :=
  match l with
  | [] => []
  | x :: l' => insert_sorted x (sort_by_key l')
  end.
End stable_sort.

(** [self.agent_workloads.get(agent.id, 0)] *)
Definition workload_of (agent_workloads : gmap string Z) (agent : HyperAgent) : Z :=
  default 0%Z (agent_workloads !! agent_id agent).

(** The first loop of [_select_least_loaded_capable_agent]. *)
Fixpoint capable_loop (agent_workloads : gmap string Z) (agents : list HyperAgent)
    (task_type : string) : list (HyperAgent * Z) :=
  match agents with
  | [] => []
  | agent :: rest =>
      if is_capable agent task_type
      then (agent, workload_of agent_workloads agent)
             :: capable_loop agent_workloads rest task_type
      else capable_loop agent_workloads rest task_type
  end.

Definition _select_least_loaded_capable_agent (agent_workloads : gmap string Z)
    (agents : list HyperAgent) (task_type : string) : option HyperAgent :=
  let capable_agents := capable_loop agent_workloads agents task_type in
  let capable_agents :=
    match capable_agents with
    | [] => (λ agent, (agent, workload_of agent_workloads agent)) <$> agents
    | _ => capable_agents
    end in
  fst <$> head (sort_by_key snd capable_agents).

(** [_select_round_robin_agent]: the selected executor and the new value of
    [self.round_robin_index]. *)
Definition _select_round_robin_agent (agents : list HyperAgent)
    (round_robin_index : nat) : option HyperAgent * nat :=
  match agents with
  | [] => (None, round_robin_index)
  | _ => (agents !! (round_robin_index mod length agents), S round_robin_index)
  end.

(** ** pool.py: the pool and its operations *)

(** [PoolMetrics], without its two floating-point averages, which no
    decision of the pool reads. *)
Record PoolMetrics := {
  total_agents : nat;
  active_agents : nat;
  tasks_in_queue : nat;
  metrics_tasks_completed : nat;
}.

Record AgentPool := {
  agents : list (string * HyperAgent);
  task_queue : list Task;
  metrics : PoolMetrics;
  is_running : bool;
  agent_workloads : gmap string Z;
  round_robin_index : nat;
  optimization_cycles : nat;
}.

(** [AgentPool()] followed by [initialize()]. *)
Definition new_pool : AgentPool :=
  {| agents := []; task_queue := [];
     metrics := {| total_agents := 0; active_agents := 0; tasks_in_queue := 0;
                   metrics_tasks_completed := 0 |};
     is_running := true; agent_workloads := ∅; round_robin_index := 0;
     optimization_cycles := 0 |}.

Definition with_agents (self : AgentPool) (x : list (string * HyperAgent)) : AgentPool :=
  {| agents := x; task_queue := task_queue self; metrics := metrics self;
     is_running := is_running self; agent_workloads := agent_workloads self;
     round_robin_index := round_robin_index self;
     optimization_cycles := optimization_cycles self |}.

Definition with_task_queue (self : AgentPool) (x : list Task) : AgentPool :=
  {| agents := agents self; task_queue := x; metrics := metrics self;
     is_running := is_running self; agent_workloads := agent_workloads self;
     round_robin_index := round_robin_index self;
     optimization_cycles := optimization_cycles self |}.

Definition with_metrics (self : AgentPool) (x : PoolMetrics) : AgentPool :=
  {| agents := agents self; task_queue := task_queue self; metrics := x;
     is_running := is_running self; agent_workloads := agent_workloads self;
     round_robin_index := round_robin_index self;
     optimization_cycles := optimization_cycles self |}.

Definition with_agent_workloads (self : AgentPool) (x : gmap string Z) : AgentPool :=
  {| agents := agents self; task_queue := task_queue self; metrics := metrics self;
     is_running := is_running self; agent_workloads := x;
     round_robin_index := round_robin_index self;
     optimization_cycles := optimization_cycles self |}.

Definition with_round_robin_index (self : AgentPool) (x : nat) : AgentPool :=
  {| agents := agents self; task_queue := task_queue self; metrics := metrics self;
     is_running := is_running self; agent_workloads := agent_workloads self;
     round_robin_index := x;
     optimization_cycles := optimization_cycles self |}.

Definition with_optimization_cycles (self : AgentPool) (x : nat) : AgentPool :=
  {| agents := agents self; task_queue := task_queue self; metrics := metrics self;
     is_running := is_running self; agent_workloads := agent_workloads self;
     round_robin_index := round_robin_index self;
     optimization_cycles := x |}.

Definition with_tasks_in_queue (m : PoolMetrics) (x : nat) : PoolMetrics :=
  {| total_agents := total_agents m; active_agents := active_agents m;
     tasks_in_queue := x; metrics_tasks_completed := metrics_tasks_completed m |}.

Definition with_tasks_completed (m : PoolMetrics) (x : nat) : PoolMetrics :=
  {| total_agents := total_agents m; active_agents := active_agents m;
     tasks_in_queue := tasks_in_queue m; metrics_tasks_completed := x |}.

(** [[agent for agent in self.agents.values() if agent.status == "active"]] *)
Definition active_list (self : AgentPool) : list HyperAgent :=
  filter (λ agent, status agent = active) (PyDict.values (agents self)).

Definition _update_metrics (self : AgentPool) : AgentPool :=
  with_metrics self
    {| total_agents := length (agents self);
       active_agents := length (active_list self);
       tasks_in_queue := length (task_queue self);
       metrics_tasks_completed := metrics_tasks_completed (metrics self) |}.

(** [_select_agent_for_task]: the executor, if any, and the pool with the
    round-robin cursor as the call leaves it. *)
Definition _select_agent_for_task (self : AgentPool) (task : Task)
    : option HyperAgent * AgentPool :=
  match agents self with
  | [] => (None, self)
  | _ =>
      let active_agents := active_list self in
      match active_agents with
      | [] => (None, self)
      | _ =>
          if (5 <=? priority task)%Z then
            (_select_best_agent active_agents (task_type task), self)
          else if (3 <=? priority task)%Z then
            (_select_least_loaded_capable_agent (agent_workloads self)
               active_agents (task_type task), self)
          else
            let '(agent, i) :=
              _select_round_robin_agent active_agents (round_robin_index self) in
            (agent, with_round_robin_index self i)
      end
  end.

Inductive create_result :=
  | Created (self : AgentPool)
  | LimitReached      (* ValueError: maximum agent limit reached *)
  | NameExists.       (* ValueError: agent with this name already exists *)

(** [create_agent(name)]; [id] is the [uuid4] drawn by [HyperAgent.__init__]. *)
Definition create_agent (max_agents : Z) (self : AgentPool) (nm id : string)
    : create_result :=
  if (max_agents <=? Z.of_nat (length (agents self)))%Z then LimitReached
  else if bool_decide (nm ∈ agent_name <$> PyDict.values (agents self)) then NameExists
  else
    let agent := new_agent id nm in
    let self := with_agents self (PyDict.set (agents self) id agent) in
    let self := with_agent_workloads self (<[id := 0%Z]> (agent_workloads self)) in
    Created (_update_metrics self).

Inductive remove_result :=
  | Removed (self : AgentPool)       (* returns True *)
  | NotFound                         (* returns False *)
  | RemoveKeyError (self : AgentPool). (* del agent_workloads[agent_id] raised *)

(** [remove_agent(agent_id)]. The executor is shut down and then dropped from
    both maps; the shutdown does not suspend, as no executor is given
    websocket connections of its own. *)
Definition remove_agent (self : AgentPool) (id : string) : remove_result :=
  match PyDict.get (agents self) id with
  | None => NotFound
  | Some _ =>
      let self := with_agents self (PyDict.del (agents self) id) in
      match agent_workloads self !! id with
      | None => RemoveKeyError self
      | Some _ =>
          let self := with_agent_workloads self (delete id (agent_workloads self)) in
          Removed (_update_metrics self)
      end
  end.

(** The pool a caller is left with after [remove_agent], whatever it
    returned. *)
Definition pool_after_remove (self : AgentPool) (id : string) : AgentPool :=
  match remove_agent self id with
  | Removed self' | RemoveKeyError self' => self'
  | NotFound => self
  end.

(** [submit_task] *)
Definition submit_task (self : AgentPool) (task : Task) : AgentPool :=
  let self := with_task_queue self (task_queue self ++ [task]) in
  with_metrics self (with_tasks_in_queue (metrics self) (length (task_queue self))).

(** *** The worker loop

    One iteration of [_worker] runs in two uninterrupted parts, separated by
    the suspension at [await agent.process_task(task_data)]. *)

Inductive dispatch_result :=
  | Dispatched (id : string)   (* workload incremented, process_task started *)
  | Requeued                   (* no executor: the task went back to the queue *)
  | WorkerError.               (* KeyError on the increment, caught by the loop *)

(** From [task_queue.get()] to the call of [process_task]; [None] when the
    queue is empty (the [TimeoutError] branch). *)
Definition worker_dispatch (self : AgentPool) : option (dispatch_result * AgentPool) :=
  match task_queue self with
  | [] => None
  | task_data :: rest =>
      let self := with_task_queue self rest in
      let '(agent, self) := _select_agent_for_task self task_data in
      match agent with
      | Some agent =>
          match agent_workloads self !! agent_id agent with
          | Some n =>
              Some (Dispatched (agent_id agent),
                    with_agent_workloads self
                      (<[agent_id agent := (n + 1)%Z]> (agent_workloads self)))
          | None => Some (WorkerError, self)
          end
      | None => Some (Requeued, with_task_queue self (task_queue self ++ [task_data]))
      end
  end.

(** From the return of [process_task] to the end of the iteration. *)
Definition worker_complete (self : AgentPool) (id : string) : AgentPool :=
  match agent_workloads self !! id with
  | None => self  (* KeyError, caught by the loop *)
  | Some n =>
      let self := with_agent_workloads self (<[id := (n - 1)%Z]> (agent_workloads self)) in
      let m := with_tasks_completed (metrics self) (S (metrics_tasks_completed (metrics self))) in
      let m := match task_queue self with
               | [] => m
               | _ => with_tasks_in_queue m (length (task_queue self))
               end in
      with_metrics self m
  end.

(** *** The autoscaler *)

Inductive log_line :=
  | AutoCreated (nm : string)
  | AutoCreateFailed (nm : string)
  | RemovingUnderperformer (nm : string).

(** [agent.success_rate < 0.3 and agent.tasks_completed > 10 and
    len(self.agents) > 3] *)
Definition underperforming (self : AgentPool) (agent : HyperAgent) : bool :=
  (if Qlt_le_dec (success_rate agent) (3 # 10) then true else false)
  && (10 <? tasks_completed agent)%Z
  && bool_decide (3 < length (agents self)).

(** The loop of [_remove_underperforming_agents] over the snapshot
    [list(self.agents.values())]. *)
Fixpoint remove_underperforming_loop (snapshot : list HyperAgent) (self : AgentPool)
    : AgentPool * list log_line :=
  match snapshot with
  | [] => (self, [])
  | agent :: rest =>
      if underperforming self agent then
        let '(self', out) :=
          remove_underperforming_loop rest (pool_after_remove self (agent_id agent)) in
        (self', RemovingUnderperformer (agent_name agent) :: out)
      else remove_underperforming_loop rest self
  end.

Definition _remove_underperforming_agents (self : AgentPool) : AgentPool * list log_line :=
  remove_underperforming_loop (PyDict.values (agents self)) self.

(** [min(0.1, agent.learning_rate * 1.1)] for the agents below 0.7. *)
Definition boost_learning_rate (agent : HyperAgent) : HyperAgent :=
  if Qlt_le_dec (success_rate agent) (7 # 10) then
    let r := (learning_rate agent * (11 # 10))%Q in
    {| agent_id := agent_id agent; agent_name := agent_name agent;
       status := status agent; capabilities := capabilities agent;
       tasks_completed := tasks_completed agent;
       success_rate := success_rate agent;
       learning_rate := if Qlt_le_dec r (1 # 10) then r else 1 # 10 |}
  else agent.

Definition _optimize_agent_capabilities (self : AgentPool) : AgentPool :=
  with_agents self (prod_map id boost_learning_rate <$> agents self).

(** [f"auto_agent_{self.optimization_cycles}"] *)
Definition auto_agent_name (cycle : nat) : string := "auto_agent_" +:+ pretty cycle.

(** The scale-up step of one cycle of [_optimize_pool]. *)
Definition scale_up (max_agents : Z) (self : AgentPool) (id : string)
    : AgentPool * list log_line :=
  if bool_decide (length (agents self) * 5 < tasks_in_queue (metrics self))
     && (Z.of_nat (length (agents self)) <? max_agents)%Z
  then
    let agent_name := auto_agent_name (optimization_cycles self) in
    match create_agent max_agents self agent_name id with
    | Created self' => (self', [AutoCreated agent_name])
    | LimitReached | NameExists => (self, [AutoCreateFailed agent_name])
    end
  else (self, []).

(** The scale-down step. *)
Definition scale_down (self : AgentPool) : AgentPool * list log_line :=
  if bool_decide (3 < length (agents self))
  then _remove_underperforming_agents self
  else (self, []).

(** One iteration of the loop of [_optimize_pool]; [id] is the identifier a
    created executor would get. *)
Definition optimize_cycle (max_agents : Z) (self : AgentPool) (id : string)
    : AgentPool * list log_line :=
  let self := with_optimization_cycles self (S (optimization_cycles self)) in
  let '(self, out1) := scale_up max_agents self id in
  let '(self, out2) := scale_down self in
  (_optimize_agent_capabilities self, out1 ++ out2).

(** *** The pool under concurrent use

    The coroutines of the pool run on one event loop, so the code between two
    suspension points is atomic. A run of the pool is a sequence of such
    atomic pieces: calls of the API, the two halves of a worker iteration, a
    cycle of the autoscaler, a refresh of the metrics, and the changes an
    executor makes to its own statistics while it evolves and learns.

    [processing] records, for every task inside [process_task], the executor
    it was handed to. [initialize] starts three workers, so at most three
    tasks are inside [process_task] at a time. *)

Record System := {
  pool : AgentPool;
  processing : gmultiset string;
}.

Definition new_system : System := {| pool := new_pool; processing := ∅ |}.

Definition n_workers : nat := 3.

Inductive event :=
  | EvCreate (nm id : string)     (* create_agent; id is the uuid drawn *)
  | EvRemove (id : string)        (* remove_agent *)
  | EvSubmit (task : Task)        (* submit_task *)
  | EvDispatch                    (* an idle worker takes the next task *)
  | EvComplete (id : string)      (* a process_task on executor id returns *)
  | EvOptimize (id : string)      (* one autoscale cycle *)
  | EvMonitor                     (* _monitor_performance: _update_metrics *)
  | EvAgentStats (id : string) (caps : list AgentCapability) (done : Z) (rate lr : Q).

Inductive observation :=
  | ObsDispatch (id : string)
  | ObsComplete (id : string).

#[global] Instance observation_eq_dec : EqDecision observation.
Proof. solve_decision. Defined.

(** A [uuid4] is taken to differ from every identifier in use. *)
Definition fresh (s : System) (id : string) : bool :=
  bool_decide (id ∉ PyDict.keys (agents (pool s)))
  && bool_decide (id ∉ processing s).

(** What an executor changes of itself ([_evolve], [_learn_from_task], the
    counters of [process_task]): never its identity or its status. *)
Definition set_agent_stats (self : AgentPool) (id : string)
    (caps : list AgentCapability) (done : Z) (rate lr : Q) : AgentPool :=
  match PyDict.get (agents self) id with
  | None => self
  | Some agent =>
      with_agents self
        (PyDict.set (agents self) id
           {| agent_id := agent_id agent; agent_name := agent_name agent;
              status := status agent; capabilities := caps;
              tasks_completed := done; success_rate := rate;
              learning_rate := lr |})
  end.

Definition with_pool (s : System) (p : AgentPool) : System :=
  {| pool := p; processing := processing s |}.

(** One atomic piece; [None] when it cannot happen in this state. *)
Definition step (max_agents : Z) (s : System) (ev : event)
    : option (System * list observation) :=
  match ev with
  | EvCreate nm id =>
      if fresh s id then
        match create_agent max_agents (pool s) nm id with
        | Created p => Some (with_pool s p, [])
        | LimitReached | NameExists => Some (s, [])
        end
      else None
  | EvRemove id => Some (with_pool s (pool_after_remove (pool s) id), [])
  | EvSubmit task => Some (with_pool s (submit_task (pool s) task), [])
  | EvDispatch =>
      if bool_decide (size (processing s) < n_workers) then
        match worker_dispatch (pool s) with
        | None => None
        | Some (Dispatched id, p) =>
            Some ({| pool := p; processing := processing s ⊎ {[+ id +]} |},
                  [ObsDispatch id])
        | Some (_, p) => Some (with_pool s p, [])
        end
      else None
  | EvComplete id =>
      if bool_decide (id ∈ processing s) then
        Some ({| pool := worker_complete (pool s) id;
                 processing := processing s ∖ {[+ id +]} |},
              [ObsComplete id])
      else None
  | EvOptimize id =>
      if fresh s id then
        Some (with_pool s (optimize_cycle max_agents (pool s) id).1, [])
      else None
  | EvMonitor => Some (with_pool s (_update_metrics (pool s)), [])
  | EvAgentStats id caps done rate lr =>
      Some (with_pool s (set_agent_stats (pool s) id caps done rate lr), [])
  end.

Fixpoint run (max_agents : Z) (s : System) (evs : list event)
    : option (System * list observation) :=
  match evs with
  | [] => Some (s, [])
  | ev :: evs' =>
      match step max_agents s ev with
      | None => None
      | Some (s', out) =>
          match run max_agents s' evs' with
          | None => None
          | Some (s'', out') => Some (s'', out ++ out')
          end
      end
  end.



(** *** Consecutive selections at one priority tier over a fixed list *)

Fixpoint round_robin_run (agents : list HyperAgent) (round_robin_index : nat)
    (m : nat) : list (option HyperAgent) * nat :=
  match m with
  | 0 => ([], round_robin_index)
  | S m' =>
      let '(agent, i) := _select_round_robin_agent agents round_robin_index in
      let '(picked, i') := round_robin_run agents i m' in
      (agent :: picked, i')
  end.

(** How often the executor with identifier [id] was selected. *)
Definition times_picked (id : string) (picked : list (option HyperAgent)) : nat :=
  length (filter (λ p : option HyperAgent, agent_id <$> p = Some id) picked).

(** ** server.py: the broadcast hub *)

(** JSON values as [json.loads] builds them. [JTime t] is the string
    [datetime.isoformat()] of the instant [t]; [fromisoformat] gives the
    instant back. *)
#[warnings="-register-all"] Inductive jvalue :=
  | JNull
  | JBool (b : bool)
  | JNum (n : Z)
  | JStr (s : string)
  | JTime (t : Z)
  | JArr (l : list jvalue)
  | JObj (d : list (string * jvalue)).

Definition message : Type := list (string * jvalue).

(** Lists and dicts are unhashable: using one as a set element or dict key
    raises [TypeError]. *)
Definition hashable (v : jvalue) : bool :=
  match v with
  | JArr _ | JObj _ => false
  | _ => true
  end.

(** [str(v)] inside an f-string, for the scalar values; the handlers below
    format hashable values only. *)
Definition py_str (v : jvalue) : string :=
  match v with
  | JNull => "None"
  | JBool true => "True"
  | JBool false => "False"
  | JNum n => pretty n
  | JStr s => s
  | JTime t => pretty t
  | JArr _ | JObj _ => ""
  end.

Record ConnectionMetadata := {
  connected_at : Z;
  conn_subscriptions : gset string;   (* metadata["subscriptions"] *)
  last_ping : Z;
}.

(** The manager. A connection object is known by its handle. *)
Record WebSocketManager := {
  connections : gmap string nat;
  connection_metadata : gmap string ConnectionMetadata;
  subscriptions : gmap string (gset string);   (* topic -> connection ids *)
}.

(** The connection objects: on which handles [send] raises, which handles
    the server has closed, and the frames handed to the network so far. *)
Record Sockets := {
  failing : gset nat;
  closed : gset nat;
  sent : list (nat * message);
}.

Definition available_topics : list string :=
  [ "agent_updates"; "pool_updates"; "system_logs"; "performance_metrics";
    "task_updates"; "optimization_metrics" ].

(** [_cleanup_connection] *)
Definition _cleanup_connection (self : WebSocketManager) (connection_id : string)
    : WebSocketManager :=
  {| connections := delete connection_id (connections self);
     connection_metadata := delete connection_id (connection_metadata self);
     subscriptions := (λ topic_subs, topic_subs ∖ {[connection_id]}) <$> subscriptions self |}.

Definition send_raises (net : Sockets) (sock : nat) : bool :=
  bool_decide (sock ∈ failing net) || bool_decide (sock ∈ closed net).

(** [_send_to_connection] *)
Definition _send_to_connection (st : WebSocketManager * Sockets)
    (connection_id : string) (msg : message) : WebSocketManager * Sockets :=
  let '(self, net) := st in
  match connections self !! connection_id with
  | None => (self, net)
  | Some sock =>
      if send_raises net sock
      then (_cleanup_connection self connection_id, net)
      else (self, {| failing := failing net; closed := closed net;
                     sent := sent net ++ [(sock, msg)] |})
  end.

Definition error_message (error_text : string) (now : Z) : message :=
  [ ("type", JStr "error"); ("message", JStr error_text); ("timestamp", JTime now) ].

Definition _send_error (st : WebSocketManager * Sockets) (connection_id : string)
    (error_text : string) (now : Z) : WebSocketManager * Sockets :=
  _send_to_connection st connection_id (error_message error_text now).

(** The exceptions the handlers can raise, and [str(e)] for each. *)
Inductive exn :=
  | TypeError_unhashable (v : jvalue)   (* a list or dict used as a key *)
  | KeyError (k : string)               (* a missing dict key *)
  | AttributeError_get (v : jvalue).    (* [.get] on a payload that is not a dict *)

Definition py_type_name (v : jvalue) : string :=
  match v with
  | JNull => "NoneType"
  | JBool _ => "bool"
  | JNum _ => "int"
  | JStr _ | JTime _ => "str"
  | JArr _ => "list"
  | JObj _ => "dict"
  end.

Definition exn_str (e : exn) : string :=
  match e with
  | TypeError_unhashable v => "unhashable type: '" +:+ py_type_name v +:+ "'"
  | KeyError k => "'" +:+ k +:+ "'"
  | AttributeError_get v => "'" +:+ py_type_name v +:+ "' object has no attribute 'get'"
  end.

(** What a handler leaves behind: it returns, or it raises with the state as
    it was at that point. *)
Inductive handled :=
  | Returned (st : WebSocketManager * Sockets)
  | Raised (st : WebSocketManager * Sockets) (e : exn).

Definition confirmation (kind : string) (topic : jvalue) (now : Z) : message :=
  [ ("type", JStr kind); ("topic", topic); ("timestamp", JTime now) ].

(** [data.get("topic")] *)
Definition get_topic (data : message) : jvalue :=
  default JNull (PyDict.get data "topic").

(** [topic in self.available_topics], for a hashable topic. *)
Definition is_available (topic : jvalue) : bool :=
  match topic with
  | JStr s => bool_decide (s ∈ available_topics)
  | _ => false
  end.

(** [_handle_subscribe] *)
Definition _handle_subscribe (st : WebSocketManager * Sockets)
    (connection_id : string) (data : message) (now : Z) : handled :=
  let '(self, net) := st in
  let topic := get_topic data in
  if negb (hashable topic) then Raised st (TypeError_unhashable topic)
  else
    match topic with
    | JStr s =>
        if bool_decide (s ∈ available_topics) then
          let subs := default ∅ (subscriptions self !! s) in
          let self :=
            {| connections := connections self;
               connection_metadata := connection_metadata self;
               subscriptions := <[s := subs ∪ {[connection_id]}]> (subscriptions self) |} in
          match connection_metadata self !! connection_id with
          | None => Raised (self, net) (KeyError connection_id)
          | Some md =>
              let md := {| connected_at := connected_at md;
                           conn_subscriptions := conn_subscriptions md ∪ {[s]};
                           last_ping := last_ping md |} in
              let self :=
                {| connections := connections self;
                   connection_metadata := <[connection_id := md]> (connection_metadata self);
                   subscriptions := subscriptions self |} in
              Returned (_send_to_connection (self, net) connection_id
                          (confirmation "subscription_confirmed" topic now))
          end
        else Returned (_send_error st connection_id ("Invalid topic: " +:+ py_str topic) now)
    | _ => Returned (_send_error st connection_id ("Invalid topic: " +:+ py_str topic) now)
    end.

(** [_handle_unsubscribe] *)
Definition _handle_unsubscribe (st : WebSocketManager * Sockets)
    (connection_id : string) (data : message) (now : Z) : handled :=
  let '(self, net) := st in
  let topic := get_topic data in
  if negb (hashable topic) then Raised st (TypeError_unhashable topic)
  else
    let self :=
      match topic with
      | JStr s =>
          let self :=
            match subscriptions self !! s with
            | Some subs =>
                {| connections := connections self;
                   connection_metadata := connection_metadata self;
                   subscriptions := <[s := subs ∖ {[connection_id]}]> (subscriptions self) |}
            | None => self
            end in
          match connection_metadata self !! connection_id with
          | Some md =>
              let md := {| connected_at := connected_at md;
                           conn_subscriptions := conn_subscriptions md ∖ {[s]};
                           last_ping := last_ping md |} in
              {| connections := connections self;
                 connection_metadata := <[connection_id := md]> (connection_metadata self);
                 subscriptions := subscriptions self |}
          | None => self
          end
      | _ => self   (* no topic and no subscription set holds a non-string *)
      end in
    Returned (_send_to_connection (self, net) connection_id
                (confirmation "unsubscription_confirmed" topic now)).

(** [_handle_ping] *)
Definition _handle_ping (st : WebSocketManager * Sockets)
    (connection_id : string) (data : message) (now : Z) : handled :=
  let '(self, net) := st in
  match connection_metadata self !! connection_id with
  | None => Raised st (KeyError connection_id)
  | Some md =>
      let md := {| connected_at := connected_at md;
                   conn_subscriptions := conn_subscriptions md;
                   last_ping := now |} in
      let self :=
        {| connections := connections self;
           connection_metadata := <[connection_id := md]> (connection_metadata self);
           subscriptions := subscriptions self |} in
      Returned (_send_to_connection (self, net) connection_id
                  [ ("type", JStr "pong"); ("timestamp", JTime now) ])
  end.

(** [_handle_agent_command] *)
Definition _handle_agent_command (st : WebSocketManager * Sockets)
    (connection_id : string) (data : message) (now : Z) : handled :=
  Returned (_send_to_connection st connection_id
              [ ("type", JStr "command_response");
                ("command", default JNull (PyDict.get data "command"));
                ("agent_id", default JNull (PyDict.get data "agent_id"));
                ("status", JStr "received"); ("timestamp", JTime now) ]).

(** [_handle_system_command] *)
Definition _handle_system_command (st : WebSocketManager * Sockets)
    (connection_id : string) (data : message) (now : Z) : handled :=
  Returned (_send_to_connection st connection_id
              [ ("type", JStr "system_response");
                ("command", default JNull (PyDict.get data "command"));
                ("status", JStr "received"); ("timestamp", JTime now) ]).

(** [sum(len(subs) for subs in self.subscriptions.values())] *)
Definition total_subscriptions (self : WebSocketManager) : nat :=
  map_fold (λ _ subs acc, size subs + acc) 0 (subscriptions self).

(** [_handle_get_status] *)
Definition _handle_get_status (st : WebSocketManager * Sockets)
    (connection_id : string) (data : message) (now : Z) : handled :=
  Returned (_send_to_connection st connection_id
              [ ("type", JStr "status_response");
                ("status_type", default (JStr "general") (PyDict.get data "status_type"));
                ("data",
                 JObj [ ("websocket_server",
                         JObj [ ("active_connections", JNum (Z.of_nat (size (connections st.1))));
                                ("total_subscriptions", JNum (Z.of_nat (total_subscriptions st.1)));
                                ("available_topics", JArr (JStr <$> available_topics)) ]) ]);
                ("timestamp", JTime now) ]).

(** [self.message_handlers] *)
Definition message_handlers (message_type : jvalue)
    : option (WebSocketManager * Sockets → string → message → Z → handled) :=
  match message_type with
  | JStr "subscribe" => Some _handle_subscribe
  | JStr "unsubscribe" => Some _handle_unsubscribe
  | JStr "ping" => Some _handle_ping
  | JStr "agent_command" => Some _handle_agent_command
  | JStr "system_command" => Some _handle_system_command
  | JStr "get_status" => Some _handle_get_status
  | _ => None
  end.

(** [_process_message], on what [json.loads] made of the text: [None] when
    it raised [JSONDecodeError]. *)
Definition _process_message (st : WebSocketManager * Sockets)
    (connection_id : string) (payload : option jvalue) (now : Z)
    : WebSocketManager * Sockets :=
  match payload with
  | None => _send_error st connection_id "Invalid JSON message" now
  | Some (JObj data) =>
      let message_type := default JNull (PyDict.get data "type") in
      if negb (hashable message_type) then
        _send_error st connection_id
          ("Message processing error: " +:+ exn_str (TypeError_unhashable message_type)) now
      else
        match message_handlers message_type with
        | Some handler =>
            match handler st connection_id data now with
            | Returned st' => st'
            | Raised st' e =>
                _send_error st' connection_id
                  ("Message processing error: " +:+ exn_str e) now
            end
        | None =>
            _send_error st connection_id
              ("Unknown message type: " +:+ py_str message_type) now
        end
  | Some v =>
      _send_error st connection_id
        ("Message processing error: " +:+ exn_str (AttributeError_get v)) now
  end.

(** [message["topic"] = topic; message["timestamp"] = ...] *)
Definition tag_message (msg : message) (topic : string) (now : Z) : message :=
  PyDict.set (PyDict.set msg "topic" (JStr topic)) "timestamp" (JTime now).

(** [broadcast_to_topic]: the loop runs over a copy of the subscriber set.
    The two tags are written into the caller's dict, so the result also
    gives the message as the call leaves it. *)
Definition broadcast_to_topic (st : WebSocketManager * Sockets)
    (topic : string) (msg : message) (now : Z)
    : (WebSocketManager * Sockets) * message :=
  match subscriptions st.1 !! topic with
  | None => (st, msg)
  | Some subs =>
      let msg := tag_message msg topic now in
      (foldl (λ st connection_id, _send_to_connection st connection_id msg)
             st (elements subs),
       msg)
  end.

(** [(current_time - last_ping).total_seconds() > heartbeat * 3], with the
    instants in microseconds and the heartbeat in seconds. *)
Definition is_stale (heartbeat now : Z) (md : ConnectionMetadata) : bool :=
  (heartbeat * 3 * 1000000 <? now - last_ping md)%Z.

Definition stale_connections (heartbeat now : Z) (self : WebSocketManager)
    : list string :=
  (filter (λ kv, is_stale heartbeat now kv.2 = true)
          (map_to_list (connection_metadata self))).*1.

(** One iteration of the loop of [_cleanup_connections]. *)
Definition cleanup_sweep (heartbeat now : Z) (st : WebSocketManager * Sockets)
    : WebSocketManager * Sockets :=
  (foldl _cleanup_connection st.1 (stale_connections heartbeat now st.1), st.2).

(** [websocket.close()] *)
Definition close_socket (net : Sockets) (sock : nat) : Sockets :=
  {| failing := failing net; closed := closed net ∪ {[sock]}; sent := sent net |}.

(** The loop of [shutdown] over [list(self.connections.keys())]: each
    connection is closed and then cleaned up. *)
Definition shutdown (st : WebSocketManager * Sockets) : WebSocketManager * Sockets :=
  foldl (λ st kv, (_cleanup_connection st.1 kv.1, close_socket st.2 kv.2))
        st (map_to_list (connections st.1)).


(** ** server.py: the life of a connection, broadcasts to all, statistics *)





(** [broadcast_to_all]: the timestamp is written into the caller's dict; the
    loop runs over a copy of the keys. The connection map is a finite map
    here, so the order in which the connections are served is the order of
    [map_to_list], not the order of registration. *)
Definition broadcast_to_all (st : WebSocketManager * Sockets) (msg : message) (now : Z)
    : (WebSocketManager * Sockets) * message :=
  let msg := PyDict.set msg "timestamp" (JTime now) in
  (foldl (λ st connection_id, _send_to_connection st connection_id msg)
         st (map_to_list (connections st.1)).*1,
   msg).

(** [get_connection_stats], without the constant list of topics. *)
Record ConnectionStats := {
  active_connections : nat;
  stats_total_subscriptions : nat;
  subscriptions_by_topic : gmap string nat;
}.

Definition get_connection_stats (self : WebSocketManager) : ConnectionStats :=
  {| active_connections := size (connections self);
     stats_total_subscriptions := total_subscriptions self;
     subscriptions_by_topic := size <$> subscriptions self |}.

(** ** hyperagent.py: evolution, task processing and learning

    The scheduler reads seven attributes of an executor; [AgentState] adds
    the attributes that only the executor itself reads and writes. The
    random draws of [_evolve] and the clock are inputs. Texts built for
    display only (the f-strings of the results) are not modelled; the
    numbers they print are. *)

(** [max(a, b)] and [min(a, b)] on two numbers: the first argument, unless
    the second is strictly greater (smaller). *)
Definition py_max (a b : Q) : Q := if Qlt_le_dec a b then b else a.
Definition py_min (a b : Q) : Q := if Qlt_le_dec b a then b else a.

(** [max(0.1, min(10.0, level))] *)
Definition clamp_level (x : Q) : Q := py_max (1 # 10) (py_min 10 x).

(** [int(x)]: truncation towards zero. *)
Definition py_int (x : Q) : Z := Z.quot (Qnum x) (Z.pos (Qden x)).

(** [l[-n:]], for a positive [n] *)
Definition keep_last {A} (n : nat) (l : list A) : list A := drop (length l - n) l.

(** The keys of a task that an executor reads: ["type"] and ["complexity"],
    each possibly missing, and the length of ["data"] (0 when missing). *)
Record TaskData := {
  td_type : option string;
  td_complexity : option Q;
  td_data : nat;
}.

(** [task_data.get("type", "general")] *)
Definition td_task_type (td : TaskData) : string := default "general" (td_type td).

Inductive TaskResult :=
  | DataAnalysisResult (points : nat) (insights : Z) (confidence : Q)
  | PatternResult (patterns_found : Z) (accuracy processing_time : Q)
  | OptimizationResult (optimization_improvement : Q) (iterations : Z) (final_score : Q)
  | GeneralResult (quality : Q)
  | ErrorResult.    (* {"error": str(e), "success": False} *)

(** [result.get("success", ...)]: every result has the key. *)
Definition result_success (r : TaskResult) : bool :=
  match r with ErrorResult => false | _ => true end.

(** [result.get("quality", 0.5)]: only the general result has the key. *)
Definition result_quality (r : TaskResult) : Q :=
  match r with GeneralResult q => q | _ => 5 # 10 end.

Record MemoryEntry := {
  m_timestamp : Z;
  m_task_type : option string;
  m_complexity : Q;
  m_success : bool;
  m_quality : Q;
}.

Record AgentMemory := {
  short_term : list MemoryEntry;
  long_term : list MemoryEntry;
}.

Record Adaptation := {
  ad_timestamp : Z;
  ad_evolution_factor : Q;
  ad_capabilities : list (string * Q);
  ad_learning_rate : Q;
}.

Record AgentState := {
  st_agent : HyperAgent;
  evolution_factor : Q;
  memory : AgentMemory;
  adaptation_history : list Adaptation;
}.


Definition with_capabilities (a : HyperAgent) (caps : list AgentCapability) : HyperAgent :=
  {| agent_id := agent_id a; agent_name := agent_name a; status := status a;
     capabilities := caps; tasks_completed := tasks_completed a;
     success_rate := success_rate a; learning_rate := learning_rate a |}.


Definition with_record (a : HyperAgent) (n : Z) (rate : Q) : HyperAgent :=
  {| agent_id := agent_id a; agent_name := agent_name a; status := status a;
     capabilities := capabilities a; tasks_completed := n;
     success_rate := rate; learning_rate := learning_rate a |}.

Definition with_level (cap : AgentCapability) (x : Q) : AgentCapability :=
  {| name := name cap; level := x |}.






(** [_generate_task_result]; [None] is the [ZeroDivisionError] of
    [1.0 / quality] and [10 / quality]. *)
Definition task_quality (self : HyperAgent) (task_type : string) : Q :=
  py_min 1 (avg_capability self task_type).

Definition _generate_task_result (self : HyperAgent) (td : TaskData)
    : option TaskResult :=
  let task_type := td_task_type td in
  let quality := task_quality self task_type in
  if decide (task_type = "data_analysis") then
    Some (DataAnalysisResult (td_data td) (py_int (quality * 10)) quality)
  else if decide (task_type = "pattern_recognition") then
    if Qeq_dec quality 0 then None
    else Some (PatternResult (py_int (quality * 5)) quality (1 / quality))
  else if decide (task_type = "optimization") then
    if Qeq_dec quality 0 then None
    else Some (OptimizationResult (quality * 100) (py_int (10 / quality)) quality)
  else Some (GeneralResult quality).

(** [m["quality"] > 0.8 or not m["success"]] *)
Definition significant (m : MemoryEntry) : bool :=
  (if Qlt_le_dec (8 # 10) (m_quality m) then true else false) || negb (m_success m).

(** The update of one relevant capability in [_learn_from_task]. *)
Definition learn_level (lr : Q) (success : bool) (cap : AgentCapability)
    : AgentCapability :=
  let x := if success then (level cap * (1 + lr * (1 # 10)))%Q
           else (level cap * (1 - lr * (5 # 100)))%Q in
  with_level cap (clamp_level x).

(** [_learn_from_task]. The capabilities returned by
    [_get_relevant_capabilities] are the objects of [self.capabilities], so
    the loop updates those in place. *)
Definition _learn_from_task (self : AgentState) (td : TaskData) (result : TaskResult)
    (now : Z) : AgentState :=
  let memory_entry :=
    {| m_timestamp := now; m_task_type := td_type td;
       m_complexity := default 1%Q (td_complexity td);
       m_success := result_success result;
       m_quality := result_quality result |} in
  let short := short_term (memory self) ++ [memory_entry] in
  let mem :=
    if bool_decide (50 < length short) then
      {| short_term := keep_last 25 short;
         long_term := long_term (memory self) ++ filter (λ m, significant m = true) short |}
    else {| short_term := short; long_term := long_term (memory self) |} in
  let a := st_agent self in
  let caps :=
    (λ cap, if decide (name cap ∈ relevant_names (td_task_type td))
            then learn_level (learning_rate a) (result_success result) cap
            else cap) <$> capabilities a in
  {| st_agent := with_capabilities a caps;
     evolution_factor := evolution_factor self;
     memory := mem;
     adaptation_history := adaptation_history self |}.

(** [process_task] up to its suspension at [asyncio.sleep]: the processing
    time, or [None] for the [ZeroDivisionError] of
    [complexity / processing_power]. *)
Definition process_task_start (self : AgentState) (td : TaskData) : option Q :=
  let processing_power := sum_levels (capabilities (st_agent self)) in
  let complexity := default 1%Q (td_complexity td) in
  if Qeq_dec processing_power 0 then None
  else Some (py_max (1 # 10) (complexity / processing_power)).

(** [process_task] after the sleep. The division by [tasks_completed]
    comes after the increment, so an exception there leaves the counter
    incremented. *)
Definition process_task_finish (self : AgentState) (td : TaskData) (now : Z)
    : TaskResult * AgentState :=
  match _generate_task_result (st_agent self) td with
  | None => (ErrorResult, self)
  | Some result =>
      let a := st_agent self in
      let n := (tasks_completed a + 1)%Z in
      if decide (n = 0%Z) then
        (ErrorResult,
         {| st_agent := with_record a n (success_rate a);
            evolution_factor := evolution_factor self; memory := memory self;
            adaptation_history := adaptation_history self |})
      else
        let rate :=
          ((success_rate a * inject_Z (n - 1)
            + (if result_success result then 1 else 0)) / inject_Z n)%Q in
        let self :=
          {| st_agent := with_record a n rate;
             evolution_factor := evolution_factor self; memory := memory self;
             adaptation_history := adaptation_history self |} in
        (result, _learn_from_task self td result now)
  end.

(** [process_task] when nothing else runs during its sleep. *)
Definition process_task (self : AgentState) (td : TaskData) (now : Z)
    : TaskResult * AgentState :=
  match process_task_start self td with
  | None => (ErrorResult, self)
  | Some _ => process_task_finish self td now
  end.





(** ** pool.py: monitoring, pool updates and shutdown *)

(** A snapshot of [_monitor_performance]: the time, the metrics and a copy
    of the workload map. *)
Record Snapshot := {
  snap_timestamp : Z;
  snap_metrics : PoolMetrics;
  snap_workloads : gmap string Z;
}.

(** One iteration of [_monitor_performance], up to the broadcast: the pool
    with refreshed metrics, the history and the snapshot taken. *)
Definition monitor_cycle (self : AgentPool) (performance_history : list Snapshot)
    (now : Z) : AgentPool * list Snapshot * Snapshot :=
  let self := _update_metrics self in
  let snapshot :=
    {| snap_timestamp := now; snap_metrics := metrics self;
       snap_workloads := agent_workloads self |} in
  let history := performance_history ++ [snapshot] in
  (self,
   if bool_decide (1000 < length history) then keep_last 500 history else history,
   snapshot).

(** The message of [_broadcast_pool_update]. *)
Definition pool_update_message (self : AgentPool) (update_type : string)
    (data : jvalue) (now : Z) : message :=
  [ ("type", JStr "pool_update"); ("update_type", JStr update_type);
    ("data", data); ("timestamp", JTime now);
    ("pool_metrics",
     JObj [ ("total_agents", JNum (Z.of_nat (total_agents (metrics self))));
            ("active_agents", JNum (Z.of_nat (active_agents (metrics self))));
            ("tasks_in_queue", JNum (Z.of_nat (tasks_in_queue (metrics self))));
            ("tasks_completed",
             JNum (Z.of_nat (metrics_tasks_completed (metrics self)))) ]) ].

(** One pass of the loop of [_broadcast_pool_update]: a socket whose
    [send] raises is discarded from [websocket_connections]. *)
Definition pool_send (msg : message) (st : gset nat * Sockets) (sock : nat)
    : gset nat * Sockets :=
  if send_raises st.2 sock then (st.1 ∖ {[sock]}, st.2)
  else (st.1, {| failing := failing st.2; closed := closed st.2;
                 sent := sent st.2 ++ [(sock, msg)] |}).

(** [_broadcast_pool_update] on the pool's set of sockets; the loop runs
    over a copy of the set. *)
Definition _broadcast_pool_update (self : AgentPool) (st : gset nat * Sockets)
    (update_type : string) (data : jvalue) (now : Z) : gset nat * Sockets :=
  if decide (st.1 = ∅) then st
  else foldl (pool_send (pool_update_message self update_type data now)) st
             (elements st.1).

(** [add_websocket_connection], [remove_websocket_connection] *)
Definition add_websocket_connection (ws : gset nat) (sock : nat) : gset nat :=
  ws ∪ {[sock]}.

Definition remove_websocket_connection (ws : gset nat) (sock : nat) : gset nat :=
  ws ∖ {[sock]}.

(** [HyperAgent.shutdown], for an executor without sockets of its own: the
    status ends at ["inactive"]. *)
Definition agent_shutdown (a : HyperAgent) : HyperAgent :=
  {| agent_id := agent_id a; agent_name := agent_name a; status := inactive;
     capabilities := capabilities a; tasks_completed := tasks_completed a;
     success_rate := success_rate a; learning_rate := learning_rate a |}.

(** [AgentPool.shutdown]: the flag, the executors, the sockets. *)
Definition pool_shutdown (self : AgentPool) (st : gset nat * Sockets)
    : AgentPool * (gset nat * Sockets) :=
  ({| agents := prod_map id agent_shutdown <$> agents self;
      task_queue := task_queue self; metrics := metrics self;
      is_running := false; agent_workloads := agent_workloads self;
      round_robin_index := round_robin_index self;
      optimization_cycles := optimization_cycles self |},
   (∅, foldl close_socket st.2 (elements st.1))).

(** * Specification vocabulary *)

(** ** Selection *)

(** What the loop of [_select_best_agent] knows after the prefix [pre]. *)
Definition best_so_far (tt : string) (pre : list HyperAgent)
    (best_agent : option HyperAgent) (best_score : Q) : Prop :=
  match best_agent with
  | None => best_score = 0%Q ∧ ∀ b, b ∈ pre → (score b tt <= 0)%Q
  | Some a =>
      ∃ i, pre !! i = Some a ∧ best_score = score a tt ∧ (0 < best_score)%Q
           ∧ (∀ b, b ∈ pre → (score b tt <= best_score)%Q)
           ∧ (∀ j b, j < i → pre !! j = Some b → (score b tt < best_score)%Q)
  end.

(** The executors the least-loaded tier chooses among: those whose mean
    relevant capability level is at least 0.7, or all of them when there is
    none. *)
Definition candidates (agents : list HyperAgent) (tt : string) : list HyperAgent :=
  match filter (λ a, is_capable a tt = true) agents with
  | [] => agents
  | capable => capable
  end.

(** The number of cursor values among [c, c+1, ..., c+m-1] that select
    position [idx] of a list of length [n]. *)
Definition hits (n idx c m : nat) : nat :=
  length (filter (λ i, i mod n = idx) (seq c m)).

(** ** Invariants of the pool *)

(** The agent map has one entry per key, and its keys are the keys of the
    workload map. *)
Definition pool_consistent (self : AgentPool) : Prop :=
  NoDup (PyDict.keys (agents self))
  ∧ (list_to_set (PyDict.keys (agents self)) : gset string) = dom (agent_workloads self).

(** Every pool member's counter is the number of tasks inside
    [process_task] on that member. *)
Definition workloads_match (self : AgentPool) (proc : gmultiset string) : Prop :=
  ∀ id, id ∈ PyDict.keys (agents self) →
    agent_workloads self !! id = Some (Z.of_nat (multiplicity id proc)).

(** Both invariants, for the tasks [proc] inside [process_task]. *)
Definition pool_ok (self : AgentPool) (proc : gmultiset string) : Prop :=
  pool_consistent self ∧ workloads_match self proc.

(** Two pools with the same keys in the agent map and the same workload
    map. *)
Definition same_registry (p q : AgentPool) : Prop :=
  PyDict.keys (agents p) = PyDict.keys (agents q)
  ∧ agent_workloads p = agent_workloads q.

(** Sequences of the two registry operations. *)
Inductive pool_op :=
  | OpCreate (nm id : string)
  | OpRemove (id : string).

Definition apply_op (max_agents : Z) (self : AgentPool) (op : pool_op) : AgentPool :=
  match op with
  | OpCreate nm id =>
      match create_agent max_agents self nm id with
      | Created self' => self'
      | LimitReached | NameExists => self
      end
  | OpRemove id => pool_after_remove self id
  end.

(** ** The registries of the hub *)

(** Whether [send] raises on the socket registered for connection [c]. *)
Definition send_fails (st : WebSocketManager * Sockets) (c : string) : bool :=
  match connections st.1 !! c with
  | Some sock => send_raises st.2 sock
  | None => false
  end.

(** The frame a fan-out of [msg] hands to the network for connection [c]:
    none when [c] is not registered or its socket raises. *)
Definition delivery (st : WebSocketManager * Sockets) (msg : message) (c : string)
    : option (nat * message) :=
  match connections st.1 !! c with
  | Some sock => if send_raises st.2 sock then None else Some (sock, msg)
  | None => None
  end.

(** Connection [c] is in no registry of the manager. *)
Definition unregistered (self : WebSocketManager) (c : string) : Prop :=
  connections self !! c = None
  ∧ connection_metadata self !! c = None
  ∧ ∀ topic subs, subscriptions self !! topic = Some subs → c ∉ subs.

(** The registries hold for [c] what they held in [self]. *)
Definition untouched (self self' : WebSocketManager) (c : string) : Prop :=
  connections self' !! c = connections self !! c
  ∧ connection_metadata self' !! c = connection_metadata self !! c
  ∧ ∀ topic, (∃ subs, subscriptions self' !! topic = Some subs ∧ c ∈ subs)
             ↔ (∃ subs, subscriptions self !! topic = Some subs ∧ c ∈ subs).

(** ** Example states *)

(** A new executor; one with a poor record; one that is shut down. *)
Definition strong_agent : HyperAgent := new_agent "a-1" "Alpha".

Definition weak_agent : HyperAgent :=
  {| agent_id := "a-2"; agent_name := "Beta"; status := active;
     capabilities := _initialize_capabilities;
     tasks_completed := 15; success_rate := 2 # 10; learning_rate := 1 # 100 |}.

Definition idle_agent : HyperAgent :=
  {| agent_id := "a-3"; agent_name := "Gamma"; status := inactive;
     capabilities := _initialize_capabilities;
     tasks_completed := 0; success_rate := 1; learning_rate := 1 # 100 |}.

Definition low_priority : Task := {| task_type := "general"; priority := 1 |}.

(** A running pool holding the executors [l], no task in progress, and
    [queued] tasks waiting. *)
Definition pool_of (l : list HyperAgent) (queued : nat) : AgentPool :=
  {| agents := (λ a, (agent_id a, a)) <$> l;
     task_queue := replicate queued low_priority;
     metrics := {| total_agents := length l;
                   active_agents := length (filter (λ a, status a = active) l);
                   tasks_in_queue := queued; metrics_tasks_completed := 0 |};
     is_running := true;
     agent_workloads := list_to_map ((λ a, (agent_id a, 0%Z)) <$> l);
     round_robin_index := 0; optimization_cycles := 0 |}.

(** Three executors created through the API. *)
Definition three_created : AgentPool :=
  foldl (apply_op 100) new_pool
    [OpCreate "Alpha" "a-1"; OpCreate "Beta" "a-2"; OpCreate "Gamma" "a-3"].


(** A manager with two connections subscribed to "pool_updates": "c-1" sent
    its last heartbeat at instant 0, "c-2" at 60 s. *)
Definition one_quiet_connection : WebSocketManager * Sockets :=
  ({| connections := {[ "c-1" := 1; "c-2" := 2 ]};
      connection_metadata :=
        {[ "c-1" := {| connected_at := 0; conn_subscriptions := {[ "pool_updates" ]};
                       last_ping := 0 |};
           "c-2" := {| connected_at := 0; conn_subscriptions := {[ "pool_updates" ]};
                       last_ping := 60000000 |} ]};
      subscriptions := {[ "pool_updates" := {[ "c-1"; "c-2" ]} ]} |},
   {| failing := ∅; closed := ∅; sent := [] |}).

(** The same manager when the socket of "c-1" has broken. *)
Definition one_broken_connection : WebSocketManager * Sockets :=
  (one_quiet_connection.1, {| failing := {[ 1 ]}; closed := ∅; sent := [] |}).

(** An inbound unsubscribe request. *)
Definition unsubscribe_request (topic : jvalue) : message :=
  [ ("type", JStr "unsubscribe"); ("topic", topic) ].


(** ** Further vocabulary for the pool *)

(** Every entry of the agent map is filed under the identifier of its
    executor. *)
Definition ids_match (self : AgentPool) : Prop :=
  Forall (λ kv, agent_id kv.2 = kv.1) (agents self).

(** The display names of the pool members, in map order. *)
Definition member_names (self : AgentPool) : list string :=
  agent_name <$> PyDict.values (agents self).


(** The members are filed under their identifiers and carry pairwise
    distinct names. *)
Definition pool_wf (self : AgentPool) : Prop :=
  ids_match self ∧ NoDup (member_names self).

(** Counting the tasks submitted in a run and the tasks handed to
    executors. *)
Definition is_submit (ev : event) : bool :=
  match ev with EvSubmit _ => true | _ => false end.

Definition is_dispatch (o : observation) : bool :=
  match o with ObsDispatch _ => true | _ => false end.

Definition submits (evs : list event) : nat :=
  length (filter (λ ev, is_submit ev = true) evs).

Definition total_dispatches (out : list observation) : nat :=
  length (filter (λ o, is_dispatch o = true) out).

(** A run with one task too many for an empty pool, then an executor. *)
Definition late_executor : list event :=
  [ EvSubmit low_priority; EvDispatch; EvCreate "Alpha" "a-1"; EvDispatch;
    EvSubmit low_priority; EvComplete "a-1"; EvDispatch ].


(** The part of the removal test of [_remove_underperforming_agents] that
    is about the executor itself. *)
Definition poor (a : HyperAgent) : Prop :=
  (success_rate a < 3 # 10)%Q ∧ (10 < tasks_completed a)%Z.

(** Four executors, two of which have failed most of more than ten tasks. *)
Definition two_poor_of_four : AgentPool :=
  pool_of [strong_agent; weak_agent;
           {| agent_id := "a-4"; agent_name := "Delta"; status := active;
              capabilities := _initialize_capabilities; tasks_completed := 20;
              success_rate := 1 # 10; learning_rate := 1 # 100 |};
           idle_agent] 0.






(** The entry [_learn_from_task] writes for a task and its result. *)
Definition entry_of (td : TaskData) (result : TaskResult) (now : Z) : MemoryEntry :=
  {| m_timestamp := now; m_task_type := td_type td;
     m_complexity := default 1%Q (td_complexity td);
     m_success := result_success result; m_quality := result_quality result |}.



(** A general task with nothing but its type, and an optimization task. *)
Definition general_task : TaskData :=
  {| td_type := None; td_complexity := None; td_data := 0 |}.

Definition optimization_task : TaskData :=
  {| td_type := Some "optimization"; td_complexity := Some 2%Q; td_data := 0 |}.

(** An executor whose short-term memory holds fifty entries. *)
Definition full_memory : AgentState :=
  {| st_agent := new_agent "a-1" "Alpha"; evolution_factor := 1;
     memory := {| short_term := replicate 50 (entry_of general_task (GeneralResult 1) 0);
                  long_term := [] |};
     adaptation_history := [] |}.

(** An executor stripped of its capabilities. *)
Definition no_capabilities : AgentState :=
  {| st_agent := with_capabilities (new_agent "a-1" "Alpha") [];
     evolution_factor := 1;
     memory := {| short_term := []; long_term := [] |};
     adaptation_history := [] |}.







(** Inbound requests. *)
Definition subscribe_request (topic : jvalue) : message :=
  [ ("type", JStr "subscribe"); ("topic", topic) ].

Definition ping_request : message := [ ("type", JStr "ping") ].


(** The metadata of a connection with the topic added to, or taken from,
    its subscriptions. *)
Definition md_subscribe (md : ConnectionMetadata) (s : string) : ConnectionMetadata :=
  {| connected_at := connected_at md; conn_subscriptions := conn_subscriptions md ∪ {[s]};
     last_ping := last_ping md |}.

Definition md_unsubscribe (md : ConnectionMetadata) (s : string) : ConnectionMetadata :=
  {| connected_at := connected_at md; conn_subscriptions := conn_subscriptions md ∖ {[s]};
     last_ping := last_ping md |}.

(** The subscribers of a topic; none when the topic has no subscriber set. *)
Definition subscribers (self : WebSocketManager) (topic : string) : gset string :=
  default ∅ (subscriptions self !! topic).

(** An inbound object of the given type that names the topic [s]. *)
Definition names_topic (data : message) (type s : string) : Prop :=
  PyDict.get data "type" = Some (JStr type) ∧ PyDict.get data "topic" = Some (JStr s).



(** The connection has metadata whose last ping is older than three
    heartbeats at the instant [now]. *)
Definition stale_at (heartbeat now : Z) (self : WebSocketManager) (c : string) : Prop :=
  ∃ md, connection_metadata self !! c = Some md ∧ is_stale heartbeat now md = true.

Definition md_ping (md : ConnectionMetadata) (now : Z) : ConnectionMetadata :=
  {| connected_at := connected_at md; conn_subscriptions := conn_subscriptions md;
     last_ping := now |}.





(** A pool whose history holds a thousand snapshots. *)
Definition full_history : list Snapshot :=
  replicate 1000 {| snap_timestamp := 0; snap_metrics := metrics new_pool;
                    snap_workloads := ∅ |}.

(** * Properties *)

(** ** The definitions on concrete inputs *)

Example relevant_names_known :
  relevant_names "communication" = ["communication"; "memory_optimization"].
Proof. reflexivity. Qed.

Example relevant_names_default : relevant_names "general" = ["task_execution"].
Proof. reflexivity. Qed.

Example score_of_weak_agent : (score weak_agent "data_analysis" == 6 # 10)%Q.
Proof. by vm_compute. Qed.

Example best_of_two :
  _select_best_agent [weak_agent; strong_agent] "data_analysis" = Some strong_agent.
Proof. by vm_compute. Qed.

Example best_on_tie_is_first :
  _select_best_agent [strong_agent; idle_agent] "learning" = Some strong_agent.
Proof. by vm_compute. Qed.

Example best_of_none : _select_best_agent [] "learning" = None.
Proof. reflexivity. Qed.

Example sort_is_stable :
  sort_by_key snd [("a", 2%Z); ("b", 1%Z); ("c", 1%Z); ("d", 0%Z)]
    = [("d", 0%Z); ("b", 1%Z); ("c", 1%Z); ("a", 2%Z)].
Proof. reflexivity. Qed.

Example least_loaded_of_two :
  _select_least_loaded_capable_agent {[ "a-1" := 2%Z; "a-2" := 1%Z ]}
    [strong_agent; weak_agent] "general" = Some weak_agent.
Proof. by vm_compute. Qed.

Example round_robin_wraps :
  _select_round_robin_agent [weak_agent; strong_agent] 5 = (Some strong_agent, 6).
Proof. reflexivity. Qed.

Example auto_agent_name_7 : auto_agent_name 7 = "auto_agent_7".
Proof. reflexivity. Qed.

Example create_agent_at_limit :
  create_agent 3 three_created "Delta" "a-4" = LimitReached.
Proof. by vm_compute. Qed.

Example create_agent_same_name :
  create_agent 100 three_created "Beta" "a-4" = NameExists.
Proof. by vm_compute. Qed.

Example remove_agent_unknown : remove_agent three_created "a-9" = NotFound.
Proof. by vm_compute. Qed.

Example subscribe_unknown_topic :
  _handle_subscribe one_quiet_connection "c-2" [("topic", JStr "weather")] 3
    = Returned (one_quiet_connection.1,
                {| failing := ∅; closed := ∅;
                   sent := [(2, error_message "Invalid topic: weather" 3)] |}).
Proof. by vm_compute. Qed.


(** ** Scores and the best-score tier *)



Lemma best_loop_invariant (tt : string) (l pre : list HyperAgent)
    (best_agent : option HyperAgent) (best_score : Q) :
  best_so_far tt pre best_agent best_score →
  ∃ best_score',
    best_so_far tt (pre ++ l) (best_loop l tt best_agent best_score) best_score'.
Proof.
  revert pre best_agent best_score.
  induction l as [|x l IH]; intros pre ba bs Hinv; simpl.
  - rewrite app_nil_r. eauto.
  - rewrite cons_middle, app_assoc.
    destruct (Qlt_le_dec bs (score x tt)) as [Hlt|Hle]; apply IH.
    + (* the new executor is strictly better *)
      exists (length pre). split; [|split; [done|split]].
      { rewrite lookup_app_r by lia. by rewrite Nat.sub_diag. }
      { destruct ba as [a|]; [destruct Hinv as (i & _ & _ & Hpos & _)|destruct Hinv as [-> _]]; lra. }
      split.
      * intros b [Hb|Hb]%elem_of_app.
        -- destruct ba as [a|].
           ++ destruct Hinv as (i & _ & _ & _ & Hmax & _). specialize (Hmax b Hb). lra.
           ++ destruct Hinv as [-> Hmax]. specialize (Hmax b Hb). lra.
        -- apply list_elem_of_singleton in Hb as ->. lra.
      * intros j b Hj Hb. rewrite lookup_app_l in Hb by done.
        assert (b ∈ pre) as Hin by (by eapply list_elem_of_lookup_2).
        destruct ba as [a|].
        -- destruct Hinv as (i & _ & _ & _ & Hmax & _). specialize (Hmax b Hin). lra.
        -- destruct Hinv as [-> Hmax]. specialize (Hmax b Hin). lra.
    + (* the best so far stays *)
      destruct ba as [a|].
      * destruct Hinv as (i & Hi & Hbs & Hpos & Hmax & Hfirst).
        exists i. split; [|split; [done|split; [done|split]]].
        { rewrite lookup_app_l; [done|]. by eapply lookup_lt_Some. }
        { intros b [Hb|Hb]%elem_of_app; [by apply Hmax|].
          by apply list_elem_of_singleton in Hb as ->. }
        { intros j b Hj Hb. apply (Hfirst j b Hj).
          rewrite lookup_app_l in Hb; [done|].
          apply lookup_lt_Some in Hi. lia. }
      * destruct Hinv as [-> Hmax]. split; [done|].
        intros b [Hb|Hb]%elem_of_app; [by apply Hmax|].
        by apply list_elem_of_singleton in Hb as ->.
Qed.




(** ** The stable sort and the least-loaded tier *)

Section stable_sort_facts.
Context {A : Type} (key : A → Z).

Lemma head_insert_sorted (x : A) (l : list A) :
  head (insert_sorted key x l) =
    match head l with
    | None => Some x
    | Some y => if (key x <=? key y)%Z then Some x else Some y
    end.
Proof. destruct l as [|y l]; simpl; [done|]. by destruct (key x <=? key y)%Z. Qed.

Lemma insert_sorted_perm (x : A) (l : list A) : insert_sorted key x l ≡ₚ x :: l.
Proof.
  induction l as [|y l IH]; simpl; [done|].
  destruct (key x <=? key y)%Z; [done|]. rewrite IH. apply Permutation_swap.
Qed.

Lemma sort_by_key_perm (l : list A) : sort_by_key key l ≡ₚ l.
Proof.
  induction l as [|x l IH]; simpl; [done|].
  by rewrite insert_sorted_perm, IH.
Qed.

(** The head of the sorted list is the first element of least key. *)
Lemma sort_by_key_head (l : list A) :
  l ≠ [] →
  ∃ i a, head (sort_by_key key l) = Some a
    ∧ l !! i = Some a
    ∧ (∀ b, b ∈ l → (key a <= key b)%Z)
    ∧ (∀ j b, j < i → l !! j = Some b → (key a < key b)%Z).
Proof.
  induction l as [|x l IH]; [done|]. intros _. simpl.
  rewrite head_insert_sorted.
  destruct l as [|y l].
  - exists 0, x. simpl. split; [done|split; [done|split]].
    + intros b ->%list_elem_of_singleton. lia.
    + intros; lia.
  - destruct IH as (i & a & -> & Hi & Hmin & Hfirst); [done|].
    destruct (key x <=? key a)%Z eqn:Hcmp.
    + apply Z.leb_le in Hcmp. exists 0, x. split; [done|split; [done|split]].
      * intros b [->|Hb]%elem_of_cons; [lia|]. specialize (Hmin b Hb). lia.
      * intros; lia.
    + apply Z.leb_gt in Hcmp. exists (S i), a. split; [done|split; [done|split]].
      * intros b [->|Hb]%elem_of_cons; [lia|]. by apply Hmin.
      * intros [|j] b Hj Hb; simpl in Hb.
        -- injection Hb as <-. lia.
        -- apply (Hfirst j b); [lia|done].
Qed.
End stable_sort_facts.

Lemma capable_loop_filter (wl : gmap string Z) (agents : list HyperAgent) (tt : string) :
  capable_loop wl agents tt =
    (λ agent, (agent, workload_of wl agent)) <$> filter (λ a, is_capable a tt = true) agents.
Proof.
  induction agents as [|a agents IH]; simpl; [done|].
  rewrite filter_cons. destruct (is_capable a tt) eqn:Hc.
  - rewrite decide_True by done. simpl. by rewrite IH.
  - rewrite decide_False by done. done.
Qed.

Lemma least_loaded_candidates (wl : gmap string Z) (agents : list HyperAgent) (tt : string) :
  _select_least_loaded_capable_agent wl agents tt =
    fst <$> head (sort_by_key snd
                    ((λ agent, (agent, workload_of wl agent)) <$> candidates agents tt)).
Proof.
  unfold _select_least_loaded_capable_agent, candidates.
  rewrite capable_loop_filter.
  by destruct (filter (λ a, is_capable a tt = true) agents).
Qed.

Lemma select_least_loaded_first_min (wl : gmap string Z) (agents : list HyperAgent)
    (tt : string) :
  agents ≠ [] →
  ∃ i a, _select_least_loaded_capable_agent wl agents tt = Some a
    ∧ candidates agents tt !! i = Some a
    ∧ (∀ b, b ∈ candidates agents tt → (workload_of wl a <= workload_of wl b)%Z)
    ∧ (∀ j b, j < i → candidates agents tt !! j = Some b →
         (workload_of wl a < workload_of wl b)%Z).
Proof.
  intros Hne. rewrite least_loaded_candidates.
  assert (candidates agents tt ≠ []) as Hc.
  { unfold candidates. by destruct (filter _ agents). }
  set (pair_up := λ agent : HyperAgent, (agent, workload_of wl agent)).
  destruct (sort_by_key_head snd (pair_up <$> candidates agents tt))
    as (i & [a w] & Hhead & Hi & Hmin & Hfirst).
  { by destruct (candidates agents tt). }
  rewrite list_lookup_fmap in Hi.
  destruct (candidates agents tt !! i) as [a'|] eqn:Hi'; [|done].
  injection Hi as -> <-.
  exists i, a. rewrite Hhead. split; [done|split; [done|split]].
  - intros b Hb. apply (Hmin (pair_up b)). apply list_elem_of_fmap. eauto.
  - intros j b Hj Hb. apply (Hfirst j (pair_up b) Hj).
    rewrite list_lookup_fmap. by rewrite Hb.
Qed.



(** ** The round-robin tier *)

Lemma round_robin_run_seq (agents : list HyperAgent) (c m : nat) :
  agents ≠ [] →
  round_robin_run agents c m =
    ((λ i, agents !! (i mod length agents)) <$> seq c m, c + m).
Proof.
  intros Hne. revert c. induction m as [|m IH]; intros c; simpl.
  - by rewrite Nat.add_0_r.
  - unfold _select_round_robin_agent. destruct agents as [|a l] eqn:Hag; [done|].
    rewrite <- Hag in *. rewrite IH. f_equal. lia.
Qed.

Lemma hits_app (n idx c m1 m2 : nat) :
  hits n idx c (m1 + m2) = hits n idx c m1 + hits n idx (c + m1) m2.
Proof. unfold hits. by rewrite seq_app, filter_app, length_app. Qed.

Lemma hits_below_period (n idx a m : nat) :
  a + m ≤ n →
  hits n idx a m = if bool_decide (a ≤ idx < a + m) then 1 else 0.
Proof.
  revert a. induction m as [|m IH]; intros a Hle.
  - unfold hits. simpl. rewrite bool_decide_eq_false_2; [done|lia].
  - unfold hits in *. simpl. rewrite filter_cons.
    rewrite (Nat.mod_small a n) by lia.
    specialize (IH (S a) ltac:(lia)). simpl in IH.
    destruct (decide (a = idx)) as [->|Hne]; simpl; rewrite IH;
      repeat case_bool_decide; lia.
Qed.

Lemma hits_shift (n idx c : nat) : 0 < n → hits n idx (S c) n = hits n idx c n.
Proof.
  intros Hn.
  assert (hits n idx c (S n) = hits n idx c (1 + n)) as H1 by done.
  assert (hits n idx c (S n) = hits n idx c (n + 1)) as H2 by (f_equal; lia).
  rewrite hits_app in H1. rewrite H2, hits_app in H1.
  replace (c + 1) with (S c) in H1 by lia.
  assert (hits n idx c 1 = hits n idx (c + n) 1) as Heq.
  { unfold hits. simpl. rewrite !filter_cons, !filter_nil.
    replace ((c + n) mod n) with (c mod n).
    - by destruct (decide (c mod n = idx)).
    - replace (c + n) with (c + 1 * n) by lia. by rewrite Nat.Div0.mod_add. }
  lia.
Qed.

Lemma hits_period (n idx c : nat) : idx < n → hits n idx c n = 1.
Proof.
  intros Hidx. induction c as [|c IH].
  - rewrite hits_below_period by lia. rewrite bool_decide_eq_true_2; [done|lia].
  - rewrite hits_shift by lia. done.
Qed.

Lemma hits_periods (n idx c q : nat) : idx < n → hits n idx c (q * n) = q.
Proof.
  intros Hidx. revert c. induction q as [|q IH]; intros c; simpl; [done|].
  rewrite hits_app, hits_period, IH by done. done.
Qed.

Lemma hits_bounds (n idx c m : nat) :
  idx < n → m / n ≤ hits n idx c m ≤ (m + n - 1) / n.
Proof.
  intros Hidx.
  pose proof (Nat.div_mod_eq m n) as Hm.
  pose proof (Nat.mod_upper_bound m n ltac:(lia)) as Hr.
  set (q := m / n) in *. set (r := m mod n) in *.
  assert (hits n idx c m = q + hits n idx (c + q * n) r) as ->.
  { rewrite Hm at 1. rewrite (Nat.mul_comm n q), hits_app, hits_periods by done. done. }
  assert (hits n idx (c + q * n) r ≤ 1) as Hle.
  { pose proof (hits_app n idx (c + q * n) r (n - r)) as Happ.
    replace (r + (n - r)) with n in Happ by lia.
    rewrite hits_period in Happ by done. lia. }
  split; [lia|].
  destruct (decide (r = 0)) as [Hr0|Hr0].
  - rewrite Hr0. unfold hits at 1. simpl.
    apply Nat.div_le_lower_bound; [lia|]. lia.
  - apply Nat.div_le_lower_bound; [lia|]. nia.
Qed.

Lemma times_picked_hits (agents : list HyperAgent) (idx : nat) (a : HyperAgent)
    (l : list nat) :
  NoDup (agent_id <$> agents) →
  agents !! idx = Some a →
  times_picked (agent_id a) ((λ i, agents !! (i mod length agents)) <$> l) =
    length (filter (λ i, i mod length agents = idx) l).
Proof.
  intros Hnd Hidx. unfold times_picked.
  assert (0 < length agents) as Hn by (apply lookup_lt_Some in Hidx; lia).
  induction l as [|i l IH]; [done|].
  rewrite fmap_cons, !filter_cons.
  destruct (decide (i mod length agents = idx)) as [Heq|Hne].
  - rewrite decide_True; [simpl; by rewrite IH|]. by rewrite Heq, Hidx.
  - rewrite decide_False; [done|]. intros Hsame. apply Hne.
    destruct (agents !! (i mod length agents)) as [b|] eqn:Hb; [|done].
    injection Hsame as Hsame.
    apply (NoDup_lookup (agent_id <$> agents) _ _ (agent_id a) Hnd).
    + rewrite list_lookup_fmap, Hb. simpl. by rewrite Hsame.
    + by rewrite list_lookup_fmap, Hidx.
Qed.

Lemma round_robin_period (agents : list HyperAgent) (c : nat) :
  agents ≠ [] →
  (λ i, agents !! (i mod length agents)) <$> seq c (length agents) =
    Some <$> (drop (c mod length agents) agents ++ take (c mod length agents) agents).
Proof.
  intros Hne.
  assert (0 < length agents) as Hn by (destruct agents; [done|simpl; lia]).
  change (drop _ agents ++ take _ agents) with (rotate c agents).
  apply (list_eq_same_length _ _ (length agents)).
  - by rewrite length_fmap, length_rotate.
  - by rewrite length_fmap, length_seq.
  - intros i x y Hi Hx Hy.
    rewrite list_lookup_fmap, lookup_seq_lt in Hx by done. simpl in Hx.
    rewrite list_lookup_fmap, lookup_rotate_r in Hy by done.
    unfold rotate_nat_add in Hy.
    rewrite <- Nat2Z.inj_add, <- Nat2Z.inj_mod, Nat2Z.id in Hy.
    destruct (agents !! ((c + i) mod length agents)) as [b|] eqn:Hb.
    + simpl in Hy. congruence.
    + apply lookup_ge_None in Hb.
      pose proof (Nat.mod_upper_bound (c + i) (length agents) ltac:(lia)). lia.
Qed.

Lemma select_low_priority (self : AgentPool) (task : Task) :
  (priority task < 3)%Z →
  active_list self ≠ [] →
  _select_agent_for_task self task =
    ((_select_round_robin_agent (active_list self) (round_robin_index self)).1,
     with_round_robin_index self (S (round_robin_index self))).
Proof.
  intros Hprio Hne. unfold _select_agent_for_task.
  destruct (agents self) as [|kv d] eqn:Hag.
  { exfalso. apply Hne. unfold active_list. by rewrite Hag. }
  destruct (active_list self) as [|x l] eqn:Hact; [done|].
  assert ((5 <=? priority task)%Z = false) as -> by (apply Z.leb_gt; lia).
  assert ((3 <=? priority task)%Z = false) as -> by (apply Z.leb_gt; lia).
  done.
Qed.

(** C7. Over a fixed non-empty list of N executors (pairwise distinct, as
    the values of the agent map are) and from any cursor value, N consecutive
    round-robin selections return the list rotated to start at index
    cursor mod N, hence every executor exactly once and in cyclic order; a
    selection for a task of priority below 3 is such a selection over the
    active executors and moves the cursor of the pool by exactly one, so m
    selections move it by m; and over any m selections (100 for instance)
    every executor is picked between floor(m/N) and ceil(m/N) times. *)
Theorem round_robin_fair (agents : list HyperAgent) (c m : nat) :
  agents ≠ [] →
  NoDup (agent_id <$> agents) →
  (round_robin_run agents c (length agents)).1 =
    Some <$> (drop (c mod length agents) agents ++ take (c mod length agents) agents)
  ∧ (∀ self task,
       (priority task < 3)%Z → active_list self = agents → round_robin_index self = c →
       _select_agent_for_task self task =
         ((_select_round_robin_agent agents c).1, with_round_robin_index self (S c)))
  ∧ (_select_round_robin_agent agents c).2 = S c
  ∧ (round_robin_run agents c m).2 = c + m
  ∧ (∀ a, a ∈ agents →
       times_picked (agent_id a) (round_robin_run agents c (length agents)).1 = 1)
  ∧ (∀ a, a ∈ agents →
       m / length agents
         ≤ times_picked (agent_id a) (round_robin_run agents c m).1
         ≤ (m + length agents - 1) / length agents).
Proof.
  intros Hne Hnd.
  rewrite !round_robin_run_seq by done. simpl.
  split; [by apply round_robin_period|].
  split.
  { intros self task Hprio <- <-. by apply select_low_priority. }
  split; [by destruct agents|].
  split; [done|].
  split; intros a [idx Hidx]%list_elem_of_lookup.
  - rewrite (times_picked_hits agents idx) by done.
    apply (hits_period (length agents) idx c). by eapply lookup_lt_Some.
  - rewrite (times_picked_hits agents idx) by done.
    apply (hits_bounds (length agents) idx c m). by eapply lookup_lt_Some.
Qed.

Lemma round_robin_fair_witness :
  (round_robin_run [weak_agent; strong_agent; idle_agent] 7 3).1 =
    [Some strong_agent; Some idle_agent; Some weak_agent]
  ∧ 33 ≤ times_picked "a-2" (round_robin_run [weak_agent; strong_agent; idle_agent] 7 100).1 ≤ 34.
Proof.
  destruct (round_robin_fair [weak_agent; strong_agent; idle_agent] 7 100)
    as (Hcycle & _ & _ & _ & _ & Hcount).
  - discriminate.
  - apply (bool_decide_unpack _). by vm_compute.
  - split; [exact Hcycle|].
    apply (Hcount weak_agent). left.
Defined.

(** ** Dictionaries in insertion order *)

Lemma filter_keeps_all {A} (P : A → Prop) `{!∀ x, Decision (P x)} (l : list A) :
  Forall P l → filter P l = l.
Proof.
  induction 1 as [|x l Hx _ IH]; [done|].
  by rewrite filter_cons, decide_True, IH.
Qed.

Section dict_facts.
Context {V : Type}.
Implicit Types (d : list (string * V)) (k : string) (v : V).

Lemma get_None d k : PyDict.get d k = None ↔ k ∉ PyDict.keys d.
Proof.
  unfold PyDict.keys. induction d as [|[k' v'] d IH]; simpl.
  - split; [intros _; apply not_elem_of_nil|done].
  - rewrite not_elem_of_cons. destruct (decide (k' = k)) as [->|Hne].
    + split; [done|]. by intros [? _].
    + rewrite IH. split; [by intros ?|by intros [_ ?]].
Qed.

Lemma get_is_Some d k : is_Some (PyDict.get d k) ↔ k ∈ PyDict.keys d.
Proof.
  destruct (PyDict.get d k) eqn:Hg.
  - split; [|eauto]. intros _.
    destruct (decide (k ∈ PyDict.keys d)) as [|Hn]; [done|].
    apply get_None in Hn. congruence.
  - split; [by intros [? ?]|]. intros Hin. by apply get_None in Hg.
Qed.

Lemma keys_set_present d k v :
  k ∈ PyDict.keys d → PyDict.keys (PyDict.set d k v) = PyDict.keys d.
Proof.
  unfold PyDict.keys. induction d as [|[k' v'] d IH]; simpl.
  - by intros ?%elem_of_nil.
  - intros Hin. destruct (decide (k' = k)) as [->|Hne]; simpl; [done|].
    f_equal. apply IH. apply elem_of_cons in Hin as [?|?]; [congruence|done].
Qed.

Lemma keys_set_absent d k v :
  k ∉ PyDict.keys d → PyDict.keys (PyDict.set d k v) = PyDict.keys d ++ [k].
Proof.
  unfold PyDict.keys. induction d as [|[k' v'] d IH]; simpl; [done|].
  intros [Hne Hnin]%not_elem_of_cons.
  rewrite decide_False by congruence. simpl. f_equal. by apply IH.
Qed.

Lemma length_set d k v :
  length (PyDict.set d k v) =
    if bool_decide (k ∈ PyDict.keys d) then length d else S (length d).
Proof.
  rewrite <- !(length_fmap fst). change (fst <$> ?x) with (PyDict.keys x).
  case_bool_decide.
  - by rewrite keys_set_present.
  - rewrite keys_set_absent, length_app by done. simpl. lia.
Qed.

Lemma keys_del d k :
  NoDup (PyDict.keys d) →
  PyDict.keys (PyDict.del d k) = filter (λ k', k' ≠ k) (PyDict.keys d).
Proof.
  unfold PyDict.keys. induction d as [|[k' v'] d IH]; simpl; [done|].
  intros [Hnin Hnd]%NoDup_cons. rewrite filter_cons.
  destruct (decide (k' = k)) as [->|Hne]; simpl.
  - rewrite decide_False by (by intros ?).
    symmetry. apply filter_keeps_all. apply Forall_forall. intros x Hx ->. done.
  - rewrite decide_True by done. f_equal. by apply IH.
Qed.

Lemma del_cons d k' v' k :
  PyDict.del ((k', v') :: d) k =
    if decide (k' = k) then d else (k', v') :: PyDict.del d k.
Proof. done. Qed.

Lemma length_del d k :
  length (PyDict.del d k) =
    if bool_decide (k ∈ PyDict.keys d) then length d - 1 else length d.
Proof.
  unfold PyDict.keys. induction d as [|[k' v'] d IH].
  - rewrite bool_decide_eq_false_2; [done|apply not_elem_of_nil].
  - rewrite del_cons, fmap_cons.
    destruct (decide (k' = k)) as [->|Hne].
    + rewrite bool_decide_eq_true_2; [simpl; lia|left].
    + rewrite length_cons, IH.
      destruct (decide (k ∈ d.*1)) as [Hin|Hnin].
      * rewrite !bool_decide_eq_true_2; [|by right|done].
        destruct d; [by apply elem_of_nil in Hin|simpl; lia].
      * rewrite !bool_decide_eq_false_2; [done| |done].
        intros [?|?]%elem_of_cons; [simpl in *; congruence|done].
Qed.

Lemma length_del_le d k : length d - 1 ≤ length (PyDict.del d k) ≤ length d.
Proof. rewrite length_del. case_bool_decide; lia. Qed.

Lemma keys_fmap_values (f : V → V) d :
  PyDict.keys (prod_map id f <$> d) = PyDict.keys d.
Proof.
  unfold PyDict.keys. rewrite <- list_fmap_compose.
  apply list_fmap_ext. by intros i [k v] _.
Qed.
End dict_facts.

(** ** The registry: [create_agent] and [remove_agent] *)

Lemma create_agent_Created (max_agents : Z) (self p : AgentPool) (nm id : string) :
  create_agent max_agents self nm id = Created p →
  (Z.of_nat (length (agents self)) < max_agents)%Z
  ∧ (nm ∉ agent_name <$> PyDict.values (agents self))
  ∧ agents p = PyDict.set (agents self) id (new_agent id nm)
  ∧ agent_workloads p = <[id := 0%Z]> (agent_workloads self)
  ∧ task_queue p = task_queue self
  ∧ round_robin_index p = round_robin_index self
  ∧ optimization_cycles p = optimization_cycles self.
Proof.
  unfold create_agent.
  destruct (max_agents <=? Z.of_nat (length (agents self)))%Z eqn:Hmax; [done|].
  case_bool_decide as Hnm; [done|].
  intros [= <-]. apply Z.leb_gt in Hmax. done.
Qed.

Lemma create_agent_consistent (max_agents : Z) (self p : AgentPool) (nm id : string) :
  pool_consistent self →
  create_agent max_agents self nm id = Created p →
  pool_consistent p.
Proof.
  intros [Hnd Hdom] (_ & _ & Hag & Hwl & _)%create_agent_Created.
  unfold pool_consistent. rewrite Hag, Hwl, dom_insert_L, <- Hdom.
  destruct (decide (id ∈ PyDict.keys (agents self))) as [Hin|Hnin].
  - rewrite keys_set_present by done. split; [done|]. set_solver.
  - rewrite keys_set_absent by done. split.
    + apply NoDup_app. split; [done|]. split; [|apply NoDup_singleton].
      intros x Hx ->%list_elem_of_singleton. done.
    + rewrite list_to_set_app_L. set_solver.
Qed.

Lemma remove_agent_cases (self : AgentPool) (id : string) :
  pool_consistent self →
  ((id ∉ PyDict.keys (agents self)) ∧ remove_agent self id = NotFound)
  ∨ (id ∈ PyDict.keys (agents self)
     ∧ ∃ p, remove_agent self id = Removed p
         ∧ agents p = PyDict.del (agents self) id
         ∧ agent_workloads p = delete id (agent_workloads self)
         ∧ task_queue p = task_queue self
         ∧ round_robin_index p = round_robin_index self
         ∧ optimization_cycles p = optimization_cycles self).
Proof.
  intros [Hnd Hdom]. unfold remove_agent.
  destruct (PyDict.get (agents self) id) as [a|] eqn:Hget.
  - right. assert (id ∈ PyDict.keys (agents self)) as Hin.
    { apply get_is_Some. eauto. }
    split; [done|]. simpl.
    assert (is_Some (agent_workloads self !! id)) as [n Hn].
    { apply elem_of_dom. rewrite <- Hdom. by apply elem_of_list_to_set. }
    rewrite Hn. eauto 10.
  - left. split; [|done]. by apply get_None.
Qed.

Lemma pool_after_remove_consistent (self : AgentPool) (id : string) :
  pool_consistent self → pool_consistent (pool_after_remove self id).
Proof.
  intros Hc. unfold pool_after_remove.
  destruct (remove_agent_cases self id Hc) as [[_ ->]|(Hin & p & -> & Hag & Hwl & _)]; [done|].
  destruct Hc as [Hnd Hdom]. unfold pool_consistent.
  rewrite Hag, Hwl, keys_del, dom_delete_L, <- Hdom by done. split.
  - by apply NoDup_filter.
  - apply set_eq. intros x.
    rewrite elem_of_list_to_set, list_elem_of_filter, elem_of_difference,
      elem_of_list_to_set, elem_of_singleton. tauto.
Qed.

Lemma new_pool_consistent : pool_consistent new_pool.
Proof. split; [apply NoDup_nil_2|]. simpl. by rewrite dom_empty_L. Qed.

Lemma apply_op_consistent (max_agents : Z) (self : AgentPool) (op : pool_op) :
  pool_consistent self → pool_consistent (apply_op max_agents self op).
Proof.
  intros Hc. destruct op as [nm id|id]; simpl.
  - destruct (create_agent max_agents self nm id) eqn:Hcr; [|done..].
    by eapply create_agent_consistent.
  - by apply pool_after_remove_consistent.
Qed.

(** C9. After any sequence of [create_agent] and [remove_agent] calls on a
    fresh pool, the identifiers in the agent map are exactly the keys of the
    workload map (and no identifier occurs twice in the agent map); and a
    successful [create_agent] leaves the new executor in the agent map with a
    workload entry equal to 0. *)
Theorem agents_and_workloads_agree (max_agents : Z) (ops : list pool_op) :
  pool_consistent (foldl (apply_op max_agents) new_pool ops)
  ∧ (list_to_set (PyDict.keys (agents (foldl (apply_op max_agents) new_pool ops)))
       : gset string)
    = dom (agent_workloads (foldl (apply_op max_agents) new_pool ops))
  ∧ ∀ nm id p,
      create_agent max_agents (foldl (apply_op max_agents) new_pool ops) nm id = Created p →
      id ∈ PyDict.keys (agents p) ∧ agent_workloads p !! id = Some 0%Z.
Proof.
  assert (pool_consistent (foldl (apply_op max_agents) new_pool ops)) as Hc.
  { generalize new_pool_consistent. generalize new_pool.
    induction ops as [|op ops IH]; intros self Hself; simpl; [done|].
    apply IH. by apply apply_op_consistent. }
  split; [done|]. split; [apply Hc|].
  intros nm id p (_ & _ & Hag & Hwl & _)%create_agent_Created.
  rewrite Hag, Hwl, lookup_insert_eq. split; [|done].
  destruct (decide (id ∈ PyDict.keys (agents (foldl (apply_op max_agents) new_pool ops))))
    as [Hin|Hnin].
  - by rewrite keys_set_present.
  - rewrite keys_set_absent by done. apply elem_of_app. right. left.
Qed.

(** ** The pool under concurrent use *)

Lemma length_agents_keys (p : AgentPool) :
  length (agents p) = length (PyDict.keys (agents p)).
Proof. unfold PyDict.keys. by rewrite length_fmap. Qed.

Lemma same_registry_refl (p : AgentPool) : same_registry p p.
Proof. done. Qed.

Lemma same_registry_trans (p q r : AgentPool) :
  same_registry p q → same_registry q r → same_registry p r.
Proof. intros [? ?] [? ?]. split; congruence. Qed.

Lemma same_registry_length (p q : AgentPool) :
  same_registry p q → length (agents q) = length (agents p).
Proof. intros [Hk _]. by rewrite !length_agents_keys, Hk. Qed.

Lemma same_registry_ok (p q : AgentPool) (proc : gmultiset string) :
  same_registry p q → pool_ok p proc → pool_ok q proc.
Proof.
  intros [Hk Hw] [[Hnd Hdom] Hm].
  unfold pool_ok, pool_consistent, workloads_match. rewrite <- Hk, <- Hw. done.
Qed.

Lemma update_metrics_registry (p : AgentPool) : same_registry p (_update_metrics p).
Proof. done. Qed.

Lemma submit_task_registry (p : AgentPool) (task : Task) :
  same_registry p (submit_task p task).
Proof. done. Qed.

Lemma optimize_capabilities_registry (p : AgentPool) :
  same_registry p (_optimize_agent_capabilities p).
Proof. split; [|done]. simpl. by rewrite keys_fmap_values. Qed.

Lemma set_agent_stats_registry (p : AgentPool) (id : string)
    (caps : list AgentCapability) (done : Z) (rate lr : Q) :
  same_registry p (set_agent_stats p id caps done rate lr).
Proof.
  unfold set_agent_stats. destruct (PyDict.get (agents p) id) eqn:Hg; [|done].
  split; [|done]. simpl. rewrite keys_set_present; [done|].
  apply get_is_Some. eauto.
Qed.

Lemma select_agent_registry (p : AgentPool) (task : Task) :
  same_registry p (_select_agent_for_task p task).2
  ∧ task_queue (_select_agent_for_task p task).2 = task_queue p.
Proof.
  unfold _select_agent_for_task.
  destruct (agents p); [done|]. destruct (active_list p); [done|].
  destruct (5 <=? priority task)%Z; [done|].
  destruct (3 <=? priority task)%Z; [done|].
  by destruct (_select_round_robin_agent _ _).
Qed.

Lemma elem_of_keys_set {V} (d : list (string * V)) (k k' : string) (v : V) :
  k' ∈ PyDict.keys (PyDict.set d k v) ↔ k' = k ∨ k' ∈ PyDict.keys d.
Proof.
  destruct (decide (k ∈ PyDict.keys d)) as [Hin|Hnin].
  - rewrite keys_set_present by done. split; [eauto|]. by intros [->|?].
  - rewrite keys_set_absent, elem_of_app, list_elem_of_singleton by done. tauto.
Qed.

Lemma create_agent_ok (max_agents : Z) (self p : AgentPool) (nm id : string)
    (proc : gmultiset string) :
  pool_ok self proc → id ∉ proc →
  create_agent max_agents self nm id = Created p →
  pool_ok p proc.
Proof.
  intros [Hc Hm] Hfresh Hcr. split; [by eapply create_agent_consistent|].
  apply create_agent_Created in Hcr as (_ & _ & Hag & Hwl & _).
  intros id'. rewrite Hag, Hwl, elem_of_keys_set.
  destruct (decide (id' = id)) as [->|Hne].
  - intros _. rewrite lookup_insert_eq.
    apply not_elem_of_multiplicity in Hfresh. by rewrite Hfresh.
  - intros [?|Hin]; [done|]. rewrite lookup_insert_ne by done. by apply Hm.
Qed.

Lemma pool_after_remove_ok (self : AgentPool) (id : string) (proc : gmultiset string) :
  pool_ok self proc → pool_ok (pool_after_remove self id) proc.
Proof.
  intros [Hc Hm]. split; [by apply pool_after_remove_consistent|].
  unfold pool_after_remove.
  destruct (remove_agent_cases self id Hc) as [[_ ->]|(Hin & p & -> & Hag & Hwl & _)]; [done|].
  intros id'. rewrite Hag, Hwl, keys_del by apply Hc.
  intros [Hne Hin']%list_elem_of_filter.
  rewrite lookup_delete_ne by done. by apply Hm.
Qed.

Lemma pool_after_remove_length (self : AgentPool) (id : string) :
  length (agents self) - 1 ≤ length (agents (pool_after_remove self id))
    ≤ length (agents self).
Proof.
  unfold pool_after_remove, remove_agent.
  destruct (PyDict.get (agents self) id); [|lia].
  simpl. destruct (agent_workloads self !! id); simpl; apply length_del_le.
Qed.

Lemma remove_loop_ok (snapshot : list HyperAgent) (self : AgentPool)
    (proc : gmultiset string) :
  pool_ok self proc → pool_ok (remove_underperforming_loop snapshot self).1 proc.
Proof.
  revert self. induction snapshot as [|a l IH]; intros self Hok; simpl; [done|].
  destruct (underperforming self a); [|by apply IH].
  specialize (IH (pool_after_remove self (agent_id a))
                 (pool_after_remove_ok _ _ _ Hok)).
  by destruct (remove_underperforming_loop l _).
Qed.

Lemma remove_loop_length (snapshot : list HyperAgent) (self : AgentPool) :
  3 ≤ length (agents self) →
  3 ≤ length (agents (remove_underperforming_loop snapshot self).1)
    ≤ length (agents self).
Proof.
  revert self. induction snapshot as [|a l IH]; intros self Hlen; simpl; [lia|].
  destruct (underperforming self a) eqn:Hu; [|by apply IH].
  unfold underperforming in Hu.
  apply andb_prop in Hu as [_ Hgt]. apply bool_decide_eq_true in Hgt.
  pose proof (pool_after_remove_length self (agent_id a)) as Hrem.
  specialize (IH (pool_after_remove self (agent_id a)) ltac:(lia)).
  destruct (remove_underperforming_loop l _). simpl in *. lia.
Qed.

Lemma scale_down_ok (self : AgentPool) (proc : gmultiset string) :
  pool_ok self proc → pool_ok (scale_down self).1 proc.
Proof.
  intros Hok. unfold scale_down. case_bool_decide; [|done].
  by apply remove_loop_ok.
Qed.

Lemma scale_down_length (self : AgentPool) :
  Nat.min 3 (length (agents self)) ≤ length (agents (scale_down self).1)
    ≤ length (agents self).
Proof.
  unfold scale_down. case_bool_decide as Hgt; [|cbn [fst]; lia].
  pose proof (remove_loop_length (PyDict.values (agents self)) self ltac:(lia)).
  unfold _remove_underperforming_agents. lia.
Qed.

Lemma scale_up_ok (max_agents : Z) (self : AgentPool) (id : string)
    (proc : gmultiset string) :
  pool_ok self proc → id ∉ proc → pool_ok (scale_up max_agents self id).1 proc.
Proof.
  intros Hok Hfresh. unfold scale_up.
  destruct (_ && _); [|done].
  destruct (create_agent _ _ _ _) eqn:Hcr; simpl; [|done..].
  by eapply create_agent_ok.
Qed.

Lemma create_agent_length (max_agents : Z) (self p : AgentPool) (nm id : string) :
  create_agent max_agents self nm id = Created p →
  length (agents self) ≤ length (agents p) ≤ S (length (agents self))
  ∧ (Z.of_nat (length (agents p)) <= max_agents)%Z.
Proof.
  intros (Hlt & _ & Hag & _)%create_agent_Created.
  rewrite Hag, length_set. case_bool_decide; lia.
Qed.

Lemma scale_up_length (max_agents : Z) (self : AgentPool) (id : string) :
  length (agents self) ≤ length (agents (scale_up max_agents self id).1)
  ∧ ((Z.of_nat (length (agents self)) <= max_agents)%Z →
     (Z.of_nat (length (agents (scale_up max_agents self id).1)) <= max_agents)%Z).
Proof.
  unfold scale_up. destruct (_ && _); [|done].
  destruct (create_agent _ _ _ _) eqn:Hcr; simpl; [|done..].
  apply create_agent_length in Hcr. lia.
Qed.

Lemma optimize_cycle_pool (max_agents : Z) (self : AgentPool) (id : string) :
  (optimize_cycle max_agents self id).1 =
    _optimize_agent_capabilities
      (scale_down
         (scale_up max_agents
            (with_optimization_cycles self (S (optimization_cycles self))) id).1).1.
Proof.
  unfold optimize_cycle.
  destruct (scale_up _ _ _) as [p1 o1]. simpl.
  by destruct (scale_down p1) as [p2 o2].
Qed.

Lemma optimize_cycle_ok (max_agents : Z) (self : AgentPool) (id : string)
    (proc : gmultiset string) :
  pool_ok self proc → id ∉ proc →
  pool_ok (optimize_cycle max_agents self id).1 proc.
Proof.
  intros Hok Hfresh. rewrite optimize_cycle_pool.
  eapply same_registry_ok; [apply optimize_capabilities_registry|].
  apply scale_down_ok, scale_up_ok; [|done].
  eapply same_registry_ok; [|exact Hok]. done.
Qed.

Lemma optimize_cycle_length (max_agents : Z) (self : AgentPool) (id : string) :
  Nat.min 3 (length (agents self)) ≤ length (agents (optimize_cycle max_agents self id).1)
  ∧ ((Z.of_nat (length (agents self)) <= max_agents)%Z →
     (Z.of_nat (length (agents (optimize_cycle max_agents self id).1)) <= max_agents)%Z).
Proof.
  rewrite optimize_cycle_pool.
  rewrite (same_registry_length _ _ (optimize_capabilities_registry _)).
  set (p0 := with_optimization_cycles self (S (optimization_cycles self))).
  pose proof (scale_up_length max_agents p0 id) as [Hup1 Hup2].
  pose proof (scale_down_length (scale_up max_agents p0 id).1) as Hdown.
  change (length (agents p0)) with (length (agents self)) in *. lia.
Qed.

Lemma worker_dispatch_cases (self p : AgentPool) (r : dispatch_result) :
  worker_dispatch self = Some (r, p) →
  PyDict.keys (agents p) = PyDict.keys (agents self)
  ∧ match r with
    | Dispatched id =>
        ∃ n, agent_workloads self !! id = Some n
             ∧ agent_workloads p = <[id := (n + 1)%Z]> (agent_workloads self)
    | Requeued | WorkerError => agent_workloads p = agent_workloads self
    end.
Proof.
  unfold worker_dispatch. destruct (task_queue self) as [|task rest]; [done|].
  pose proof (select_agent_registry (with_task_queue self rest) task) as [[Hk Hw] _].
  destruct (_select_agent_for_task (with_task_queue self rest) task) as [agent q].
  simpl in Hk, Hw. destruct agent as [agent|].
  - destruct (agent_workloads q !! agent_id agent) as [n|] eqn:Hn.
    + intros [= <- <-]. simpl. split; [done|]. exists n. by rewrite Hw.
    + intros [= <- <-]. done.
  - intros [= <- <-]. done.
Qed.

Lemma worker_complete_cases (self : AgentPool) (id : string) :
  agents (worker_complete self id) = agents self
  ∧ ((agent_workloads self !! id = None
      ∧ agent_workloads (worker_complete self id) = agent_workloads self)
     ∨ ∃ n, agent_workloads self !! id = Some n
            ∧ agent_workloads (worker_complete self id)
                = <[id := (n - 1)%Z]> (agent_workloads self)).
Proof.
  unfold worker_complete. destruct (agent_workloads self !! id) as [n|] eqn:Hn.
  - split; [done|]. right. by exists n.
  - split; [done|]. by left.
Qed.

Lemma consistent_lookup (self : AgentPool) (id : string) :
  pool_consistent self →
  id ∈ PyDict.keys (agents self) ↔ is_Some (agent_workloads self !! id).
Proof. intros [_ Hdom]. by rewrite <- elem_of_dom, <- Hdom, elem_of_list_to_set. Qed.

Lemma consistent_insert_present (self p : AgentPool) (id : string) (n : Z) :
  pool_consistent self →
  is_Some (agent_workloads self !! id) →
  PyDict.keys (agents p) = PyDict.keys (agents self) →
  agent_workloads p = <[id := n]> (agent_workloads self) →
  pool_consistent p.
Proof.
  intros [Hnd Hdom] Hsome Hk Hw. unfold pool_consistent.
  rewrite Hk, Hw, dom_insert_L, <- Hdom. split; [done|].
  apply elem_of_dom in Hsome. rewrite <- Hdom in Hsome. set_solver.
Qed.

Lemma step_ok (max_agents : Z) (s s' : System) (ev : event) (out : list observation) :
  pool_ok (pool s) (processing s) →
  step max_agents s ev = Some (s', out) →
  pool_ok (pool s') (processing s').
Proof.
  intros Hok. destruct ev as [nm id|id|task| |id|id| |id caps dn rate lr]; simpl.
  - (* create_agent *)
    unfold fresh. destruct (bool_decide (id ∉ PyDict.keys _)); [|done]. simpl.
    case_bool_decide as Hfresh; [|done].
    destruct (create_agent _ _ _ _) eqn:Hcr; intros [= <- <-]; [|done..].
    by eapply create_agent_ok.
  - intros [= <- <-]. by apply pool_after_remove_ok.
  - intros [= <- <-]. done.
  - (* a worker takes a task *)
    case_bool_decide; [|done].
    destruct (worker_dispatch (pool s)) as [[r p]|] eqn:Hd; [|done].
    apply worker_dispatch_cases in Hd as [Hk Hw].
    destruct r as [id| |]; intros [= <- <-]; simpl.
    + destruct Hw as (n & Hn & Hw). destruct Hok as [Hc Hm]. split.
      * by eapply consistent_insert_present.
      * intros id'. rewrite Hk, Hw. intros Hin.
        rewrite multiplicity_disj_union, multiplicity_singleton.
        destruct (decide (id' = id)) as [->|Hne].
        -- rewrite lookup_insert_eq. rewrite (Hm id Hin) in Hn.
           injection Hn as Hn. f_equal. lia.
        -- rewrite lookup_insert_ne by done. rewrite (Hm id' Hin).
           f_equal. lia.
    + eapply same_registry_ok; [|exact Hok]. done.
    + eapply same_registry_ok; [|exact Hok]. done.
  - (* a process_task returns *)
    case_bool_decide as Hin; [|done]. intros [= <- <-]. simpl.
    destruct Hok as [Hc Hm].
    destruct (worker_complete_cases (pool s) id) as [Hag [[Hnone Hw]|(n & Hn & Hw)]].
    + assert (id ∉ PyDict.keys (agents (pool s))) as Hnotin.
      { rewrite consistent_lookup by done. rewrite Hnone. by intros [? ?]. }
      split.
      * destruct Hc as [Hnd Hdom]. unfold pool_consistent. by rewrite Hag, Hw.
      * intros id'. rewrite Hag, Hw. intros Hin'.
        rewrite (Hm id' Hin'), multiplicity_difference, multiplicity_singleton.
        rewrite decide_False; [f_equal; lia|]. by intros ->.
    + split.
      * eapply consistent_insert_present; [done|by eauto|by rewrite Hag|done].
      * intros id'. rewrite Hag, Hw. intros Hin'.
        rewrite multiplicity_difference, multiplicity_singleton.
        destruct (decide (id' = id)) as [->|Hne].
        -- rewrite lookup_insert_eq. rewrite (Hm id Hin') in Hn.
           injection Hn as Hn.
           assert (0 < multiplicity id (processing s)) by (by apply elem_of_multiplicity).
           f_equal. lia.
        -- rewrite lookup_insert_ne by done. rewrite (Hm id' Hin'). f_equal. lia.
  - (* an autoscale cycle *)
    unfold fresh. destruct (bool_decide (id ∉ PyDict.keys _)); [|done]. simpl.
    case_bool_decide as Hfresh; [|done]. intros [= <- <-]. simpl.
    by apply optimize_cycle_ok.
  - intros [= <- <-]. done.
  - intros [= <- <-]. simpl.
    eapply same_registry_ok; [apply set_agent_stats_registry|done].
Qed.


Lemma step_length (max_agents : Z) (s s' : System) (ev : event) (out : list observation) :
  (Z.of_nat (length (agents (pool s))) <= max_agents)%Z →
  step max_agents s ev = Some (s', out) →
  (Z.of_nat (length (agents (pool s'))) <= max_agents)%Z.
Proof.
  intros Hle. destruct ev as [nm id|id|task| |id|id| |id caps dn rate lr]; simpl.
  - destruct (fresh s id); [|done].
    destruct (create_agent _ _ _ _) eqn:Hcr; intros [= <- <-]; [|done..].
    by apply create_agent_length in Hcr as [_ ?].
  - intros [= <- <-]. simpl.
    pose proof (pool_after_remove_length (pool s) id). lia.
  - by intros [= <- <-].
  - case_bool_decide; [|done].
    destruct (worker_dispatch (pool s)) as [[r p]|] eqn:Hd; [|done].
    apply worker_dispatch_cases in Hd as [Hk _].
    assert (length (agents p) = length (agents (pool s))) as Hlen.
    { by rewrite !length_agents_keys, Hk. }
    destruct r; intros [= <- <-]; simpl; lia.
  - case_bool_decide; [|done]. intros [= <- <-]. simpl.
    destruct (worker_complete_cases (pool s) id) as [-> _]. done.
  - destruct (fresh s id); [|done]. intros [= <- <-]. simpl.
    by apply optimize_cycle_length.
  - by intros [= <- <-].
  - intros [= <- <-]. simpl.
    by rewrite (same_registry_length _ _ (set_agent_stats_registry _ _ _ _ _ _)).
Qed.

Lemma run_cons (max_agents : Z) (s s'' : System) (ev : event) (evs : list event)
    (out : list observation) :
  run max_agents s (ev :: evs) = Some (s'', out) →
  ∃ s' out1 out2,
    step max_agents s ev = Some (s', out1)
    ∧ run max_agents s' evs = Some (s'', out2)
    ∧ out = out1 ++ out2.
Proof.
  simpl. destruct (step max_agents s ev) as [[s' out1]|] eqn:Hs; [|done].
  destruct (run max_agents s' evs) as [[s3 out2]|] eqn:Hr; [|done].
  intros [= <- <-]. by exists s', out1, out2.
Qed.

Lemma run_ok (max_agents : Z) (evs : list event) (s s' : System)
    (out : list observation) :
  pool_ok (pool s) (processing s) →
  run max_agents s evs = Some (s', out) →
  pool_ok (pool s') (processing s').
Proof.
  revert s out. induction evs as [|ev evs IH]; intros s out Hok.
  - by intros [= <- <-].
  - intros (s1 & o1 & o2 & Hstep & Hrun & _)%run_cons.
    eapply IH; [|exact Hrun]. by eapply step_ok.
Qed.


Lemma run_length (max_agents : Z) (evs : list event) (s s' : System)
    (out : list observation) :
  (Z.of_nat (length (agents (pool s))) <= max_agents)%Z →
  run max_agents s evs = Some (s', out) →
  (Z.of_nat (length (agents (pool s'))) <= max_agents)%Z.
Proof.
  revert s out. induction evs as [|ev evs IH]; intros s out Hle.
  - by intros [= <- <-].
  - intros (s1 & o1 & o2 & Hstep & Hrun & _)%run_cons.
    eapply IH; [|exact Hrun]. by eapply step_length.
Qed.



(** ** The size of the pool *)

Lemma pool_after_remove_member (self : AgentPool) (id : string) :
  id ∈ PyDict.keys (agents self) →
  length (agents (pool_after_remove self id)) = length (agents self) - 1.
Proof.
  intros Hin. unfold pool_after_remove, remove_agent.
  assert (is_Some (PyDict.get (agents self) id)) as [a ->] by (by apply get_is_Some).
  simpl. destruct (agent_workloads self !! id); simpl;
    by rewrite length_del, bool_decide_eq_true_2.
Qed.

(** C4, as stated, fails: [remove_agent] has no floor. From a running pool
    of three executors one call leaves two. *)
Lemma remove_agent_drops_below_floor :
  ¬ (∀ ops,
       is_running (foldl (apply_op 100) three_created ops) = true →
       3 ≤ length (agents (foldl (apply_op 100) three_created ops)) ∧
       (Z.of_nat (length (agents (foldl (apply_op 100) three_created ops))) <= 100)%Z).
Proof.
  intros Hclaim. destruct (Hclaim [OpRemove "a-1"]) as [Hfloor _].
  - vm_compute. reflexivity.
  - vm_compute in Hfloor. lia.
Qed.

(** C4, amended. In every run of the pool that starts within [max_agents]
    the number of executors stays within [max_agents]; an autoscale cycle,
    and its removal of underperformers, started with n executors ends with
    at least min(3, n), so the autoscaler never takes the pool below three;
    [remove_agent] takes one executor away from any pool that holds it. *)
Theorem executor_count_bounds (max_agents : Z) (evs : list event)
    (s s' : System) (out : list observation) :
  (Z.of_nat (length (agents (pool s))) <= max_agents)%Z →
  run max_agents s evs = Some (s', out) →
  (Z.of_nat (length (agents (pool s'))) <= max_agents)%Z
  ∧ (∀ id, Nat.min 3 (length (agents (pool s')))
             ≤ length (agents (optimize_cycle max_agents (pool s') id).1))
  ∧ Nat.min 3 (length (agents (pool s')))
      ≤ length (agents (scale_down (pool s')).1)
  ∧ (∀ id, id ∈ PyDict.keys (agents (pool s')) →
       length (agents (pool_after_remove (pool s') id))
         = length (agents (pool s')) - 1).
Proof.
  intros Hle Hrun. split; [by eapply run_length|].
  split; [intros id; apply optimize_cycle_length|].
  split; [apply scale_down_length|].
  intros id. apply pool_after_remove_member.
Qed.

Lemma executor_count_bounds_witness :
  ∃ s' out,
    run 3 new_system
      [EvCreate "Alpha" "a-1"; EvCreate "Beta" "a-2"; EvCreate "Gamma" "a-3";
       EvCreate "Delta" "a-4"; EvRemove "a-2"] = Some (s', out)
    ∧ (Z.of_nat (length (agents (pool s'))) <= 3)%Z
    ∧ length (agents (pool s')) = 2.
Proof.
  set (evs := [EvCreate "Alpha" "a-1"; EvCreate "Beta" "a-2"; EvCreate "Gamma" "a-3";
               EvCreate "Delta" "a-4"; EvRemove "a-2"]).
  set (r := default (new_system, []) (run 3 new_system evs)).
  assert (run 3 new_system evs = Some (r.1, r.2)) as Hrun by (vm_compute; reflexivity).
  exists r.1, r.2. split; [exact Hrun|].
  split; [|vm_compute; reflexivity].
  apply (executor_count_bounds 3 evs new_system r.1 r.2); [|exact Hrun].
  vm_compute. discriminate.
Defined.

(** ** The scale-up step *)

Lemma set_absent {V} (d : list (string * V)) (k : string) (v : V) :
  k ∉ PyDict.keys d → PyDict.set d k v = d ++ [(k, v)].
Proof.
  unfold PyDict.keys. induction d as [|[k' v'] d IH]; simpl; [done|].
  intros [Hne Hnin]%not_elem_of_cons.
  rewrite decide_False by congruence. f_equal. by apply IH.
Qed.




(** ** The hub: cleaning up connections *)

Lemma filter_ext_in {A} (P Q : A → Prop) `{!∀ x, Decision (P x)} `{!∀ x, Decision (Q x)}
    (l : list A) :
  (∀ x, x ∈ l → P x ↔ Q x) → filter P l = filter Q l.
Proof.
  induction l as [|x l IH]; intros Hext; [done|].
  rewrite !filter_cons, IH by (intros y Hy; apply Hext; by right).
  destruct (decide (P x)) as [Hp|Hp], (decide (Q x)) as [Hq|Hq]; try done.
  - exfalso. apply Hq, Hext; [left|done].
  - exfalso. apply Hp, Hext; [left|done].
Qed.

Lemma omap_ext_in {A B} (f g : A → option B) (l : list A) :
  (∀ x, x ∈ l → f x = g x) → omap f l = omap g l.
Proof.
  induction l as [|x l IH]; intros Hext; [done|].
  assert (omap f l = omap g l) as IH' by (apply IH; intros y Hy; apply Hext; by right).
  simpl. rewrite (Hext x) by left.
  destruct (g x); [f_equal|]; exact IH'.
Qed.

Lemma cleanup_all_connections (l : list string) (self : WebSocketManager) (c : string) :
  connections (foldl _cleanup_connection self l) !! c =
    if bool_decide (c ∈ l) then None else connections self !! c.
Proof.
  revert self. induction l as [|c0 l IH]; intros self.
  - rewrite bool_decide_eq_false_2; [done|apply not_elem_of_nil].
  - change (foldl _cleanup_connection self (c0 :: l))
      with (foldl _cleanup_connection (_cleanup_connection self c0) l).
    rewrite IH. unfold _cleanup_connection at 1. cbn [connections].
    destruct (decide (c ∈ l)) as [Hin|Hnin].
    + rewrite !bool_decide_eq_true_2; [done|by right|done].
    + rewrite (bool_decide_eq_false_2 (c ∈ l)) by done.
      destruct (decide (c0 = c)) as [->|Hne].
      * rewrite lookup_delete_eq, bool_decide_eq_true_2; [done|left].
      * rewrite lookup_delete_ne by done.
        rewrite bool_decide_eq_false_2; [done|].
        intros [?|?]%elem_of_cons; [congruence|done].
Qed.

Lemma cleanup_all_metadata (l : list string) (self : WebSocketManager) (c : string) :
  connection_metadata (foldl _cleanup_connection self l) !! c =
    if bool_decide (c ∈ l) then None else connection_metadata self !! c.
Proof.
  revert self. induction l as [|c0 l IH]; intros self.
  - rewrite bool_decide_eq_false_2; [done|apply not_elem_of_nil].
  - change (foldl _cleanup_connection self (c0 :: l))
      with (foldl _cleanup_connection (_cleanup_connection self c0) l).
    rewrite IH. unfold _cleanup_connection at 1. cbn [connection_metadata].
    destruct (decide (c ∈ l)) as [Hin|Hnin].
    + rewrite !bool_decide_eq_true_2; [done|by right|done].
    + rewrite (bool_decide_eq_false_2 (c ∈ l)) by done.
      destruct (decide (c0 = c)) as [->|Hne].
      * rewrite lookup_delete_eq, bool_decide_eq_true_2; [done|left].
      * rewrite lookup_delete_ne by done.
        rewrite bool_decide_eq_false_2; [done|].
        intros [?|?]%elem_of_cons; [congruence|done].
Qed.

Lemma cleanup_all_subscriptions (l : list string) (self : WebSocketManager)
    (topic : string) :
  subscriptions (foldl _cleanup_connection self l) !! topic =
    (λ subs, subs ∖ list_to_set l) <$> subscriptions self !! topic.
Proof.
  revert self. induction l as [|c0 l IH]; intros self.
  - simpl. destruct (subscriptions self !! topic) as [subs|]; simpl; [|done].
    f_equal. set_solver.
  - change (foldl _cleanup_connection self (c0 :: l))
      with (foldl _cleanup_connection (_cleanup_connection self c0) l).
    rewrite IH. unfold _cleanup_connection at 1. cbn [subscriptions].
    rewrite lookup_fmap.
    destruct (subscriptions self !! topic) as [subs|]; simpl; [|done].
    f_equal. set_solver.
Qed.

Lemma cleanup_all_unregistered (l : list string) (self : WebSocketManager) (c : string) :
  c ∈ l → unregistered (foldl _cleanup_connection self l) c.
Proof.
  intros Hin. unfold unregistered.
  rewrite cleanup_all_connections, cleanup_all_metadata, !bool_decide_eq_true_2 by done.
  split; [done|split; [done|]]. intros topic subs.
  rewrite cleanup_all_subscriptions.
  destruct (subscriptions self !! topic) as [subs0|]; simpl; [|done].
  intros [= <-]. set_solver.
Qed.

Lemma cleanup_all_untouched (l : list string) (self : WebSocketManager) (c : string) :
  c ∉ l → untouched self (foldl _cleanup_connection self l) c.
Proof.
  intros Hin. unfold untouched.
  rewrite cleanup_all_connections, cleanup_all_metadata, !bool_decide_eq_false_2 by done.
  split; [done|split; [done|]]. intros topic.
  rewrite cleanup_all_subscriptions.
  destruct (subscriptions self !! topic) as [subs0|]; simpl.
  - split.
    + intros (subs & [= <-] & Hc). exists subs0. split; [done|]. set_solver.
    + intros (subs & [= <-] & Hc). eexists. split; [done|]. set_solver.
  - split; by intros (? & ? & _).
Qed.

(** The sweep takes every stale connection out of every registry, and
    leaves the sockets as they were. *)
Lemma cleanup_sweep_unregisters_stale (heartbeat now : Z)
    (st : WebSocketManager * Sockets) (c : string) (md : ConnectionMetadata) :
  connection_metadata st.1 !! c = Some md →
  (heartbeat * 3 * 1000000 < now - last_ping md)%Z →
  unregistered (cleanup_sweep heartbeat now st).1 c
  ∧ (cleanup_sweep heartbeat now st).2 = st.2.
Proof.
  intros Hmd Hstale. split; [|done]. simpl.
  apply cleanup_all_unregistered. unfold stale_connections.
  apply list_elem_of_fmap. exists (c, md). split; [done|].
  apply list_elem_of_filter. split.
  - unfold is_stale. simpl. by apply Z.ltb_lt.
  - by apply elem_of_map_to_list.
Qed.

(** C5 at a failing input: heartbeat 30 s, sweep at 91 s. Connection "c-1",
    silent since instant 0, leaves every registry, "c-2" stays; but the
    sweep closes no socket, where [shutdown] closes the socket of every
    connection it cleans up. *)
Theorem stale_sweep_leaves_socket_open :
  is_stale 30 91000000
    {| connected_at := 0; conn_subscriptions := {[ "pool_updates" ]}; last_ping := 0 |} = true
  ∧ unregistered (cleanup_sweep 30 91000000 one_quiet_connection).1 "c-1"
  ∧ connections (cleanup_sweep 30 91000000 one_quiet_connection).1 !! "c-2" = Some 2
  ∧ closed (cleanup_sweep 30 91000000 one_quiet_connection).2 = ∅
  ∧ closed (shutdown one_quiet_connection).2 = {[ 1; 2 ]}.
Proof.
  split; [done|]. split.
  - apply (cleanup_sweep_unregisters_stale 30 91000000 one_quiet_connection "c-1"
             {| connected_at := 0; conn_subscriptions := {[ "pool_updates" ]};
                last_ping := 0 |}); [by vm_compute|done].
  - split; [by vm_compute|]. split; [done|].
    apply (bool_decide_unpack _). by vm_compute.
Qed.

(** ** The hub: fan-out *)

Lemma get_set {V} (d : list (string * V)) (k k' : string) (v : V) :
  PyDict.get (PyDict.set d k v) k' = if decide (k = k') then Some v else PyDict.get d k'.
Proof.
  induction d as [|[k0 v0] d IH]; simpl.
  - by destruct (decide (k = k')).
  - destruct (decide (k0 = k)) as [->|Hne]; simpl.
    + by destruct (decide (k = k')).
    + rewrite IH. destruct (decide (k0 = k')) as [->|]; [|done].
      by rewrite decide_False.
Qed.

Lemma send_to_connection_cases (st : WebSocketManager * Sockets) (c : string)
    (msg : message) :
  _send_to_connection st c msg =
    (if send_fails st c then _cleanup_connection st.1 c else st.1,
     {| failing := failing st.2; closed := closed st.2;
        sent := sent st.2 ++ option_list (delivery st msg c) |}).
Proof.
  destruct st as [self [f cl sn]]. unfold _send_to_connection, send_fails, delivery.
  simpl. destruct (connections self !! c) as [sock|]; simpl.
  - destruct (send_raises _ sock); simpl; [|done]. by rewrite app_nil_r.
  - by rewrite app_nil_r.
Qed.

Lemma send_fails_after (st : WebSocketManager * Sockets) (c c' : string) (msg : message) :
  c' ≠ c →
  send_fails (_send_to_connection st c msg) c' = send_fails st c'
  ∧ ∀ m, delivery (_send_to_connection st c msg) m c' = delivery st m c'.
Proof.
  intros Hne. rewrite send_to_connection_cases.
  destruct (send_fails st c); unfold send_fails, delivery, send_raises; simpl.
  - rewrite lookup_delete_ne by done. done.
  - done.
Qed.

Lemma send_all (l : list string) (st : WebSocketManager * Sockets) (msg : message) :
  NoDup l →
  foldl (λ st c, _send_to_connection st c msg) st l =
    (foldl _cleanup_connection st.1 (filter (λ c, send_fails st c = true) l),
     {| failing := failing st.2; closed := closed st.2;
        sent := sent st.2 ++ omap (delivery st msg) l |}).
Proof.
  intros Hnd. revert st. induction Hnd as [|c l Hnotin Hnd IH]; intros st.
  - simpl. destruct st as [self [f cl sn]]. simpl. by rewrite app_nil_r.
  - change (foldl _ st (c :: l))
      with (foldl (λ st c, _send_to_connection st c msg) (_send_to_connection st c msg) l).
    rewrite IH.
    rewrite (filter_ext_in (λ c', send_fails (_send_to_connection st c msg) c' = true)
               (λ c', send_fails st c' = true) l).
    2: { intros c' Hc'. destruct (send_fails_after st c c' msg) as [-> _]; [|done].
         by intros ->. }
    rewrite (omap_ext_in (delivery (_send_to_connection st c msg) msg) (delivery st msg) l).
    2: { intros c' Hc'. apply send_fails_after. by intros ->. }
    rewrite send_to_connection_cases. cbn [fst snd failing closed sent].
    rewrite filter_cons. f_equal.
    + by destruct (send_fails st c).
    + f_equal. rewrite <- app_assoc. f_equal.
      change (omap (delivery st msg) (c :: l))
        with (match delivery st msg c with
              | Some y => y :: omap (delivery st msg) l
              | None => omap (delivery st msg) l
              end).
      by destruct (delivery st msg c).
Qed.

(** C6. [broadcast_to_topic(topic, message)]: with no subscriber set for the
    topic the call changes nothing at all; with an empty one the manager and
    the sockets are left as they were and nothing is sent (the caller's
    message only gets its two tags). Otherwise the message, carrying the
    topic and the timestamp, is handed to the network once for every
    subscriber that is registered and whose socket accepts it, and for
    nobody else; a subscriber whose socket raises is taken out of the
    connection map, the metadata and every subscriber set, which stops the
    sends to no other subscriber; and every other connection keeps its place
    in the registries. *)
Theorem publish_fan_out (st : WebSocketManager * Sockets) (topic : string)
    (msg : message) (now : Z) :
  (subscriptions st.1 !! topic = None →
     broadcast_to_topic st topic msg now = (st, msg))
  ∧ (subscriptions st.1 !! topic = Some ∅ →
     (broadcast_to_topic st topic msg now).1 = st)
  ∧ ∀ subs, subscriptions st.1 !! topic = Some subs →
      (broadcast_to_topic st topic msg now).2 = tag_message msg topic now
      ∧ PyDict.get (tag_message msg topic now) "topic" = Some (JStr topic)
      ∧ PyDict.get (tag_message msg topic now) "timestamp" = Some (JTime now)
      ∧ failing (broadcast_to_topic st topic msg now).1.2 = failing st.2
      ∧ closed (broadcast_to_topic st topic msg now).1.2 = closed st.2
      ∧ sent (broadcast_to_topic st topic msg now).1.2 =
          sent st.2 ++ omap (delivery st (tag_message msg topic now)) (elements subs)
      ∧ (∀ c sock, c ∈ subs → connections st.1 !! c = Some sock →
           send_raises st.2 sock = false →
           (sock, tag_message msg topic now)
             ∈ omap (delivery st (tag_message msg topic now)) (elements subs)
           ∧ untouched st.1 (broadcast_to_topic st topic msg now).1.1 c)
      ∧ (∀ c, c ∈ subs → send_fails st c = true →
           unregistered (broadcast_to_topic st topic msg now).1.1 c)
      ∧ (∀ c, ¬ (c ∈ subs ∧ send_fails st c = true) →
           untouched st.1 (broadcast_to_topic st topic msg now).1.1 c).
Proof.
  split; [|split].
  - unfold broadcast_to_topic. by intros ->.
  - unfold broadcast_to_topic. intros ->. by rewrite elements_empty.
  - intros subs Hsubs.
    assert (broadcast_to_topic st topic msg now =
            ((foldl _cleanup_connection st.1
                (filter (λ c, send_fails st c = true) (elements subs)),
              {| failing := failing st.2; closed := closed st.2;
                 sent := sent st.2
                           ++ omap (delivery st (tag_message msg topic now)) (elements subs) |}),
             tag_message msg topic now))
      as ->.
    { unfold broadcast_to_topic. rewrite Hsubs. f_equal. apply send_all, NoDup_elements. }
    cbn [fst snd failing closed sent].
    assert (∀ c, c ∈ filter (λ c, send_fails st c = true) (elements subs)
                 ↔ c ∈ subs ∧ send_fails st c = true) as Hfilter.
    { intros c. rewrite list_elem_of_filter, elem_of_elements. tauto. }
    split; [done|]. split; [|split].
    { unfold tag_message. rewrite !get_set. by rewrite decide_False, decide_True. }
    { unfold tag_message. rewrite get_set. by rewrite decide_True. }
    split; [done|]. split; [done|]. split; [done|].
    split; [|split].
    + intros c sock Hc Hsock Hok. split.
      * apply list_elem_of_omap. exists c. split; [by apply elem_of_elements|].
        unfold delivery. by rewrite Hsock, Hok.
      * apply cleanup_all_untouched. rewrite Hfilter. intros [_ Hf].
        unfold send_fails in Hf. rewrite Hsock in Hf. congruence.
    + intros c Hc Hf. apply cleanup_all_unregistered. by apply Hfilter.
    + intros c Hnot. apply cleanup_all_untouched. by rewrite Hfilter.
Qed.

Lemma publish_fan_out_witness :
  sent (broadcast_to_topic one_broken_connection "pool_updates"
          [("type", JStr "pool_update")] 5).1.2
    = [(2, [("type", JStr "pool_update"); ("topic", JStr "pool_updates");
            ("timestamp", JTime 5)])]
  ∧ unregistered
      (broadcast_to_topic one_broken_connection "pool_updates"
         [("type", JStr "pool_update")] 5).1.1 "c-1".
Proof.
  destruct (publish_fan_out one_broken_connection "pool_updates"
              [("type", JStr "pool_update")] 5) as (_ & _ & Hsome).
  destruct (Hsome {[ "c-1"; "c-2" ]}) as (_ & _ & _ & _ & _ & Hsent & _ & Hfail & _).
  - by vm_compute.
  - split.
    + rewrite Hsent. by vm_compute.
    + apply Hfail; [|by vm_compute].
      apply (bool_decide_unpack _). by vm_compute.
Defined.

(** ** The hub: unsubscribe *)

(** C10, as stated, fails in two ways. A connection that the sweep has taken
    out of the connection map is still served by its handler loop, and its
    unsubscribe request gets no reply at all; and an unsubscribe request
    whose topic is a JSON array makes the handler raise, so the connection
    receives an error message and no confirmation. *)
Lemma unsubscribe_without_confirmation :
  sent (_process_message (cleanup_sweep 30 91000000 one_quiet_connection) "c-1"
          (Some (JObj (unsubscribe_request (JStr "pool_updates")))) 92000000).2 = []
  ∧ _handle_unsubscribe one_quiet_connection "c-2"
      (unsubscribe_request (JArr [JStr "pool_updates"])) 1
    = Raised one_quiet_connection (TypeError_unhashable (JArr [JStr "pool_updates"]))
  ∧ sent (_process_message one_quiet_connection "c-2"
            (Some (JObj (unsubscribe_request (JArr [JStr "pool_updates"])))) 1).2
    = [(2, error_message "Message processing error: unhashable type: 'list'" 1)].
Proof. split; [by vm_compute|]. split; [done|by vm_compute]. Qed.

(** C10, amended. An unsubscribe request whose topic is hashable (a string,
    whether or not it is an available topic or one the connection subscribed
    to, a number, a boolean, or none at all) makes the handler return
    without raising; the only frame it can send is the
    unsubscription_confirmed message for that topic, which goes out when the
    requesting connection is in the connection map and its socket accepts
    it, so no error message is ever sent. [_handle_subscribe], for a
    hashable topic outside the available ones, sends the error message
    "Invalid topic: ..." instead. *)
Theorem unsubscribe_confirms (st : WebSocketManager * Sockets) (cid : string)
    (data : message) (now : Z) :
  hashable (get_topic data) = true →
  (∃ st',
     _handle_unsubscribe st cid data now = Returned st'
     ∧ connections st'.1 = (if send_fails st cid then delete cid (connections st.1)
                            else connections st.1)
     ∧ failing st'.2 = failing st.2
     ∧ closed st'.2 = closed st.2
     ∧ sent st'.2 =
         sent st.2
           ++ option_list
                (delivery st (confirmation "unsubscription_confirmed" (get_topic data) now) cid))
  ∧ (is_available (get_topic data) = false →
     _handle_subscribe st cid data now =
       Returned (_send_error st cid ("Invalid topic: " +:+ py_str (get_topic data)) now)).
Proof.
  intros Hhash. split.
  - destruct st as [self net].
    assert (∃ self',
              _handle_unsubscribe (self, net) cid data now =
                Returned (_send_to_connection (self', net) cid
                            (confirmation "unsubscription_confirmed" (get_topic data) now))
              ∧ connections self' = connections self) as (self' & -> & Hconn).
    { unfold _handle_unsubscribe. rewrite Hhash. cbn [negb].
      eexists. split; [reflexivity|].
      destruct (get_topic data); try reflexivity.
      destruct (subscriptions self !! s); simpl;
        by destruct (connection_metadata self !! cid). }
    eexists. split; [done|].
    rewrite send_to_connection_cases. unfold send_fails, delivery.
    cbn [fst snd failing closed sent]. rewrite Hconn.
    destruct (connections self !! cid) as [sock|]; [|done].
    destruct (send_raises net sock); simpl; by rewrite Hconn.
  - intros Hunavailable. unfold _handle_subscribe. destruct st as [self net].
    rewrite Hhash. simpl. unfold is_available in Hunavailable.
    destruct (get_topic data); try done. by rewrite Hunavailable.
Qed.

Lemma unsubscribe_confirms_witness :
  ∃ st',
    _handle_unsubscribe one_quiet_connection "c-2"
      (unsubscribe_request (JStr "no_such_topic")) 7 = Returned st'
    ∧ sent st'.2 =
        [(2, [("type", JStr "unsubscription_confirmed");
              ("topic", JStr "no_such_topic"); ("timestamp", JTime 7)])].
Proof.
  destruct (unsubscribe_confirms one_quiet_connection "c-2"
              (unsubscribe_request (JStr "no_such_topic")) 7)
    as [(st' & Hret & _ & _ & _ & Hsent) _].
  - reflexivity.
  - exists st'. split; [exact Hret|]. rewrite Hsent. by vm_compute.
Defined.

(** * Further properties of the code *)

(** ** The registry operations *)

Lemma ops_consistent (max_agents : Z) (ops : list pool_op) (self : AgentPool) :
  pool_consistent self → pool_consistent (foldl (apply_op max_agents) self ops).
Proof.
  revert self. induction ops as [|op ops IH]; intros self Hc; simpl; [done|].
  apply IH. by apply apply_op_consistent.
Qed.

Lemma three_created_consistent : pool_consistent three_created.
Proof. apply ops_consistent, new_pool_consistent. Qed.

Lemma del_filter {V} (d : list (string * V)) (k : string) :
  NoDup (PyDict.keys d) → PyDict.del d k = filter (λ kv, kv.1 ≠ k) d.
Proof.
  unfold PyDict.keys. induction d as [|[k' v'] d IH]; [done|].
  rewrite fmap_cons. intros [Hnin Hnd]%NoDup_cons.
  rewrite del_cons, filter_cons. simpl.
  destruct (decide (k' = k)) as [->|Hne].
  - rewrite decide_False by (by intros ?). symmetry. apply filter_keeps_all.
    apply Forall_forall. intros [k1 v1] Hin Heq. simpl in Heq. subst k1.
    apply Hnin. apply list_elem_of_fmap. by exists (k, v1).
  - rewrite decide_True by done. f_equal. by apply IH.
Qed.

(** X1. [remove_agent] on an identifier that the pool does not hold returns
    False and leaves the pool as it was; on a member it returns True, takes
    exactly the entries of that identifier out of the agent map and the
    workload map, keeps the other members in their order, and refreshes the
    metrics. *)
Theorem remove_agent_effect (self : AgentPool) (id : string) :
  pool_consistent self →
  ((id ∉ PyDict.keys (agents self)) →
     remove_agent self id = NotFound ∧ pool_after_remove self id = self)
  ∧ (id ∈ PyDict.keys (agents self) →
     ∃ p, remove_agent self id = Removed p
        ∧ agents p = filter (λ kv, kv.1 ≠ id) (agents self)
        ∧ agent_workloads p = delete id (agent_workloads self)
        ∧ task_queue p = task_queue self
        ∧ round_robin_index p = round_robin_index self
        ∧ optimization_cycles p = optimization_cycles self
        ∧ total_agents (metrics p) = length (agents self) - 1
        ∧ tasks_in_queue (metrics p) = length (task_queue self)).
Proof.
  intros Hc. split.
  - intros Hnin. unfold pool_after_remove.
    destruct (remove_agent_cases self id Hc) as [[_ ->]|[Hin _]]; done.
  - intros Hin.
    destruct (remove_agent_cases self id Hc)
      as [[Hnin _]|(_ & p & Hrem & Hag & Hwl & Hq & Hrr & Hcy)]; [done|].
    exists p. rewrite Hag, del_filter by apply Hc.
    split; [done|]. split; [done|]. split; [done|]. split; [done|].
    split; [done|]. split; [done|].
    unfold remove_agent in Hrem.
    destruct (PyDict.get (agents self) id); [|done]. simpl in Hrem.
    destruct (agent_workloads self !! id); [|done].
    injection Hrem as <-. simpl. split; [|done].
    by rewrite length_del, bool_decide_eq_true_2.
Qed.

Lemma remove_agent_effect_witness :
  remove_agent three_created "a-9" = NotFound
  ∧ ∃ p, remove_agent three_created "a-2" = Removed p
       ∧ PyDict.keys (agents p) = ["a-1"; "a-3"].
Proof.
  destruct (remove_agent_effect three_created "a-9" three_created_consistent)
    as [Hmissing _].
  destruct (remove_agent_effect three_created "a-2" three_created_consistent)
    as [_ Hmember].
  split.
  - apply Hmissing. apply (bool_decide_unpack _). vm_compute. exact I.
  - destruct Hmember as (p & Hrem & Hag & _).
    + apply (bool_decide_unpack _). vm_compute. exact I.
    + exists p. split; [exact Hrem|]. rewrite Hag. vm_compute. reflexivity.
Defined.




(** ** What selection returns *)

Lemma select_best_agent_member (agents : list HyperAgent) (tt : string) :
  agents ≠ [] → ∃ a, _select_best_agent agents tt = Some a ∧ a ∈ agents.
Proof.
  intros Hne.
  destruct (best_loop_invariant tt agents [] None 0%Q) as [bs Hinv].
  { split; [done|]. intros b Hb. by apply elem_of_nil in Hb. }
  simpl in Hinv. unfold _select_best_agent.
  destruct (best_loop agents tt None 0%Q) as [a|].
  - destruct Hinv as (i & Hi & _). exists a. split; [done|].
    by eapply list_elem_of_lookup_2.
  - destruct agents as [|a agents]; [done|]. exists a. split; [done|left].
Qed.

Lemma candidates_subset (agents : list HyperAgent) (tt : string) (a : HyperAgent) :
  a ∈ candidates agents tt → a ∈ agents.
Proof.
  unfold candidates.
  destruct (filter (λ a, is_capable a tt = true) agents) as [|c l] eqn:Hf; [done|].
  rewrite <- Hf. by intros [_ ?]%list_elem_of_filter.
Qed.

Lemma select_round_robin_member (agents : list HyperAgent) (i : nat) :
  agents ≠ [] →
  ∃ a, _select_round_robin_agent agents i = (Some a, S i) ∧ a ∈ agents.
Proof.
  intros Hne. unfold _select_round_robin_agent.
  assert (i mod length agents < length agents) as Hlt.
  { apply Nat.mod_upper_bound. by destruct agents. }
  apply lookup_lt_is_Some in Hlt as [a Ha].
  exists a. rewrite Ha. split; [by destruct agents|]. by eapply list_elem_of_lookup_2.
Qed.

Lemma active_list_member (self : AgentPool) (a : HyperAgent) :
  a ∈ active_list self → a ∈ PyDict.values (agents self) ∧ status a = active.
Proof. by intros [? ?]%list_elem_of_filter. Qed.

Lemma select_agent_by_active_list (self : AgentPool) (task : Task) :
  _select_agent_for_task self task =
    match active_list self with
    | [] => (None, self)
    | _ =>
        if (5 <=? priority task)%Z then
          (_select_best_agent (active_list self) (task_type task), self)
        else if (3 <=? priority task)%Z then
          (_select_least_loaded_capable_agent (agent_workloads self)
             (active_list self) (task_type task), self)
        else
          ((_select_round_robin_agent (active_list self) (round_robin_index self)).1,
           with_round_robin_index self
             (_select_round_robin_agent (active_list self) (round_robin_index self)).2)
    end.
Proof.
  unfold _select_agent_for_task.
  destruct (agents self) as [|kv d] eqn:Hag.
  { unfold active_list. by rewrite Hag. }
  destruct (active_list self); [done|].
  destruct (5 <=? priority task)%Z; [done|].
  destruct (3 <=? priority task)%Z; [done|].
  by destruct (_select_round_robin_agent _ _).
Qed.

(** X4. [_select_agent_for_task] returns no executor exactly when the pool
    has no active member; an executor it returns is a member of the pool
    whose status is active, whatever the priority; and the call changes
    nothing of the pool but the round-robin cursor, which moves by one
    exactly for a task of priority below 3 that gets an executor. *)
Theorem selection_returns_active_member (self : AgentPool) (task : Task) :
  ((_select_agent_for_task self task).1 = None ↔ active_list self = [])
  ∧ (∀ a, (_select_agent_for_task self task).1 = Some a →
       a ∈ PyDict.values (agents self) ∧ status a = active)
  ∧ (_select_agent_for_task self task).2 =
      with_round_robin_index self
        (if bool_decide (active_list self ≠ [] ∧ (priority task < 3)%Z)
         then S (round_robin_index self) else round_robin_index self).
Proof.
  assert (with_round_robin_index self (round_robin_index self) = self) as Hsame
    by (by destruct self).
  rewrite select_agent_by_active_list.
  destruct (active_list self) as [|x l] eqn:Hact.
  { rewrite bool_decide_eq_false_2 by (by intros [? _]). rewrite Hsame. done. }
  rewrite <- Hact in *. assert (active_list self ≠ []) as Hne by (by rewrite Hact).
  destruct (5 <=? priority task)%Z eqn:H5; [|destruct (3 <=? priority task)%Z eqn:H3].
  - apply Z.leb_le in H5.
    rewrite bool_decide_eq_false_2 by lia. rewrite Hsame.
    destruct (select_best_agent_member (active_list self) (task_type task) Hne)
      as (a & -> & Ha). cbn [fst snd].
    split; [split; [done|by intros ?]|]. split; [|done].
    intros ? [= <-]. by apply active_list_member.
  - apply Z.leb_le in H3.
    rewrite bool_decide_eq_false_2 by lia. rewrite Hsame.
    destruct (select_least_loaded_first_min (agent_workloads self) (active_list self)
                (task_type task) Hne) as (i & a & -> & Hi & _). cbn [fst snd].
    split; [split; [done|by intros ?]|]. split; [|done].
    intros ? [= <-]. apply active_list_member. eapply candidates_subset.
    by eapply list_elem_of_lookup_2.
  - apply Z.leb_gt in H5, H3.
    rewrite bool_decide_eq_true_2 by (split; [done|lia]).
    destruct (select_round_robin_member (active_list self) (round_robin_index self) Hne)
      as (a & -> & Ha). cbn [fst snd].
    split; [split; [done|by intros ?]|]. split; [|done].
    intros ? [= <-]. by apply active_list_member.
Qed.

(** ** The queue *)

Lemma submit_tasks_queue (ts : list Task) (self : AgentPool) :
  task_queue (foldl submit_task self ts) = task_queue self ++ ts
  ∧ agents (foldl submit_task self ts) = agents self
  ∧ agent_workloads (foldl submit_task self ts) = agent_workloads self.
Proof.
  revert self. induction ts as [|t ts IH]; intros self; simpl.
  - by rewrite app_nil_r.
  - destruct (IH (submit_task self t)) as (-> & -> & ->). simpl.
    by rewrite <- app_assoc.
Qed.

(** X5. The queue is first-in first-out and priority plays no part in it:
    [submit_task] appends at the tail and records the new length in the
    metrics; a worker always takes the head, and what is left is the rest of
    the queue, with the task put back at the tail when no executor was
    found. *)
Theorem queue_is_fifo (self : AgentPool) (ts : list Task) (t : Task) :
  task_queue (foldl submit_task self (ts ++ [t])) = task_queue self ++ ts ++ [t]
  ∧ tasks_in_queue (metrics (foldl submit_task self (ts ++ [t])))
      = length (task_queue self) + length ts + 1
  ∧ (worker_dispatch self = None ↔ task_queue self = [])
  ∧ ∀ r p, worker_dispatch self = Some (r, p) →
      ∃ head rest,
        task_queue self = head :: rest
        ∧ task_queue p = match r with Requeued => rest ++ [head] | _ => rest end
        ∧ match r with
          | Dispatched id =>
              ∃ a, (_select_agent_for_task (with_task_queue self rest) head).1 = Some a
                   ∧ agent_id a = id
          | Requeued => active_list self = []
          | WorkerError => True
          end.
Proof.
  split; [|split; [|split]].
  - destruct (submit_tasks_queue (ts ++ [t]) self) as [-> _]. done.
  - rewrite foldl_app. simpl.
    destruct (submit_tasks_queue ts self) as [-> _].
    rewrite !length_app. simpl. lia.
  - unfold worker_dispatch. destruct (task_queue self) as [|head rest]; [done|].
    split; [|done].
    destruct (_select_agent_for_task _ head) as [[a|] q]; [|done].
    by destruct (agent_workloads q !! agent_id a).
  - intros r p. unfold worker_dispatch.
    destruct (task_queue self) as [|head rest] eqn:Hq; [done|].
    pose proof (selection_is_none := select_agent_registry (with_task_queue self rest) head).
    destruct selection_is_none as [_ Hqueue].
    destruct (_select_agent_for_task (with_task_queue self rest) head) as [agent q] eqn:Hsel.
    simpl in Hqueue. destruct agent as [a|].
    + destruct (agent_workloads q !! agent_id a) as [n|].
      * intros [= <- <-]. exists head, rest. simpl. rewrite Hqueue.
        split; [done|]. split; [done|]. exists a. by rewrite Hsel.
      * intros [= <- <-]. exists head, rest. by rewrite Hqueue.
    + intros [= <- <-]. exists head, rest. simpl. rewrite Hqueue.
      split; [done|]. split; [done|].
      assert ((_select_agent_for_task (with_task_queue self rest) head).1 = None) as Hnone
        by (by rewrite Hsel).
      rewrite select_agent_by_active_list in Hnone.
      change (active_list (with_task_queue self rest)) with (active_list self) in Hnone.
      destruct (active_list self) as [|x l] eqn:Hact; [done|]. exfalso.
      assert (active_list self ≠ []) as Hne by (by rewrite Hact).
      rewrite <- Hact in Hnone.
      destruct (5 <=? priority head)%Z; [|destruct (3 <=? priority head)%Z].
      * destruct (select_best_agent_member (active_list self) (task_type head) Hne)
          as (a & Ha & _). by rewrite Ha in Hnone.
      * destruct (select_least_loaded_first_min (agent_workloads self) (active_list self)
                    (task_type head) Hne) as (i & a & Ha & _).
        cbn [fst agent_workloads with_task_queue] in Hnone. by rewrite Ha in Hnone.
      * destruct (select_round_robin_member (active_list self) (round_robin_index self) Hne)
          as (a & Ha & _).
        cbn [fst round_robin_index with_task_queue] in Hnone. by rewrite Ha in Hnone.
Qed.

(** ** Well-formed pools *)

Section dict_more.
Context {V : Type}.
Implicit Types (d : list (string * V)) (k : string) (v : V).

Lemma del_sublist d k : PyDict.del d k `sublist_of` d.
Proof.
  induction d as [|[k' v'] d IH]; [done|]. rewrite del_cons.
  destruct (decide (k' = k)); [by apply sublist_cons|by apply sublist_skip].
Qed.

Lemma Forall_set (P : string * V → Prop) d k v :
  Forall P d → P (k, v) → Forall P (PyDict.set d k v).
Proof.
  intros Hd Hv. induction Hd as [|[k' v'] d Hx Hd IH]; simpl.
  - by constructor.
  - destruct (decide (k' = k)) as [->|]; by constructor.
Qed.

Lemma get_elem_of d k v : PyDict.get d k = Some v → (k, v) ∈ d.
Proof.
  induction d as [|[k' v'] d IH]; simpl; [done|].
  destruct (decide (k' = k)) as [->|].
  - intros [= ->]. left.
  - intros ?. right. by apply IH.
Qed.

Lemma fmap_values_set {B} (f : V → B) d k v v' :
  PyDict.get d k = Some v → f v' = f v →
  f <$> PyDict.values (PyDict.set d k v') = f <$> PyDict.values d.
Proof.
  unfold PyDict.values. induction d as [|[k0 v0] d IH]; simpl; [done|].
  destruct (decide (k0 = k)) as [->|].
  - intros [= ->] Hf. simpl. by rewrite Hf.
  - intros Hg Hf. simpl. f_equal. by apply IH.
Qed.

Lemma elem_of_del_or d k (kv : string * V) :
  kv ∈ d → kv ∈ PyDict.del d k ∨ kv.1 = k.
Proof.
  induction d as [|[k' v'] d IH]; [by intros ?%elem_of_nil|].
  rewrite del_cons. intros [->|Hin]%elem_of_cons.
  - destruct (decide (k' = k)) as [->|]; [by right|left; left].
  - destruct (decide (k' = k)) as [->|]; [by left|].
    destruct (IH Hin) as [?|?]; [left; by right|by right].
Qed.
End dict_more.

Lemma select_agent_pool (self : AgentPool) (task : Task) :
  ∃ i, (_select_agent_for_task self task).2 = with_round_robin_index self i.
Proof.
  rewrite select_agent_by_active_list.
  assert (with_round_robin_index self (round_robin_index self) = self) as Hsame
    by (by destruct self).
  destruct (active_list self); [by exists (round_robin_index self)|].
  destruct (5 <=? priority task)%Z; [by exists (round_robin_index self)|].
  destruct (3 <=? priority task)%Z; [by exists (round_robin_index self)|].
  by eexists.
Qed.

Lemma worker_dispatch_agents (self p : AgentPool) (r : dispatch_result) :
  worker_dispatch self = Some (r, p) → agents p = agents self.
Proof.
  unfold worker_dispatch. destruct (task_queue self) as [|task rest]; [done|].
  destruct (select_agent_pool (with_task_queue self rest) task) as [i Hp].
  destruct (_select_agent_for_task (with_task_queue self rest) task) as [agent q].
  simpl in Hp. subst q. destruct agent as [a|]; [|by intros [= <- <-]].
  simpl. destruct (agent_workloads self !! agent_id a); by intros [= <- <-].
Qed.

Lemma worker_dispatch_no_error (self : AgentPool) (r : dispatch_result) (p : AgentPool) :
  pool_consistent self → ids_match self →
  worker_dispatch self = Some (r, p) → r ≠ WorkerError.
Proof.
  intros Hc Hids. unfold worker_dispatch.
  destruct (task_queue self) as [|task rest]; [done|].
  set (self0 := with_task_queue self rest).
  destruct (select_agent_pool self0 task) as [i Hp].
  assert (∀ a, (_select_agent_for_task self0 task).1 = Some a →
               a ∈ PyDict.values (agents self)) as Hmem.
  { intros a Ha. rewrite select_agent_by_active_list in Ha.
    destruct (active_list self0) as [|x l] eqn:Hact; [done|].
    assert (active_list self0 ≠ []) as Hne by (by rewrite Hact).
    rewrite <- Hact in Ha. apply (active_list_member self0).
    destruct (5 <=? priority task)%Z; [|destruct (3 <=? priority task)%Z].
    - destruct (select_best_agent_member (active_list self0) (task_type task) Hne)
        as (b & Hb & Hin). cbn [fst] in Ha. rewrite Hb in Ha. by injection Ha as <-.
    - destruct (select_least_loaded_first_min (agent_workloads self0) (active_list self0)
                  (task_type task) Hne) as (j & b & Hb & Hj & _).
      cbn [fst] in Ha. rewrite Hb in Ha. injection Ha as <-.
      eapply candidates_subset. by eapply list_elem_of_lookup_2.
    - destruct (select_round_robin_member (active_list self0) (round_robin_index self0) Hne)
        as (b & Hb & Hin). cbn [fst] in Ha. rewrite Hb in Ha. by injection Ha as <-. }
  destruct (_select_agent_for_task self0 task) as [agent q].
  simpl in Hp. subst q. destruct agent as [a|]; [|by intros [= <- <-]].
  simpl. specialize (Hmem a eq_refl).
  apply list_elem_of_fmap in Hmem as ([k a'] & -> & Hin). simpl.
  assert (agent_id a' = k) as Hk.
  { unfold ids_match in Hids. rewrite Forall_forall in Hids. by apply (Hids (k, a')). }
  assert (is_Some (agent_workloads self !! agent_id a')) as [n ->].
  { apply consistent_lookup; [done|]. rewrite Hk.
    apply list_elem_of_fmap. by exists (k, a'). }
  by intros [= <- <-].
Qed.

Lemma create_agent_wf (max_agents : Z) (self p : AgentPool) (nm id : string) :
  pool_wf self → id ∉ PyDict.keys (agents self) →
  create_agent max_agents self nm id = Created p → pool_wf p.
Proof.
  intros [Hids Hnames] Hfresh (_ & Hnm & Hag & _)%create_agent_Created.
  unfold pool_wf, ids_match, member_names, PyDict.values in *.
  rewrite Hag, set_absent by done. split.
  - apply Forall_app. split; [done|]. by constructor.
  - rewrite !fmap_app. simpl. apply NoDup_app. split; [done|].
    split; [|apply NoDup_singleton].
    intros x Hx ->%list_elem_of_singleton. done.
Qed.

Lemma pool_after_remove_agents (self : AgentPool) (id : string) :
  agents (pool_after_remove self id) = agents self
  ∨ agents (pool_after_remove self id) = PyDict.del (agents self) id.
Proof.
  unfold pool_after_remove, remove_agent.
  destruct (PyDict.get (agents self) id); [|by left].
  simpl. destruct (agent_workloads self !! id); by right.
Qed.

Lemma sublist_wf (self p : AgentPool) :
  agents p `sublist_of` agents self → pool_wf self → pool_wf p.
Proof.
  intros Hsub [Hids Hnames]. split.
  - unfold ids_match in *. rewrite Forall_forall in *.
    intros kv Hin. apply Hids. by eapply elem_of_sublist.
  - unfold member_names, PyDict.values in *.
    eapply sublist_NoDup; [exact Hnames|]. by do 2 apply fmap_sublist.
Qed.

Lemma pool_after_remove_sublist (self : AgentPool) (id : string) :
  agents (pool_after_remove self id) `sublist_of` agents self.
Proof.
  destruct (pool_after_remove_agents self id) as [-> | ->]; [done|apply del_sublist].
Qed.

Lemma remove_loop_sublist (snapshot : list HyperAgent) (self : AgentPool) :
  agents (remove_underperforming_loop snapshot self).1 `sublist_of` agents self.
Proof.
  revert self. induction snapshot as [|a l IH]; intros self; simpl; [done|].
  destruct (underperforming self a); [|by apply IH].
  specialize (IH (pool_after_remove self (agent_id a))).
  destruct (remove_underperforming_loop l _). simpl in *.
  etrans; [exact IH|apply pool_after_remove_sublist].
Qed.

Lemma scale_down_sublist (self : AgentPool) :
  agents (scale_down self).1 `sublist_of` agents self.
Proof.
  unfold scale_down. case_bool_decide; [|done]. apply remove_loop_sublist.
Qed.

Lemma boost_keeps_identity (a : HyperAgent) :
  agent_id (boost_learning_rate a) = agent_id a
  ∧ agent_name (boost_learning_rate a) = agent_name a
  ∧ status (boost_learning_rate a) = status a
  ∧ capabilities (boost_learning_rate a) = capabilities a
  ∧ tasks_completed (boost_learning_rate a) = tasks_completed a
  ∧ success_rate (boost_learning_rate a) = success_rate a.
Proof. unfold boost_learning_rate. by destruct (Qlt_le_dec _ _). Qed.

Lemma optimize_capabilities_wf (self : AgentPool) :
  pool_wf self → pool_wf (_optimize_agent_capabilities self).
Proof.
  intros [Hids Hnames]. split.
  - unfold ids_match in *. simpl. apply Forall_fmap.
    eapply Forall_impl; [exact Hids|]. intros [k a] Hk. simpl in *.
    by destruct (boost_keeps_identity a) as [-> _].
  - unfold member_names, PyDict.values in *. simpl.
    rewrite <- !list_fmap_compose in *.
    erewrite list_fmap_ext; [exact Hnames|].
    intros i [k a] _. simpl. by destruct (boost_keeps_identity a) as (_ & -> & _).
Qed.

Lemma scale_up_wf (max_agents : Z) (self : AgentPool) (id : string) :
  pool_wf self → id ∉ PyDict.keys (agents self) →
  pool_wf (scale_up max_agents self id).1.
Proof.
  intros Hwf Hfresh. unfold scale_up. destruct (_ && _); [|done].
  destruct (create_agent _ _ _ _) eqn:Hcr; simpl; [|done..].
  by eapply create_agent_wf.
Qed.

Lemma optimize_cycle_wf (max_agents : Z) (self : AgentPool) (id : string) :
  pool_wf self → id ∉ PyDict.keys (agents self) →
  pool_wf (optimize_cycle max_agents self id).1.
Proof.
  intros Hwf Hfresh. rewrite optimize_cycle_pool.
  apply optimize_capabilities_wf.
  eapply sublist_wf; [apply scale_down_sublist|]. by apply scale_up_wf.
Qed.

Lemma set_agent_stats_wf (self : AgentPool) (id : string)
    (caps : list AgentCapability) (dn : Z) (rate lr : Q) :
  pool_wf self → pool_wf (set_agent_stats self id caps dn rate lr).
Proof.
  intros [Hids Hnames]. unfold set_agent_stats.
  destruct (PyDict.get (agents self) id) as [a|] eqn:Hg; [|done]. split.
  - unfold ids_match in *. simpl. apply Forall_set; [done|]. simpl.
    rewrite Forall_forall in Hids. by apply (Hids (id, a)), get_elem_of.
  - unfold member_names in *. simpl.
    by rewrite (fmap_values_set agent_name _ _ a).
Qed.

Lemma step_wf (max_agents : Z) (s s' : System) (ev : event) (out : list observation) :
  pool_wf (pool s) →
  step max_agents s ev = Some (s', out) →
  pool_wf (pool s').
Proof.
  intros Hwf. destruct ev as [nm id|id|task| |id|id| |id caps dn rate lr]; simpl.
  - unfold fresh. case_bool_decide as Hfresh; [|done]. simpl.
    destruct (bool_decide (id ∉ processing s)); [|done].
    destruct (create_agent _ _ _ _) eqn:Hcr; intros [= <- <-]; [|done..].
    by eapply create_agent_wf.
  - intros [= <- <-]. simpl.
    eapply sublist_wf; [apply pool_after_remove_sublist|done].
  - by intros [= <- <-].
  - case_bool_decide; [|done].
    destruct (worker_dispatch (pool s)) as [[r p]|] eqn:Hd; [|done].
    apply worker_dispatch_agents in Hd.
    assert (pool_wf p) as Hp.
    { destruct Hwf as [Hids Hnames]. unfold pool_wf, ids_match, member_names.
      by rewrite Hd. }
    destruct r; by intros [= <- <-].
  - case_bool_decide; [|done]. intros [= <- <-]. simpl.
    destruct (worker_complete_cases (pool s) id) as [Hag _].
    destruct Hwf as [Hids Hnames]. unfold pool_wf, ids_match, member_names.
    by rewrite Hag.
  - unfold fresh. case_bool_decide as Hfresh; [|done]. simpl.
    destruct (bool_decide (id ∉ processing s)); [|done].
    intros [= <- <-]. simpl. by apply optimize_cycle_wf.
  - by intros [= <- <-].
  - intros [= <- <-]. simpl. by apply set_agent_stats_wf.
Qed.

Lemma run_wf (max_agents : Z) (evs : list event) (s s' : System)
    (out : list observation) :
  pool_wf (pool s) →
  run max_agents s evs = Some (s', out) →
  pool_wf (pool s').
Proof.
  revert s out. induction evs as [|ev evs IH]; intros s out Hwf.
  - by intros [= <- <-].
  - intros (s1 & o1 & o2 & Hstep & Hrun & _)%run_cons.
    eapply IH; [|exact Hrun]. by eapply step_wf.
Qed.

Lemma new_system_ok :
  pool_ok (pool new_system) (processing new_system) ∧ pool_wf (pool new_system).
Proof.
  split; [split; [apply new_pool_consistent|]|split].
  - intros i Hi. by apply elem_of_nil in Hi.
  - by constructor.
  - by constructor.
Qed.



(** ** Conservation of tasks *)

Lemma pool_after_remove_queue (self : AgentPool) (id : string) :
  task_queue (pool_after_remove self id) = task_queue self.
Proof.
  unfold pool_after_remove, remove_agent.
  destruct (PyDict.get (agents self) id); [|done].
  simpl. by destruct (agent_workloads self !! id).
Qed.

Lemma remove_loop_queue (snapshot : list HyperAgent) (self : AgentPool) :
  task_queue (remove_underperforming_loop snapshot self).1 = task_queue self.
Proof.
  revert self. induction snapshot as [|a l IH]; intros self; simpl; [done|].
  destruct (underperforming self a); [|by apply IH].
  specialize (IH (pool_after_remove self (agent_id a))).
  destruct (remove_underperforming_loop l _). simpl in *.
  by rewrite IH, pool_after_remove_queue.
Qed.

Lemma optimize_cycle_queue (max_agents : Z) (self : AgentPool) (id : string) :
  task_queue (optimize_cycle max_agents self id).1 = task_queue self.
Proof.
  rewrite optimize_cycle_pool. simpl.
  set (self1 := with_optimization_cycles self _).
  assert (task_queue (scale_up max_agents self1 id).1 = task_queue self) as Hup.
  { unfold scale_up. destruct (_ && _); [|done].
    destruct (create_agent _ _ _ _) eqn:Hcr; [|done..].
    by apply create_agent_Created in Hcr as (_ & _ & _ & _ & Hq & _). }
  rewrite <- Hup. unfold scale_down. case_bool_decide; [|done].
  apply remove_loop_queue.
Qed.

Lemma worker_complete_queue (self : AgentPool) (id : string) :
  task_queue (worker_complete self id) = task_queue self.
Proof. unfold worker_complete. by destruct (agent_workloads self !! id). Qed.

Lemma set_agent_stats_queue (self : AgentPool) (id : string)
    (caps : list AgentCapability) (dn : Z) (rate lr : Q) :
  task_queue (set_agent_stats self id caps dn rate lr) = task_queue self.
Proof. unfold set_agent_stats. by destruct (PyDict.get (agents self) id). Qed.

Lemma worker_dispatch_queue (self p : AgentPool) (r : dispatch_result) :
  worker_dispatch self = Some (r, p) →
  match r with
  | Dispatched _ | WorkerError => S (length (task_queue p)) = length (task_queue self)
  | Requeued => length (task_queue p) = length (task_queue self)
  end.
Proof.
  unfold worker_dispatch. destruct (task_queue self) as [|task rest]; [done|].
  destruct (select_agent_pool (with_task_queue self rest) task) as [i Hp].
  destruct (_select_agent_for_task (with_task_queue self rest) task) as [agent q].
  simpl in Hp. subst q. destruct agent as [a|].
  - simpl. destruct (agent_workloads self !! agent_id a); by intros [= <- <-].
  - intros [= <- <-]. simpl. rewrite length_app. simpl. lia.
Qed.

Lemma step_conserves (max_agents : Z) (s s' : System) (ev : event)
    (out : list observation) :
  pool_consistent (pool s) → ids_match (pool s) →
  step max_agents s ev = Some (s', out) →
  length (task_queue (pool s')) + total_dispatches out
    = length (task_queue (pool s)) + submits [ev].
Proof.
  intros Hc Hids. unfold total_dispatches, submits.
  destruct ev as [nm id|id|task| |id|id| |id caps dn rate lr]; simpl.
  - destruct (fresh s id); [|done].
    destruct (create_agent _ _ _ _) eqn:Hcr; intros [= <- <-]; [|done..].
    simpl. by apply create_agent_Created in Hcr as (_ & _ & _ & _ & -> & _).
  - intros [= <- <-]. simpl. by rewrite pool_after_remove_queue.
  - intros [= <- <-]. simpl. rewrite length_app. simpl. lia.
  - case_bool_decide; [|done].
    destruct (worker_dispatch (pool s)) as [[r p]|] eqn:Hd; [|done].
    pose proof (worker_dispatch_no_error _ _ _ Hc Hids Hd) as Hne.
    apply worker_dispatch_queue in Hd.
    destruct r; [| |done]; intros [= <- <-]; simpl; lia.
  - case_bool_decide; [|done]. intros [= <- <-]. simpl.
    by rewrite worker_complete_queue.
  - destruct (fresh s id); [|done]. intros [= <- <-]. simpl.
    by rewrite optimize_cycle_queue.
  - by intros [= <- <-].
  - intros [= <- <-]. simpl. by rewrite set_agent_stats_queue.
Qed.

Lemma run_conserves (max_agents : Z) (evs : list event) (s s' : System)
    (out : list observation) :
  pool_ok (pool s) (processing s) → pool_wf (pool s) →
  run max_agents s evs = Some (s', out) →
  length (task_queue (pool s')) + total_dispatches out
    = length (task_queue (pool s)) + submits evs.
Proof.
  revert s out. induction evs as [|ev evs IH]; intros s out Hok Hwf.
  - by intros [= <- <-].
  - intros (s1 & o1 & o2 & Hstep & Hrun & ->)%run_cons.
    pose proof (step_conserves _ _ _ _ _ (proj1 Hok) (proj1 Hwf) Hstep) as H1.
    apply IH in Hrun; [|by eapply step_ok|by eapply step_wf].
    unfold total_dispatches, submits in *.
    rewrite filter_app, length_app.
    change (ev :: evs) with ([ev] ++ evs). rewrite filter_app, length_app. lia.
Qed.

(** X7. No task is lost: in every run of the pool, the tasks submitted are
    exactly the tasks still queued plus the tasks handed to an executor, and
    from a state so reached a worker that takes a task never fails on the
    workload counter. *)
Theorem no_task_is_lost (max_agents : Z) (evs : list event) (s : System)
    (out : list observation) :
  run max_agents new_system evs = Some (s, out) →
  length (task_queue (pool s)) + total_dispatches out = submits evs
  ∧ ∀ r p, worker_dispatch (pool s) = Some (r, p) → r ≠ WorkerError.
Proof.
  intros Hrun. destruct new_system_ok as [Hok Hwf]. split.
  - by rewrite (run_conserves _ _ _ _ _ Hok Hwf Hrun).
  - intros r p. apply worker_dispatch_no_error.
    + by apply (run_ok _ _ _ _ _ Hok Hrun).
    + by apply (run_wf _ _ _ _ _ Hwf Hrun).
Qed.

Lemma no_task_is_lost_witness :
  ∃ s out,
    run 100 new_system late_executor = Some (s, out)
    ∧ out = [ObsDispatch "a-1"; ObsComplete "a-1"; ObsDispatch "a-1"]
    ∧ task_queue (pool s) = []
    ∧ length (task_queue (pool s)) + total_dispatches out = submits late_executor.
Proof.
  set (r := default (new_system, []) (run 100 new_system late_executor)).
  assert (run 100 new_system late_executor = Some (r.1, r.2)) as Hrun
    by (vm_compute; reflexivity).
  exists r.1, r.2. split; [exact Hrun|].
  split; [vm_compute; reflexivity|]. split; [vm_compute; reflexivity|].
  apply (no_task_is_lost 100 late_executor r.1 r.2 Hrun).
Defined.

(** ** The removal of underperformers *)

Lemma keys_NoDup_agree {V} (d : list (string * V)) (k : string) (v v' : V) :
  NoDup (PyDict.keys d) → (k, v) ∈ d → (k, v') ∈ d → v = v'.
Proof.
  unfold PyDict.keys. induction d as [|[k0 v0] d IH]; [by intros _ ?%elem_of_nil|].
  rewrite fmap_cons. intros [Hnin Hnd]%NoDup_cons.
  intros [Heq|Hin]%elem_of_cons [Heq'|Hin']%elem_of_cons.
  - congruence.
  - injection Heq as -> ->. destruct Hnin. apply list_elem_of_fmap. by exists (k0, v').
  - injection Heq' as -> ->. destruct Hnin. apply list_elem_of_fmap. by exists (k0, v).
  - by apply IH.
Qed.

Lemma not_elem_of_del {V} (d : list (string * V)) (k : string) (v : V) :
  NoDup (PyDict.keys d) → (k, v) ∉ PyDict.del d k.
Proof.
  intros Hnd Hin.
  assert (k ∈ PyDict.keys (PyDict.del d k)) as Hk.
  { apply list_elem_of_fmap. by exists (k, v). }
  rewrite keys_del in Hk by done. by apply list_elem_of_filter in Hk as [? _].
Qed.

Lemma pool_after_remove_del (self : AgentPool) (id : string) :
  agents (pool_after_remove self id) = PyDict.del (agents self) id.
Proof.
  unfold pool_after_remove, remove_agent.
  destruct (PyDict.get (agents self) id) eqn:Hg.
  - simpl. by destruct (agent_workloads self !! id).
  - apply get_None in Hg. unfold PyDict.keys in Hg.
    induction (agents self) as [|[k v] d IH]; [done|].
    rewrite fmap_cons in Hg. apply not_elem_of_cons in Hg as [Hne Hnin].
    rewrite del_cons, decide_False by done. simpl in *. by rewrite <- IH.
Qed.

Lemma underperforming_poor (self : AgentPool) (a : HyperAgent) :
  underperforming self a = true ↔ poor a ∧ 3 < length (agents self).
Proof.
  unfold underperforming, poor. rewrite !andb_true_iff, bool_decide_eq_true, Z.ltb_lt.
  destruct (Qlt_le_dec (success_rate a) (3 # 10)) as [Hlt|Hge].
  - naive_solver.
  - apply Qle_not_lt in Hge. naive_solver.
Qed.

Lemma remove_loop_spec (snapshot : list HyperAgent) (self : AgentPool) :
  pool_consistent self →
  NoDup (agent_id <$> snapshot) →
  (∀ a, a ∈ snapshot → (agent_id a, a) ∈ agents self) →
  (∀ kv, kv ∈ agents self →
     kv ∉ agents (remove_underperforming_loop snapshot self).1 → poor kv.2)
  ∧ (∀ a, a ∈ snapshot → poor a →
       (agent_id a, a) ∈ agents (remove_underperforming_loop snapshot self).1 →
       length (agents (remove_underperforming_loop snapshot self).1) ≤ 3)
  ∧ length (agents self)
      = length (agents (remove_underperforming_loop snapshot self).1)
        + length (remove_underperforming_loop snapshot self).2.
Proof.
  revert self. induction snapshot as [|a l IH]; intros self Hc Hnd Hmem.
  { simpl. split; [done|]. split; [|lia]. intros a Ha. by apply elem_of_nil in Ha. }
  rewrite fmap_cons in Hnd. apply NoDup_cons in Hnd as [Hal Hnd].
  assert (∀ b, b ∈ l → (agent_id b, b) ∈ agents self) as Hmem'.
  { intros b Hb. apply Hmem. by right. }
  pose proof (Hmem a ltac:(left)) as Ha.
  simpl. destruct (underperforming self a) eqn:Hu.
  - apply underperforming_poor in Hu as [Hpoor Hlen].
    pose proof (remove_loop_sublist l (pool_after_remove self (agent_id a))) as Hsub.
    destruct (IH (pool_after_remove self (agent_id a))) as (Hr & Hs & Hn).
    { by apply pool_after_remove_consistent. }
    { done. }
    { intros b Hb. rewrite pool_after_remove_del.
      destruct (elem_of_del_or _ (agent_id a) _ (Hmem' b Hb)) as [?|Heq]; [done|].
      simpl in Heq. destruct Hal. apply list_elem_of_fmap. by exists b. }
    destruct (remove_underperforming_loop l _) as [p out]. simpl in *.
    split; [|split].
    + intros [k v] Hin Hnin.
      destruct (elem_of_del_or _ (agent_id a) _ Hin) as [Hd|Heq].
      * apply Hr; [by rewrite pool_after_remove_del|done].
      * simpl in Heq. subst k. simpl.
        by rewrite (keys_NoDup_agree _ _ v a (proj1 Hc) Hin Ha).
    + intros b [->|Hb]%elem_of_cons Hpb Hin; [|by apply (Hs b)].
      eapply elem_of_sublist in Hin; [|exact Hsub].
      rewrite pool_after_remove_del in Hin.
      by apply not_elem_of_del in Hin; [|apply Hc].
    + assert (agent_id a ∈ PyDict.keys (agents self)) as Hk.
      { apply list_elem_of_fmap. by exists (agent_id a, a). }
      rewrite (pool_after_remove_member _ _ Hk) in Hn. lia.
  - destruct (IH self Hc Hnd Hmem') as (Hr & Hs & Hn).
    split; [done|]. split; [|done].
    intros b [->|Hb]%elem_of_cons Hpb Hin; [|by apply (Hs b)].
    pose proof (remove_loop_sublist l self) as Hsub%sublist_length.
    destruct (decide (3 < length (agents self))) as [Hlen|Hlen]; [|lia].
    assert (underperforming self a = true) by (by apply underperforming_poor).
    congruence.
Qed.

Lemma ids_match_keys (self : AgentPool) :
  ids_match self → agent_id <$> PyDict.values (agents self) = PyDict.keys (agents self).
Proof.
  unfold ids_match, PyDict.values, PyDict.keys.
  induction 1 as [|[k a] d Hk Hd IH]; [done|]. rewrite !fmap_cons. simpl in Hk. cbn [fst snd]. by rewrite Hk, IH.
Qed.

(** X8. On a consistent pool whose members are filed under their own
    identifiers, [_remove_underperforming_agents] keeps the surviving
    entries unchanged and in their order, drops only executors with a
    success rate below 0.3 and more than ten completed tasks, leaves such an
    executor in the pool only once the pool is down to three members,
    writes one log line per executor dropped, and keeps the two maps of the
    pool in agreement. *)
Theorem only_underperformers_are_removed (self : AgentPool) :
  pool_consistent self → ids_match self →
  agents (_remove_underperforming_agents self).1 `sublist_of` agents self
  ∧ (∀ k a, (k, a) ∈ agents self →
       (k, a) ∉ agents (_remove_underperforming_agents self).1 → poor a)
  ∧ (∀ k a, (k, a) ∈ agents (_remove_underperforming_agents self).1 → poor a →
       length (agents (_remove_underperforming_agents self).1) ≤ 3)
  ∧ length (agents self)
      = length (agents (_remove_underperforming_agents self).1)
        + length (_remove_underperforming_agents self).2
  ∧ pool_consistent (_remove_underperforming_agents self).1.
Proof.
  intros Hc Hids. unfold _remove_underperforming_agents.
  pose proof (remove_loop_sublist (PyDict.values (agents self)) self) as Hsub.
  assert (∀ k a, (k, a) ∈ agents self → agent_id a = k) as Hid.
  { intros k a Hin. unfold ids_match in Hids. rewrite Forall_forall in Hids.
    by apply (Hids (k, a)). }
  destruct (remove_loop_spec (PyDict.values (agents self)) self Hc) as (Hr & Hs & Hn).
  { rewrite ids_match_keys by done. apply Hc. }
  { intros a ([k a'] & -> & Hin)%list_elem_of_fmap. simpl.
    by rewrite (Hid k a'). }
  split; [done|]. split; [|split; [|split; [done|]]].
  - intros k a Hin Hnin. by apply (Hr (k, a)).
  - intros k a Hin Hpoor.
    assert ((k, a) ∈ agents self) as Hin' by (by eapply elem_of_sublist).
    apply (Hs a); [|done|by rewrite (Hid k a)].
    apply list_elem_of_fmap. by exists (k, a).
  - clear Hr Hs Hn Hsub. generalize (PyDict.values (agents self)). intros l.
    revert self Hc Hids Hid. induction l as [|a l IH]; intros self Hc Hids Hid; [done|].
    simpl. destruct (underperforming self a); [|by apply IH].
    assert (pool_consistent (pool_after_remove self (agent_id a))) as Hc'
      by (by apply pool_after_remove_consistent).
    assert (∀ k b, (k, b) ∈ agents (pool_after_remove self (agent_id a)) →
                   agent_id b = k) as Hid'.
    { intros k b Hin. apply Hid. eapply elem_of_sublist; [exact Hin|].
      apply pool_after_remove_sublist. }
    assert (ids_match (pool_after_remove self (agent_id a))) as Hids'.
    { apply Forall_forall. intros [k b] Hin. by apply Hid'. }
    specialize (IH _ Hc' Hids' Hid').
    by destruct (remove_underperforming_loop l _).
Qed.

Lemma only_underperformers_are_removed_witness :
  PyDict.keys (agents (_remove_underperforming_agents two_poor_of_four).1)
    = ["a-1"; "a-4"; "a-3"]
  ∧ (_remove_underperforming_agents two_poor_of_four).2
    = [RemovingUnderperformer "Beta"]
  ∧ length (agents (_remove_underperforming_agents two_poor_of_four).1) ≤ 3.
Proof.
  assert (pool_consistent two_poor_of_four) as Hc.
  { split; [apply (bool_decide_unpack _); vm_compute; exact I|].
    apply (bool_decide_unpack _). vm_compute. exact I. }
  assert (ids_match two_poor_of_four) as Hids.
  { unfold ids_match, two_poor_of_four, pool_of. simpl. by repeat constructor. }
  destruct (only_underperformers_are_removed two_poor_of_four Hc Hids)
    as (_ & _ & Hfloor & _).
  split; [vm_compute; reflexivity|]. split; [vm_compute; reflexivity|].
  apply (Hfloor "a-4" {| agent_id := "a-4"; agent_name := "Delta"; status := active;
              capabilities := _initialize_capabilities; tasks_completed := 20;
              success_rate := 1 # 10; learning_rate := 1 # 100 |}).
  - apply (list_elem_of_lookup_2 _ 1). vm_compute. reflexivity.
  - split; [reflexivity|reflexivity].
Defined.

(** ** The names drawn by the autoscaler *)














(** ** The executor: learning *)

Lemma clamp_level_bounds (x : Q) : (1 # 10 <= clamp_level x)%Q ∧ (clamp_level x <= 10)%Q.
Proof.
  unfold clamp_level, py_max, py_min.
  destruct (Qlt_le_dec x 10); destruct (Qlt_le_dec (1 # 10) _); split; lra.
Qed.

Lemma learn_level_bounds (lr : Q) (success : bool) (cap : AgentCapability) :
  level_in_bounds (learn_level lr success cap)
  ∧ name (learn_level lr success cap) = name cap.
Proof. split; [apply clamp_level_bounds|done]. Qed.

Lemma learn_agent (self : AgentState) (td : TaskData) (result : TaskResult) (now : Z) :
  let a := st_agent self in
  let a' := st_agent (_learn_from_task self td result now) in
  agent_id a' = agent_id a ∧ agent_name a' = agent_name a ∧ status a' = status a
  ∧ tasks_completed a' = tasks_completed a ∧ success_rate a' = success_rate a
  ∧ learning_rate a' = learning_rate a
  ∧ name <$> capabilities a' = name <$> capabilities a
  ∧ (Forall level_in_bounds (capabilities a) → Forall level_in_bounds (capabilities a')).
Proof.
  simpl. repeat (split; [done|]). split.
  - rewrite <- list_fmap_compose. apply list_fmap_ext. intros i cap _. simpl.
    by destruct (decide _).
  - intros Hall. apply Forall_fmap. eapply Forall_impl; [exact Hall|].
    intros cap Hcap. simpl. destruct (decide _); [apply clamp_level_bounds|done].
Qed.

(** X10. Whatever the levels were, [_learn_from_task] leaves every
    capability relevant to the task type at a level between 0.1 and 10; it
    leaves the other capabilities as they were, keeps the names and the
    order of the capabilities, and changes nothing else of what the
    scheduler reads of the executor. *)
Theorem learning_stays_within_bounds (self : AgentState) (td : TaskData)
    (result : TaskResult) (now : Z) :
  let a := st_agent self in
  let a' := st_agent (_learn_from_task self td result now) in
  Forall level_in_bounds (_get_relevant_capabilities a' (td_task_type td))
  ∧ _get_relevant_capabilities a' (td_task_type td)
      = learn_level (learning_rate a) (result_success result)
          <$> _get_relevant_capabilities a (td_task_type td)
  ∧ (∀ i cap, capabilities a !! i = Some cap →
       name cap ∉ relevant_names (td_task_type td) →
       capabilities a' !! i = Some cap)
  ∧ name <$> capabilities a' = name <$> capabilities a
  ∧ (Forall level_in_bounds (capabilities a) → Forall level_in_bounds (capabilities a'))
  ∧ agent_id a' = agent_id a ∧ agent_name a' = agent_name a ∧ status a' = status a
  ∧ tasks_completed a' = tasks_completed a ∧ success_rate a' = success_rate a
  ∧ learning_rate a' = learning_rate a.
Proof.
  intros a a'.
  destruct (learn_agent self td result now) as (? & ? & ? & ? & ? & ? & Hnames & Hb).
  assert (_get_relevant_capabilities a' (td_task_type td)
          = learn_level (learning_rate a) (result_success result)
              <$> _get_relevant_capabilities a (td_task_type td)) as Hrel.
  { unfold _get_relevant_capabilities, a'. simpl. fold a.
    induction (capabilities a) as [|cap caps IH]; [done|].
    rewrite fmap_cons, !filter_cons. destruct (decide (name cap ∈ _)) as [Hin|Hnin].
    - rewrite decide_True by done. rewrite fmap_cons. by f_equal.
    - by rewrite decide_False by done. }
  split; [|split; [done|split; [|done]]].
  - rewrite Hrel. apply Forall_fmap, Forall_forall. intros cap _.
    apply clamp_level_bounds.
  - intros i cap Hi Hnin. unfold a'. simpl. fold a.
    rewrite list_lookup_fmap, Hi. simpl. by rewrite decide_False by done.
Qed.

(** X11. The short-term memory of an executor never holds more than fifty
    entries: below fifty, [_learn_from_task] appends the entry of the task;
    at fifty it keeps the last twenty-five of the fifty-one, the new entry
    last, and appends to the long-term memory those of the fifty-one whose
    quality is above 0.8 or whose task failed. *)
Theorem short_term_memory_bounded (self : AgentState) (td : TaskData)
    (result : TaskResult) (now : Z) :
  length (short_term (memory self)) ≤ 50 →
  let mem := memory self in
  let mem' := memory (_learn_from_task self td result now) in
  length (short_term mem') ≤ 50
  ∧ last (short_term mem') = Some (entry_of td result now)
  ∧ (length (short_term mem) < 50 →
       short_term mem' = short_term mem ++ [entry_of td result now]
       ∧ long_term mem' = long_term mem)
  ∧ (length (short_term mem) = 50 →
       short_term mem' = drop 26 (short_term mem) ++ [entry_of td result now]
       ∧ long_term mem' = long_term mem
           ++ filter (λ m, significant m = true)
                (short_term mem ++ [entry_of td result now])).
Proof.
  intros Hlen mem mem'. unfold mem', _learn_from_task. simpl.
  fold (entry_of td result now). fold mem.
  assert (length (short_term mem ++ [entry_of td result now])
          = S (length (short_term mem))) as Hl
    by (rewrite length_app; simpl; lia).
  assert (length (short_term mem) = 50 →
          keep_last 25 (short_term mem ++ [entry_of td result now])
          = drop 26 (short_term mem) ++ [entry_of td result now]) as Hkeep.
  { intros H50. unfold keep_last. rewrite Hl, H50. simpl.
    rewrite drop_app_le by lia. done. }
  case_bool_decide as Hfull; simpl.
  - assert (length (short_term mem) = 50) as H50 by (unfold mem in *; lia).
    rewrite (Hkeep H50). split; [|split; [|split]].
    + rewrite length_app, length_drop. simpl. lia.
    + by rewrite last_snoc.
    + lia.
    + done.
  - split; [lia|]. split; [by rewrite last_snoc|]. split; [done|].
    intros H50. unfold mem in *. lia.
Qed.

Lemma short_term_memory_bounded_witness :
  length (short_term (memory
    (_learn_from_task full_memory general_task (GeneralResult 1) 7))) = 25
  ∧ length (long_term (memory
    (_learn_from_task full_memory general_task (GeneralResult 1) 7))) = 51.
Proof.
  assert (length (short_term (memory full_memory)) ≤ 50) as Hlen
    by (vm_compute; lia).
  destruct (short_term_memory_bounded full_memory general_task (GeneralResult 1) 7 Hlen)
    as (_ & _ & _ & Hfull).
  destruct (Hfull eq_refl) as [Hs Hl].
  split; [rewrite Hs|rewrite Hl]; vm_compute; reflexivity.
Defined.

(** ** The executor: tasks and evolution *)





Lemma generate_task_result_Some (a : HyperAgent) (td : TaskData) (result : TaskResult) :
  _generate_task_result a td = Some result → result_success result = true.
Proof.
  unfold _generate_task_result. repeat destruct (decide _);
    repeat destruct (Qeq_dec _ _); by intros [= <-].
Qed.

Lemma running_mean (rate : Q) (n : Z) :
  (0 <= n)%Z →
  ((rate * inject_Z (n + 1 - 1) + 1) / inject_Z (n + 1) * inject_Z (n + 1)
   == rate * inject_Z n + 1)%Q.
Proof.
  intros Hn. replace (n + 1 - 1)%Z with n by lia.
  assert (0 < inject_Z (n + 1))%Q as Hpos.
  { unfold Qlt, inject_Z. simpl. lia. }
  field. lra.
Qed.

(** What a task that succeeds does to the executor. *)
Lemma process_task_finish_cases (self : AgentState) (td : TaskData) (now : Z) :
  (0 <= tasks_completed (st_agent self))%Z →
  ((process_task_finish self td now).1 = ErrorResult
   ∧ (process_task_finish self td now).2 = self)
  ∨ (result_success (process_task_finish self td now).1 = true
     ∧ _generate_task_result (st_agent self) td = Some (process_task_finish self td now).1
     ∧ ∃ rate,
         (rate * inject_Z (tasks_completed (st_agent self) + 1)
          == success_rate (st_agent self) * inject_Z (tasks_completed (st_agent self)) + 1)%Q
         ∧ (process_task_finish self td now).2 =
             _learn_from_task
               {| st_agent := with_record (st_agent self)
                                (tasks_completed (st_agent self) + 1) rate;
                  evolution_factor := evolution_factor self; memory := memory self;
                  adaptation_history := adaptation_history self |}
               td (process_task_finish self td now).1 now).
Proof.
  intros Hn. unfold process_task_finish.
  destruct (_generate_task_result (st_agent self) td) as [result|] eqn:Hgen; [|by left].
  rewrite decide_False by lia. right. cbn [fst snd].
  pose proof (generate_task_result_Some _ _ _ Hgen) as Hs. rewrite Hs.
  split; [done|]. split; [done|]. eexists. split; [|reflexivity].
  by apply running_mean.
Qed.







(** X13. [process_task] never lowers the success rate. A task that fails
    is reported as failed, but the executor is left as it was: the task
    counter and the success rate count successes only. A task that does not
    fail raises the counter by one and moves the rate to the mean of the
    old outcomes and one success. *)
Theorem failed_task_is_not_counted (self : AgentState) (td : TaskData) (now : Z) :
  (0 <= tasks_completed (st_agent self))%Z →
  (success_rate (st_agent self) <= 1)%Q →
  let result := (process_task self td now).1 in
  let self' := (process_task self td now).2 in
  (success_rate (st_agent self) <= success_rate (st_agent self'))%Q
  ∧ (success_rate (st_agent self') <= 1)%Q
  ∧ (result_success result = false → result = ErrorResult ∧ self' = self)
  ∧ (result_success result = true →
       tasks_completed (st_agent self') = (tasks_completed (st_agent self) + 1)%Z
       ∧ (success_rate (st_agent self') * inject_Z (tasks_completed (st_agent self'))
          == success_rate (st_agent self) * inject_Z (tasks_completed (st_agent self)) + 1)%Q)
  ∧ (result = ErrorResult ↔
       (sum_levels (capabilities (st_agent self)) == 0)%Q
       ∨ _generate_task_result (st_agent self) td = None).
Proof.
  intros Htc Hsr result self'. unfold result, self', process_task, process_task_start.
  destruct (Qeq_dec (sum_levels (capabilities (st_agent self))) 0) as [Hz|Hnz].
  { cbn [fst snd]. split; [lra|]. split; [done|]. split; [done|].
    split; [done|]. split; [by left|done]. }
  destruct (process_task_finish_cases self td now Htc)
    as [[He Hsame]|(Hsucc & Hgen & rate & Hrate & Hfin)].
  - rewrite He, Hsame. split; [lra|]. split; [done|]. split; [done|].
    split; [done|]. split; [|done]. intros _. right.
    unfold process_task_finish in He.
    destruct (_generate_task_result (st_agent self) td) as [r|] eqn:Hgen; [|done].
    rewrite decide_False in He by lia. cbn [fst] in He.
    apply generate_task_result_Some in Hgen. by rewrite He in Hgen.
  - destruct (learn_agent
                {| st_agent := with_record (st_agent self)
                                 (tasks_completed (st_agent self) + 1) rate;
                   evolution_factor := evolution_factor self; memory := memory self;
                   adaptation_history := adaptation_history self |}
                td (process_task_finish self td now).1 now)
      as (_ & _ & _ & Ht' & Hr' & _).
    rewrite <- Hfin in Ht', Hr'. simpl in Ht', Hr'. rewrite Ht', Hr', Hsucc.
    assert (0 < inject_Z (tasks_completed (st_agent self) + 1))%Q as Hpos.
    { unfold Qlt, inject_Z. simpl. lia. }
    assert (0 <= inject_Z (tasks_completed (st_agent self)))%Q as Hnn.
    { unfold Qle, inject_Z. simpl. lia. }
    rewrite inject_Z_plus in Hrate, Hpos.
    change (inject_Z 1) with 1%Q in Hrate, Hpos.
    set (n := inject_Z (tasks_completed (st_agent self))) in *.
    set (r := success_rate (st_agent self)) in *.
    assert (rate <= 1)%Q as Hle1.
    { apply (Qmult_le_r _ _ (n + 1)); [done|]. rewrite Hrate. nra. }
    assert (r <= rate)%Q as Hge.
    { apply (Qmult_le_r _ _ (n + 1)); [done|]. rewrite Hrate. nra. }
    split; [done|]. split; [done|]. split; [done|]. split.
    + intros _. split; [done|]. rewrite inject_Z_plus. exact Hrate.
    + split.
      * intros He. rewrite He in Hsucc. done.
      * intros [Hz|Hnone]; [done|]. by rewrite Hnone in Hgen.
Qed.

Lemma failed_task_is_not_counted_witness :
  (process_task no_capabilities general_task 5).1 = ErrorResult
  ∧ (process_task no_capabilities general_task 5).2 = no_capabilities.
Proof.
  assert (0 <= tasks_completed (st_agent no_capabilities))%Z as Htc by (simpl; lia).
  assert (success_rate (st_agent no_capabilities) <= 1)%Q as Hsr by (simpl; lra).
  destruct (failed_task_is_not_counted no_capabilities general_task 5 Htc Hsr)
    as (_ & _ & Hfail & _).
  apply Hfail. reflexivity.
Defined.

(** ** The hub: requests and replies *)












Lemma untouched_trans (p q r : WebSocketManager) (c : string) :
  untouched p q c → untouched q r c → untouched p r c.
Proof.
  intros (H1 & H2 & H3) (H1' & H2' & H3'). split; [congruence|]. split; [congruence|].
  intros topic. by rewrite H3', H3.
Qed.



(** ** The hub: subscribing *)

Lemma process_subscribe (self : WebSocketManager) (net : Sockets) (cid s : string)
    (data : message) (now : Z) :
  names_topic data "subscribe" s → s ∈ available_topics →
  _process_message (self, net) cid (Some (JObj data)) now =
    match connection_metadata self !! cid with
    | Some md =>
        _send_to_connection
          ({| connections := connections self;
              connection_metadata := <[cid := md_subscribe md s]> (connection_metadata self);
              subscriptions := <[s := subscribers self s ∪ {[cid]}]> (subscriptions self) |},
           net) cid (confirmation "subscription_confirmed" (JStr s) now)
    | None =>
        _send_error
          ({| connections := connections self;
              connection_metadata := connection_metadata self;
              subscriptions := <[s := subscribers self s ∪ {[cid]}]> (subscriptions self) |},
           net) cid ("Message processing error: '" +:+ cid +:+ "'") now
    end.
Proof.
  intros [Htype Htopic] Hav. unfold _process_message. rewrite Htype.
  cbn [default from_option id hashable negb message_handlers].
  unfold _handle_subscribe, get_topic.
  rewrite Htopic. cbn [default from_option id hashable negb].
  rewrite bool_decide_eq_true_2 by done. cbn [connection_metadata].
  by destruct (connection_metadata self !! cid).
Qed.

Lemma process_unsubscribe (self : WebSocketManager) (net : Sockets) (cid s : string)
    (data : message) (now : Z) :
  names_topic data "unsubscribe" s →
  _process_message (self, net) cid (Some (JObj data)) now =
    _send_to_connection
      ({| connections := connections self;
          connection_metadata :=
            match connection_metadata self !! cid with
            | Some md => <[cid := md_unsubscribe md s]> (connection_metadata self)
            | None => connection_metadata self
            end;
          subscriptions :=
            match subscriptions self !! s with
            | Some subs => <[s := subs ∖ {[cid]}]> (subscriptions self)
            | None => subscriptions self
            end |},
       net)
      cid (confirmation "unsubscription_confirmed" (JStr s) now).
Proof.
  intros [Htype Htopic]. unfold _process_message. rewrite Htype.
  cbn [default from_option id hashable negb message_handlers].
  unfold _handle_unsubscribe, get_topic.
  rewrite Htopic. cbn [default from_option id hashable negb].
  destruct (subscriptions self !! s); cbn [connection_metadata];
    destruct (connection_metadata self !! cid); by destruct self.
Qed.

Lemma publish_reaches (self : WebSocketManager) (net : Sockets) (cid s : string)
    (sock : nat) (subs : gset string) (msg : message) (now : Z) :
  subscriptions self !! s = Some subs → cid ∈ subs →
  connections self !! cid = Some sock → send_raises net sock = false →
  (sock, tag_message msg s now) ∈ sent (broadcast_to_topic (self, net) s msg now).1.2.
Proof.
  intros Hsubs Hin Hsock Hok. unfold broadcast_to_topic. cbn [fst snd].
  rewrite Hsubs. cbn [fst snd]. rewrite send_all by apply NoDup_elements.
  cbn [fst snd sent]. apply elem_of_app. right.
  apply list_elem_of_omap. exists cid. split; [by apply elem_of_elements|].
  unfold delivery. cbn [fst snd]. by rewrite Hsock, Hok.
Qed.

Lemma md_subscribe_twice (md : ConnectionMetadata) (s : string) :
  md_subscribe (md_subscribe md s) s = md_subscribe md s.
Proof. unfold md_subscribe. simpl. f_equal. set_solver. Qed.

Lemma md_unsubscribe_subscribe (md : ConnectionMetadata) (s : string) :
  md_unsubscribe (md_subscribe md s) s = md_unsubscribe md s.
Proof. unfold md_unsubscribe, md_subscribe. simpl. f_equal. set_solver. Qed.

(** X15. A subscribe request for an available topic, from a registered
    connection whose socket accepts frames, puts the connection into the
    subscriber set of the topic and the topic into the subscriptions of the
    connection, touches no other topic, and is answered by one
    subscription_confirmed frame. Repeating the request changes nothing in
    the manager, and a following publish on the topic reaches the
    connection. *)
Theorem subscribe_then_publish (st : WebSocketManager * Sockets) (cid s : string)
    (data : message) (now : Z) (sock : nat) (md : ConnectionMetadata) :
  names_topic data "subscribe" s → s ∈ available_topics →
  connections st.1 !! cid = Some sock →
  connection_metadata st.1 !! cid = Some md →
  send_raises st.2 sock = false →
  let st1 := _process_message st cid (Some (JObj data)) now in
  subscriptions st1.1 !! s = Some (subscribers st.1 s ∪ {[cid]})
  ∧ (∀ topic, topic ≠ s → subscriptions st1.1 !! topic = subscriptions st.1 !! topic)
  ∧ connection_metadata st1.1 = <[cid := md_subscribe md s]> (connection_metadata st.1)
  ∧ connections st1.1 = connections st.1
  ∧ sent st1.2
    = sent st.2 ++ [(sock, confirmation "subscription_confirmed" (JStr s) now)]
  ∧ (∀ now', (_process_message st1 cid (Some (JObj data)) now').1 = st1.1)
  ∧ (∀ msg t, (sock, tag_message msg s t) ∈ sent (broadcast_to_topic st1 s msg t).1.2).
Proof.
  intros Hdata Hav Hsock Hmd Hok st1. destruct st as [self net]. cbn [fst snd] in *.
  assert (st1 =
    ({| connections := connections self;
        connection_metadata := <[cid := md_subscribe md s]> (connection_metadata self);
        subscriptions := <[s := subscribers self s ∪ {[cid]}]> (subscriptions self) |},
     {| failing := failing net; closed := closed net;
        sent := sent net ++ [(sock, confirmation "subscription_confirmed" (JStr s) now)] |}))
    as ->.
  { unfold st1. rewrite (process_subscribe self net cid s data now Hdata Hav), Hmd.
    rewrite send_to_connection_cases. unfold send_fails, delivery. cbn [fst snd connections].
    by rewrite Hsock, Hok. }
  cbn [fst snd connections connection_metadata subscriptions sent].
  split; [by rewrite lookup_insert_eq|]. split; [by intros topic Hne; rewrite lookup_insert_ne|].
  split; [done|]. split; [done|]. split; [done|]. split.
  - intros now'.
    rewrite (process_subscribe _ _ cid s data now' Hdata Hav).
    cbn [connection_metadata]. rewrite lookup_insert_eq.
    rewrite send_to_connection_cases. unfold send_fails, delivery, subscribers.
    cbn [fst snd connections subscriptions]. rewrite Hsock.
    change (send_raises _ sock) with (send_raises net sock). rewrite Hok.
    cbn [fst]. rewrite lookup_insert_eq. cbn [default from_option id].
    rewrite !insert_insert_eq, md_subscribe_twice. do 2 f_equal. set_solver.
  - intros msg t. apply (publish_reaches _ _ cid s sock (subscribers self s ∪ {[cid]}));
      [simpl; by rewrite lookup_insert_eq|set_solver|exact Hsock|exact Hok].
Qed.

Lemma subscribe_then_publish_witness :
  subscriptions (_process_message one_quiet_connection "c-2"
     (Some (JObj (subscribe_request (JStr "system_logs")))) 5).1 !! "system_logs"
  = Some (subscribers one_quiet_connection.1 "system_logs" ∪ {[ "c-2" ]}).
Proof.
  assert (names_topic (subscribe_request (JStr "system_logs")) "subscribe" "system_logs")
    as Hdata by (split; reflexivity).
  assert ("system_logs" ∈ available_topics) as Hav
    by (apply (bool_decide_unpack _); vm_compute; exact I).
  assert (connections one_quiet_connection.1 !! "c-2" = Some 2) as Hsock
    by (vm_compute; reflexivity).
  assert (connection_metadata one_quiet_connection.1 !! "c-2"
          = Some {| connected_at := 0; conn_subscriptions := {[ "pool_updates" ]};
                    last_ping := 60000000 |}) as Hmd
    by (vm_compute; reflexivity).
  assert (send_raises one_quiet_connection.2 2 = false) as Hok
    by (vm_compute; reflexivity).
  apply (subscribe_then_publish one_quiet_connection "c-2" "system_logs"
           (subscribe_request (JStr "system_logs")) 5 2 _ Hdata Hav Hsock Hmd Hok).
Defined.

Lemma elem_of_stale_connections (heartbeat now : Z) (self : WebSocketManager)
    (c : string) :
  c ∈ stale_connections heartbeat now self ↔ stale_at heartbeat now self c.
Proof.
  unfold stale_connections, stale_at. rewrite list_elem_of_fmap. split.
  - intros ([c' md] & -> & [Hst Hin]%list_elem_of_filter).
    exists md. split; [by apply elem_of_map_to_list|done].
  - intros (md & Hmd & Hst). exists (c, md). split; [done|].
    apply list_elem_of_filter. split; [done|by apply elem_of_map_to_list].
Qed.



(** X17. Unsubscribing undoes subscribing: after a subscribe and an
    unsubscribe request for the same available topic, from a registered
    connection with a working socket, the connection is in the subscriber
    set of the topic no more and the topic is no more among its
    subscriptions, both requests have been confirmed, and the manager is
    exactly as before the two requests if the topic had a subscriber set
    and the connection was not subscribed. The subscriber set of the topic
    stays in the index, even when it is empty. *)
Theorem unsubscribe_undoes_subscribe (st : WebSocketManager * Sockets) (cid s : string)
    (data data' : message) (now now' : Z) (sock : nat) (md : ConnectionMetadata) :
  names_topic data "subscribe" s → names_topic data' "unsubscribe" s →
  s ∈ available_topics →
  connections st.1 !! cid = Some sock →
  connection_metadata st.1 !! cid = Some md →
  send_raises st.2 sock = false →
  let st1 := _process_message st cid (Some (JObj data)) now in
  let st2 := _process_message st1 cid (Some (JObj data')) now' in
  subscriptions st2.1 !! s = Some (subscribers st.1 s ∖ {[cid]})
  ∧ (∀ topic, topic ≠ s → subscriptions st2.1 !! topic = subscriptions st.1 !! topic)
  ∧ connection_metadata st2.1 = <[cid := md_unsubscribe md s]> (connection_metadata st.1)
  ∧ connections st2.1 = connections st.1
  ∧ sent st2.2
    = sent st.2 ++ [(sock, confirmation "subscription_confirmed" (JStr s) now);
                    (sock, confirmation "unsubscription_confirmed" (JStr s) now')]
  ∧ (is_Some (subscriptions st.1 !! s) → cid ∉ subscribers st.1 s →
     s ∉ conn_subscriptions md → st2.1 = st.1).
Proof.
  intros Hdata Hdata' Hav Hsock Hmd Hok st1 st2. destruct st as [self net].
  cbn [fst snd] in *.
  assert (st1 =
    ({| connections := connections self;
        connection_metadata := <[cid := md_subscribe md s]> (connection_metadata self);
        subscriptions := <[s := subscribers self s ∪ {[cid]}]> (subscriptions self) |},
     {| failing := failing net; closed := closed net;
        sent := sent net ++ [(sock, confirmation "subscription_confirmed" (JStr s) now)] |}))
    as Hst1.
  { unfold st1. rewrite (process_subscribe self net cid s data now Hdata Hav), Hmd.
    rewrite send_to_connection_cases. unfold send_fails, delivery. cbn [fst snd connections].
    by rewrite Hsock, Hok. }
  assert (st2 =
    ({| connections := connections self;
        connection_metadata := <[cid := md_unsubscribe md s]> (connection_metadata self);
        subscriptions := <[s := subscribers self s ∖ {[cid]}]> (subscriptions self) |},
     {| failing := failing net; closed := closed net;
        sent := sent net
          ++ [(sock, confirmation "subscription_confirmed" (JStr s) now);
              (sock, confirmation "unsubscription_confirmed" (JStr s) now')] |}))
    as ->.
  { unfold st2. rewrite Hst1. rewrite (process_unsubscribe _ _ cid s data' now' Hdata').
    cbn [connection_metadata subscriptions]. rewrite !lookup_insert_eq.
    rewrite send_to_connection_cases. unfold send_fails, delivery.
    cbn [fst snd connections]. rewrite Hsock.
    change (send_raises _ sock) with (send_raises net sock). rewrite Hok.
    cbn [option_list sent failing closed].
    rewrite !insert_insert_eq, md_unsubscribe_subscribe, <- app_assoc.
    do 2 f_equal. f_equal. set_solver. }
  cbn [fst snd connections connection_metadata subscriptions sent].
  split; [by rewrite lookup_insert_eq|].
  split; [by intros topic Hne; rewrite lookup_insert_ne|].
  do 3 (split; [done|]).
  intros [subs Hsubs] Hnin Hns. unfold subscribers in *. rewrite Hsubs in *.
  cbn [default from_option id] in *.
  replace (md_unsubscribe md s) with md.
  2:{ destruct md as [c subs' p]. unfold md_unsubscribe. simpl in *. f_equal. set_solver. }
  replace (subs ∖ {[cid]}) with subs by set_solver.
  rewrite !insert_id by done. by destruct self.
Qed.

Lemma unsubscribe_undoes_subscribe_witness :
  subscriptions
    (_process_message
       (_process_message one_quiet_connection "c-2"
          (Some (JObj (subscribe_request (JStr "system_logs")))) 5)
       "c-2" (Some (JObj (unsubscribe_request (JStr "system_logs")))) 6).1
    !! "system_logs"
  = Some (subscribers one_quiet_connection.1 "system_logs" ∖ {[ "c-2" ]}).
Proof.
  assert (names_topic (subscribe_request (JStr "system_logs")) "subscribe" "system_logs")
    as Hdata by (split; reflexivity).
  assert (names_topic (unsubscribe_request (JStr "system_logs")) "unsubscribe" "system_logs")
    as Hdata' by (split; reflexivity).
  assert ("system_logs" ∈ available_topics) as Hav
    by (apply (bool_decide_unpack _); vm_compute; exact I).
  assert (connections one_quiet_connection.1 !! "c-2" = Some 2) as Hsock
    by (vm_compute; reflexivity).
  assert (connection_metadata one_quiet_connection.1 !! "c-2"
          = Some {| connected_at := 0; conn_subscriptions := {[ "pool_updates" ]};
                    last_ping := 60000000 |}) as Hmd
    by (vm_compute; reflexivity).
  assert (send_raises one_quiet_connection.2 2 = false) as Hok
    by (vm_compute; reflexivity).
  apply (unsubscribe_undoes_subscribe one_quiet_connection "c-2" "system_logs"
           (subscribe_request (JStr "system_logs"))
           (unsubscribe_request (JStr "system_logs")) 5 6 2 _
           Hdata Hdata' Hav Hsock Hmd Hok).
Defined.

(** ** The hub: pings and the sweep *)

Lemma process_ping (self : WebSocketManager) (net : Sockets) (cid : string)
    (data : message) (now : Z) :
  PyDict.get data "type" = Some (JStr "ping") →
  _process_message (self, net) cid (Some (JObj data)) now =
    match connection_metadata self !! cid with
    | Some md =>
        _send_to_connection
          ({| connections := connections self;
              connection_metadata := <[cid := md_ping md now]> (connection_metadata self);
              subscriptions := subscriptions self |}, net)
          cid [ ("type", JStr "pong"); ("timestamp", JTime now) ]
    | None =>
        _send_error (self, net) cid ("Message processing error: '" +:+ cid +:+ "'") now
    end.
Proof.
  intros Htype. unfold _process_message. rewrite Htype.
  cbn [default from_option id hashable negb message_handlers].
  unfold _handle_ping. by destruct (connection_metadata self !! cid).
Qed.

Lemma sweep_connection (heartbeat now : Z) (st : WebSocketManager * Sockets) (c : string) :
  (stale_at heartbeat now st.1 c → unregistered (cleanup_sweep heartbeat now st).1 c)
  ∧ (¬ stale_at heartbeat now st.1 c → untouched st.1 (cleanup_sweep heartbeat now st).1 c).
Proof.
  unfold cleanup_sweep. cbn [fst]. rewrite <- elem_of_stale_connections. split.
  - apply cleanup_all_unregistered.
  - apply cleanup_all_untouched.
Qed.

(** X18. A ping from a registered connection with a working socket records
    the time of the ping in the connection's metadata, changes nothing
    else, and is answered with one pong frame; a sweep that runs no later
    than three heartbeats after the ping leaves the connection in every
    registry. A ping from a connection without metadata is answered with an
    error instead and changes nothing. *)
Theorem ping_keeps_alive (st : WebSocketManager * Sockets) (cid : string)
    (data : message) (now : Z) (sock : nat) :
  PyDict.get data "type" = Some (JStr "ping") →
  connections st.1 !! cid = Some sock →
  send_raises st.2 sock = false →
  let st1 := _process_message st cid (Some (JObj data)) now in
  (∀ md, connection_metadata st.1 !! cid = Some md →
     connection_metadata st1.1 = <[cid := md_ping md now]> (connection_metadata st.1)
     ∧ connections st1.1 = connections st.1
     ∧ subscriptions st1.1 = subscriptions st.1
     ∧ sent st1.2 = sent st.2 ++ [(sock, [("type", JStr "pong"); ("timestamp", JTime now)])]
     ∧ ∀ heartbeat t, (t - now <= heartbeat * 3 * 1000000)%Z →
         untouched st1.1 (cleanup_sweep heartbeat t st1).1 cid)
  ∧ (connection_metadata st.1 !! cid = None →
     st1.1 = st.1
     ∧ sent st1.2
       = sent st.2
         ++ [(sock, error_message ("Message processing error: '" +:+ cid +:+ "'") now)]).
Proof.
  intros Htype Hsock Hok st1. destruct st as [self net]. cbn [fst snd] in *.
  unfold st1. rewrite (process_ping self net cid data now Htype). split.
  - intros md Hmd. rewrite Hmd, send_to_connection_cases.
    unfold send_fails, delivery. cbn [fst snd connections]. rewrite Hsock, Hok.
    cbn [fst snd connections connection_metadata subscriptions sent option_list].
    do 4 (split; [done|]). intros heartbeat t Hrecent.
    apply sweep_connection. intros (md' & Hmd' & Hstale). cbn [fst connection_metadata] in Hmd'.
    rewrite lookup_insert_eq in Hmd'. injection Hmd' as <-.
    unfold is_stale, md_ping in Hstale. simpl in Hstale. apply Z.ltb_lt in Hstale. lia.
  - intros Hmd. rewrite Hmd. unfold _send_error. rewrite send_to_connection_cases.
    unfold send_fails, delivery. cbn [fst snd]. by rewrite Hsock, Hok.
Qed.

Lemma ping_keeps_alive_witness :
  untouched one_quiet_connection.1
    (cleanup_sweep 30 91000000
       (_process_message one_quiet_connection "c-1" (Some (JObj ping_request)) 90000000)).1
    "c-2"
  ∧ untouched
      (_process_message one_quiet_connection "c-1" (Some (JObj ping_request)) 90000000).1
      (cleanup_sweep 30 91000000
         (_process_message one_quiet_connection "c-1" (Some (JObj ping_request)) 90000000)).1
      "c-1".
Proof.
  assert (PyDict.get ping_request "type" = Some (JStr "ping")) as Htype by reflexivity.
  assert (connections one_quiet_connection.1 !! "c-1" = Some 1) as Hsock
    by (vm_compute; reflexivity).
  assert (send_raises one_quiet_connection.2 1 = false) as Hok
    by (vm_compute; reflexivity).
  assert (connection_metadata one_quiet_connection.1 !! "c-1"
          = Some {| connected_at := 0; conn_subscriptions := {[ "pool_updates" ]};
                    last_ping := 0 |}) as Hmd
    by (vm_compute; reflexivity).
  destruct (ping_keeps_alive one_quiet_connection "c-1" ping_request 90000000 1
              Htype Hsock Hok) as [Hping _].
  destruct (Hping _ Hmd) as (Hmd1 & Hc1 & Hs1 & _ & Halive).
  split; [|apply Halive; lia].
  eapply untouched_trans; [|apply sweep_connection].
  - split; [by rewrite Hc1|]. split; [|by intros topic; rewrite Hs1].
    rewrite Hmd1. by rewrite lookup_insert_ne.
  - intros (md' & Hmd' & Hstale). rewrite Hmd1 in Hmd'.
    rewrite lookup_insert_ne in Hmd' by done.
    assert (md' = {| connected_at := 0; conn_subscriptions := {[ "pool_updates" ]};
                     last_ping := 60000000 |}) as ->.
    { assert (connection_metadata one_quiet_connection.1 !! "c-2"
              = Some {| connected_at := 0; conn_subscriptions := {[ "pool_updates" ]};
                        last_ping := 60000000 |}) as Hmd2 by (vm_compute; reflexivity).
      congruence. }
    discriminate Hstale.
Defined.

(** X19. One sweep removes exactly the stale connections: a connection
    whose metadata records a last ping more than three heartbeats old
    leaves the connection map, the metadata and every subscriber set; every
    other connection, among them those without metadata, keeps its place in
    all three; the sockets are not touched; and a second sweep at the same
    instant changes nothing. *)
Theorem sweep_removes_exactly_the_stale (heartbeat now : Z)
    (st : WebSocketManager * Sockets) :
  (∀ c, stale_at heartbeat now st.1 c → unregistered (cleanup_sweep heartbeat now st).1 c)
  ∧ (∀ c, ¬ stale_at heartbeat now st.1 c →
       untouched st.1 (cleanup_sweep heartbeat now st).1 c)
  ∧ (∀ c, connection_metadata st.1 !! c = None →
       connections (cleanup_sweep heartbeat now st).1 !! c = connections st.1 !! c)
  ∧ (cleanup_sweep heartbeat now st).2 = st.2
  ∧ cleanup_sweep heartbeat now (cleanup_sweep heartbeat now st)
    = cleanup_sweep heartbeat now st.
Proof.
  split; [intros c; apply sweep_connection|].
  split; [intros c; apply sweep_connection|]. split; [|split; [done|]].
  - intros c Hmd. apply sweep_connection. intros (md & Hmd' & _). congruence.
  - assert (stale_connections heartbeat now (cleanup_sweep heartbeat now st).1 = [])
      as Hnone.
    { apply elem_of_nil_inv. intros c. rewrite elem_of_stale_connections.
      intros (md & Hmd & Hstale). unfold cleanup_sweep in Hmd. cbn [fst] in Hmd.
      rewrite cleanup_all_metadata in Hmd. case_bool_decide as Hin; [done|].
      apply Hin, elem_of_stale_connections. by exists md. }
    unfold cleanup_sweep at 1. by rewrite Hnone.
Qed.

(** ** The hub: shutdown *)

Lemma shutdown_loop (l : list (string * nat)) (st : WebSocketManager * Sockets) :
  foldl (λ st kv, (_cleanup_connection st.1 kv.1, close_socket st.2 kv.2)) st l
  = (foldl _cleanup_connection st.1 l.*1, foldl close_socket st.2 l.*2).
Proof.
  revert st. induction l as [|kv l IH]; intros [self net]; [done|].
  simpl. by rewrite IH.
Qed.

Lemma close_all (l : list nat) (net : Sockets) :
  closed (foldl close_socket net l) = closed net ∪ list_to_set l
  ∧ failing (foldl close_socket net l) = failing net
  ∧ sent (foldl close_socket net l) = sent net.
Proof.
  revert net. induction l as [|sock l IH]; intros net; simpl.
  - split; [set_solver|done].
  - destruct (IH (close_socket net sock)) as (-> & -> & ->). simpl.
    split; [set_solver|done].
Qed.

(** X20. [shutdown] leaves the connection map empty: every connection it
    held is closed and taken out of the metadata and of every subscriber
    set, the sockets closed are exactly those of the connection map (added
    to the ones closed before), so a later send to any of them raises;
    nothing is sent, and the statistics then report no active connection.
    Metadata of an identifier that was not in the connection map is left
    where it was. *)
Theorem hub_shutdown_closes_all (st : WebSocketManager * Sockets) :
  connections (shutdown st).1 = ∅
  ∧ closed (shutdown st).2 = closed st.2 ∪ map_img (connections st.1)
  ∧ failing (shutdown st).2 = failing st.2
  ∧ sent (shutdown st).2 = sent st.2
  ∧ (∀ c sock, connections st.1 !! c = Some sock →
       unregistered (shutdown st).1 c ∧ send_raises (shutdown st).2 sock = true)
  ∧ (∀ c, connections st.1 !! c = None → untouched st.1 (shutdown st).1 c)
  ∧ active_connections (get_connection_stats (shutdown st).1) = 0.
Proof.
  unfold shutdown. rewrite shutdown_loop. cbn [fst snd].
  set (l := map_to_list (connections st.1)).
  destruct (close_all l.*2 st.2) as (Hclosed & Hfailing & Hsent).
  assert (∀ c, c ∈ l.*1 ↔ is_Some (connections st.1 !! c)) as Hkeys.
  { intros c. unfold l. rewrite list_elem_of_fmap. split.
    - intros ([c' sock] & -> & Hin). apply elem_of_map_to_list in Hin. by exists sock.
    - intros [sock Hsock]. exists (c, sock). split; [done|].
      by apply elem_of_map_to_list. }
  assert (connections (foldl _cleanup_connection st.1 l.*1) = ∅) as Hempty.
  { apply map_eq. intros c. rewrite cleanup_all_connections, lookup_empty.
    case_bool_decide as Hin; [done|].
    destruct (connections st.1 !! c) eqn:Hc; [|done].
    destruct Hin. apply Hkeys. by rewrite Hc. }
  assert (list_to_set l.*2 = (map_img (connections st.1) : gset nat)) as Himg.
  { apply set_eq. intros sock. rewrite elem_of_list_to_set, elem_of_map_img.
    unfold l. rewrite list_elem_of_fmap. split.
    - intros ([c sock'] & -> & Hin). exists c. by apply elem_of_map_to_list.
    - intros [c Hc]. exists (c, sock). split; [done|]. by apply elem_of_map_to_list. }
  split; [done|]. split; [by rewrite Hclosed, Himg|]. do 2 (split; [done|]).
  split; [|split].
  - intros c sock Hc. split.
    + apply cleanup_all_unregistered, Hkeys. by rewrite Hc.
    + unfold send_raises. rewrite Hclosed, Himg.
      apply orb_true_iff. right. apply bool_decide_eq_true.
      apply elem_of_union. right. apply elem_of_map_img. by exists c.
  - intros c Hc. apply cleanup_all_untouched. rewrite Hkeys, Hc. by intros [? ?].
  - unfold get_connection_stats. cbn [active_connections]. by rewrite Hempty.
Qed.

(** ** The hub: broadcasts to all and the life of a connection *)

Lemma get_set_other {V} (d : list (string * V)) (k k' : string) (v : V) :
  k ≠ k' → PyDict.get (PyDict.set d k v) k' = PyDict.get d k'.
Proof. intros Hne. by rewrite get_set, decide_False. Qed.

(** X21. [broadcast_to_all] writes the time into the message (and nothing
    else: the other keys keep their values and no topic is added) and
    hands it once to every registered connection whose socket accepts it,
    and to nobody else; a connection whose socket raises is taken out of
    every registry, which stops the sends to no other connection; every
    other connection keeps its place in the registries. *)
Theorem broadcast_reaches_every_connection (st : WebSocketManager * Sockets)
    (msg : message) (now : Z) :
  let stamped := PyDict.set msg "timestamp" (JTime now) in
  let keys := (map_to_list (connections st.1)).*1 in
  (broadcast_to_all st msg now).2 = stamped
  ∧ PyDict.get stamped "timestamp" = Some (JTime now)
  ∧ (∀ k, k ≠ "timestamp" → PyDict.get stamped k = PyDict.get msg k)
  ∧ failing (broadcast_to_all st msg now).1.2 = failing st.2
  ∧ closed (broadcast_to_all st msg now).1.2 = closed st.2
  ∧ sent (broadcast_to_all st msg now).1.2 = sent st.2 ++ omap (delivery st stamped) keys
  ∧ NoDup keys
  ∧ (∀ c sock, connections st.1 !! c = Some sock → send_raises st.2 sock = false →
       (sock, stamped) ∈ omap (delivery st stamped) keys
       ∧ untouched st.1 (broadcast_to_all st msg now).1.1 c)
  ∧ (∀ c sock, connections st.1 !! c = Some sock → send_raises st.2 sock = true →
       unregistered (broadcast_to_all st msg now).1.1 c)
  ∧ (∀ c, connections st.1 !! c = None →
       untouched st.1 (broadcast_to_all st msg now).1.1 c).
Proof.
  intros stamped keys.
  assert (NoDup keys) as Hnd by apply NoDup_fst_map_to_list.
  assert (∀ c, c ∈ keys ↔ is_Some (connections st.1 !! c)) as Hkeys.
  { intros c. unfold keys. rewrite list_elem_of_fmap. split.
    - intros ([c' sock] & -> & Hin). apply elem_of_map_to_list in Hin. by exists sock.
    - intros [sock Hsock]. exists (c, sock). split; [done|].
      by apply elem_of_map_to_list. }
  unfold broadcast_to_all. fold stamped keys. cbn [fst snd].
  rewrite (send_all keys st stamped Hnd). cbn [fst snd failing closed sent].
  split; [done|]. split; [by unfold stamped; rewrite get_set, decide_True|].
  split; [by intros k Hk; unfold stamped; rewrite get_set_other|].
  do 4 (split; [done|]). split; [|split].
  - intros c sock Hc Hok. split.
    + apply list_elem_of_omap. exists c. split; [apply Hkeys; by rewrite Hc|].
      unfold delivery. by rewrite Hc, Hok.
    + apply cleanup_all_untouched. intros [Hf _]%list_elem_of_filter.
      unfold send_fails in Hf. rewrite Hc in Hf. congruence.
  - intros c sock Hc Hbad. apply cleanup_all_unregistered.
    apply list_elem_of_filter. split; [|apply Hkeys; by rewrite Hc].
    unfold send_fails. by rewrite Hc.
  - intros c Hc. apply cleanup_all_untouched. intros [_ Hin]%list_elem_of_filter.
    apply Hkeys in Hin as [? Hin]. congruence.
Qed.






(** ** The pool: monitoring, updates and shutdown *)

(** X23. One monitoring cycle refreshes the metrics and appends a snapshot
    that holds the refreshed metrics and the workload map of that instant;
    the history never exceeds a thousand snapshots: when the new snapshot
    is the thousand-and-first, only the last five hundred are kept, the new
    one last. *)
Theorem performance_history_bounded (self : AgentPool) (history : list Snapshot)
    (now : Z) :
  length history ≤ 1000 →
  let pool' := (monitor_cycle self history now).1.1 in
  let history' := (monitor_cycle self history now).1.2 in
  let snapshot := (monitor_cycle self history now).2 in
  pool' = _update_metrics self
  ∧ snap_timestamp snapshot = now
  ∧ total_agents (snap_metrics snapshot) = length (agents self)
  ∧ active_agents (snap_metrics snapshot) = length (active_list self)
  ∧ tasks_in_queue (snap_metrics snapshot) = length (task_queue self)
  ∧ snap_workloads snapshot = agent_workloads self
  ∧ length history' ≤ 1000
  ∧ last history' = Some snapshot
  ∧ (length history < 1000 → history' = history ++ [snapshot])
  ∧ (length history = 1000 → history' = drop 501 history ++ [snapshot]).
Proof.
  intros Hlen pool' history' snapshot.
  unfold pool', history', snapshot, monitor_cycle. cbn [fst snd].
  set (snap := {| snap_timestamp := now |}).
  do 6 (split; [done|]).
  assert (length (history ++ [snap]) = S (length history)) as Hl
    by (rewrite length_app; simpl; lia).
  case_bool_decide as Hfull.
  - assert (length history = 1000) as H1000 by lia.
    assert (keep_last 500 (history ++ [snap]) = drop 501 history ++ [snap]) as ->.
    { unfold keep_last. rewrite Hl, H1000. simpl. by rewrite drop_app_le by lia. }
    split; [rewrite length_app, length_drop; simpl; lia|].
    split; [by rewrite last_snoc|]. split; [lia|done].
  - split; [lia|]. split; [by rewrite last_snoc|]. split; [done|lia].
Qed.

Lemma performance_history_bounded_witness :
  length (monitor_cycle three_created full_history 9).1.2 = 500
  ∧ total_agents (snap_metrics (monitor_cycle three_created full_history 9).2) = 3.
Proof.
  assert (length full_history ≤ 1000) as Hlen.
  { unfold full_history. rewrite length_replicate. lia. }
  destruct (performance_history_bounded three_created full_history 9 Hlen)
    as (_ & _ & Htotal & _ & _ & _ & _ & _ & _ & Hfull).
  split.
  - rewrite Hfull by (unfold full_history; by rewrite length_replicate).
    rewrite length_app, length_drop. unfold full_history.
    rewrite length_replicate. simpl. lia.
  - rewrite Htotal. vm_compute. reflexivity.
Defined.

Lemma pool_send_all (msg : message) (l : list nat) (ws : gset nat) (net : Sockets) :
  foldl (pool_send msg) (ws, net) l
  = (ws ∖ list_to_set (filter (λ sock, send_raises net sock = true) l),
     {| failing := failing net; closed := closed net;
        sent := sent net
          ++ ((λ sock, (sock, msg)) <$> filter (λ sock, send_raises net sock = false) l) |}).
Proof.
  revert ws net. induction l as [|sock l IH]; intros ws net.
  - simpl. rewrite app_nil_r. f_equal; [set_solver|by destruct net].
  - simpl. unfold pool_send at 2. cbn [fst snd]. rewrite !filter_cons.
    destruct (send_raises net sock) eqn:Hs.
    + rewrite IH, decide_True, decide_False by done. f_equal.
      rewrite list_to_set_cons. set_solver.
    + rewrite IH, decide_False, decide_True by done. cbn [failing closed sent].
      change (send_raises {| failing := failing net; closed := closed net;
                             sent := sent net ++ [(sock, msg)] |})
        with (send_raises net).
      f_equal. f_equal. rewrite fmap_cons, <- app_assoc. done.
Qed.

(** X24. [_broadcast_pool_update] hands the pool-update message once to
    every socket of the pool's set whose [send] does not raise, and to no
    other; a socket whose [send] raises is discarded from the set (it is
    not closed), which stops the sends to no other socket; with an empty
    set nothing happens. *)
Theorem pool_update_reaches_working_sockets (self : AgentPool)
    (st : gset nat * Sockets) (update_type : string) (data : jvalue) (now : Z) :
  let msg := pool_update_message self update_type data now in
  let st' := _broadcast_pool_update self st update_type data now in
  (∀ sock, sock ∈ st'.1 ↔ sock ∈ st.1 ∧ send_raises st.2 sock = false)
  ∧ (∀ sock, (sock, msg) ∈ sent st'.2 ↔
       (sock, msg) ∈ sent st.2 ∨ (sock ∈ st.1 ∧ send_raises st.2 sock = false))
  ∧ sent st'.2
    = sent st.2
      ++ ((λ sock, (sock, msg))
            <$> filter (λ sock, send_raises st.2 sock = false) (elements st.1))
  ∧ NoDup (elements st.1)
  ∧ failing st'.2 = failing st.2 ∧ closed st'.2 = closed st.2
  ∧ (st.1 = ∅ → st' = st).
Proof.
  intros msg st'. destruct st as [ws net]. cbn [fst snd] in *.
  assert (st' = foldl (pool_send msg) (ws, net) (elements ws)) as ->.
  { unfold st', _broadcast_pool_update. cbn [fst]. destruct (decide (ws = ∅)) as [->|]; [|done].
    by rewrite elements_empty. }
  rewrite pool_send_all. cbn [fst snd failing closed sent].
  split; [|split; [|split; [done|split; [apply NoDup_elements|split; [done|split; [done|]]]]]].
  - intros sock. rewrite elem_of_difference, elem_of_list_to_set, list_elem_of_filter,
      elem_of_elements.
    destruct (send_raises net sock); naive_solver.
  - intros sock. rewrite elem_of_app, list_elem_of_fmap. split.
    + intros [?|(sock' & [= <-] & [? Hin]%list_elem_of_filter)]; [by left|].
      right. by rewrite <- elem_of_elements.
    + intros [?|[Hin Hok]]; [by left|]. right. exists sock. split; [done|].
      apply list_elem_of_filter. by rewrite elem_of_elements.
  - intros ->. rewrite elements_empty. simpl. rewrite app_nil_r.
    replace (∅ ∖ ∅ : gset nat) with (∅ : gset nat) by set_solver. by destruct net.
Qed.

(** X25. [AgentPool.shutdown] stops the pool without emptying it: every
    executor stays in the agent map under its key, with its record and its
    workload counter, but none is active any more, so no task gets an
    executor and a worker that still takes a task puts it back at the tail
    of the queue; the queue is kept; every socket of the pool is closed and
    the set of sockets is emptied, and nothing is sent. *)
Theorem pool_shutdown_stops_dispatch (self : AgentPool) (st : gset nat * Sockets) :
  let self' := (pool_shutdown self st).1 in
  let st' := (pool_shutdown self st).2 in
  is_running self' = false
  ∧ PyDict.keys (agents self') = PyDict.keys (agents self)
  ∧ agent_workloads self' = agent_workloads self
  ∧ task_queue self' = task_queue self
  ∧ (pool_consistent self → pool_consistent self')
  ∧ (∀ k a, (k, a) ∈ agents self' →
       status a = inactive
       ∧ ∃ a0, (k, a0) ∈ agents self ∧ a = agent_shutdown a0)
  ∧ active_list self' = []
  ∧ (∀ task, (_select_agent_for_task self' task).1 = None)
  ∧ (∀ r p, worker_dispatch self' = Some (r, p) →
       r = Requeued ∧ length (task_queue p) = length (task_queue self))
  ∧ st'.1 = ∅
  ∧ closed st'.2 = closed st.2 ∪ st.1
  ∧ failing st'.2 = failing st.2
  ∧ sent st'.2 = sent st.2.
Proof.
  intros self' st'. unfold self', st', pool_shutdown. cbn [fst snd].
  set (p := {| agents := _ |}).
  assert (PyDict.keys (agents p) = PyDict.keys (agents self)) as Hkeys
    by apply keys_fmap_values.
  assert (∀ k a, (k, a) ∈ agents p →
            status a = inactive ∧ ∃ a0, (k, a0) ∈ agents self ∧ a = agent_shutdown a0)
    as Hmembers.
  { intros k a ([k0 a0] & [= -> ->] & Hin)%list_elem_of_fmap. split; [done|]. by exists a0. }
  assert (active_list p = []) as Hactive.
  { unfold active_list. apply elem_of_nil_inv. intros a [Hst Hin]%list_elem_of_filter.
    apply list_elem_of_fmap in Hin as ([k a'] & -> & Hin).
    destruct (Hmembers k a' Hin) as [Hin' _]. simpl in Hst. congruence. }
  assert (∀ q task, active_list q = [] → (_select_agent_for_task q task).1 = None)
    as Hnone.
  { intros q task Hq. rewrite select_agent_by_active_list. by rewrite Hq. }
  destruct (close_all (elements st.1) st.2) as (Hclosed & Hfailing & Hsent).
  split; [done|]. split; [done|]. split; [done|]. split; [done|]. split.
  { intros [Hnd Hdom]. split; by rewrite Hkeys. }
  split; [done|]. split; [done|]. split; [by intros task; apply Hnone|]. split.
  - intros r q. unfold worker_dispatch.
    destruct (task_queue p) as [|task rest] eqn:Hq; [done|].
    assert (active_list (with_task_queue p rest) = []) as Hactive' by exact Hactive.
    pose proof (Hnone (with_task_queue p rest) task Hactive') as Hsel.
    rewrite select_agent_by_active_list, Hactive' in Hsel |- *.
    intros [= <- <-]. split; [done|].
    simpl. change (task_queue self) with (task_queue p). rewrite Hq, length_app.
    simpl. lia.
  - split; [done|]. split; [|done].
    rewrite Hclosed. f_equal. apply set_eq. intros sock.
    by rewrite elem_of_list_to_set, elem_of_elements.
Qed.
